(** * The weighted embedding product matcher of [matcher_duplicates.py]

    A shallow embedding of the matcher: text preprocessing, the call to the
    embedding provider, the weighted combination of three embeddings, cosine
    similarity, the top-k ranking and the assembly of the match report.

    Modelling choices, fixed here once:
    - Python floats and numpy's [float64] are Rocq's primitive binary64
      floats; numpy's arithmetic never raises on a zero divisor (it warns and
      returns [nan] or an infinity), which is what IEEE division does.
    - Python strings are [string]s of bytes: [str.lower] and the character
      classes are the ASCII ones, and every byte outside ASCII is a
      non-letter.
    - A JSON object is a [gmap string string]; a missing key raises
      [KeyError].
    - The embedding provider is a parameter: a function from the events so
      far and the submitted text to either an error or a vector.  It stands
      for the call [client.embeddings.create] as a whole, with whatever the
      client library does inside it; an error is what that call raises.  The
      world is the list of events (provider calls and sleeps) in order.
    - NLTK's English stop word list is a parameter ([STOP_WORDS]). *)

From Stdlib Require Import ZArith Floats Ascii String Reals Lra Lia.
From Stdlib Require Import Decimal DecimalString.
From stdpp Require Import base option list gmap strings sorting.

Set Warnings "-inexact-float".

(** ** Exceptions and the two monads *)

Inductive provider_error :=
| RateLimitError (retry_after : option nat)
| APIError (status : nat).

Inductive exn :=
| KeyError (key : string)
| IndexError
| ValueError
| ProviderError (e : provider_error).

(** The result of a computation that may raise. *)
Inductive outcome (A : Type) :=
| Ok (a : A)
| Raise (e : exn).
Arguments Ok {A} a.
Arguments Raise {A} e.

#[global] Instance outcome_ret : MRet outcome := λ A a, Ok a.
#[global] Instance outcome_bind : MBind outcome := λ A B f m,
  match m with
  | Ok a => f a
  | Raise e => Raise e
  end.

Fixpoint mapM_outcome {A B} (f : A → outcome B) (l : list A) : outcome (list B) :=
  match l with
  | [] => Ok []
  | x :: l' => y ← f x; ys ← mapM_outcome f l'; Ok (y :: ys)
  end.

(** What the process does to the outside, in order. *)
Inductive event :=
| EmbedCall (input : string)
| Sleep (seconds : nat).

(** A computation that may raise and that extends the list of events. *)
Definition M (A : Type) : Type := list event → outcome A * list event.

#[global] Instance M_ret : MRet M := λ A a w, (Ok a, w).
#[global] Instance M_bind : MBind M := λ A B f m w,
  match m w with
  | (Ok a, w') => f a w'
  | (Raise e, w') => (Raise e, w')
  end.

Definition lift {A} (o : outcome A) : M A := λ w, (o, w).

Fixpoint mapM_M {A B} (f : A → M B) (l : list A) : M (list B) :=
  match l with
  | [] => mret []
  | x :: l' => y ← f x; ys ← mapM_M f l'; mret (y :: ys)
  end.

(** ** numpy: one-dimensional arrays *)

(** The arithmetic the numeric kernel is written over: binary64 for the
    program as it runs, the real numbers for its exact-arithmetic reading. *)
Class Arith (F : Type) := {
  f_zero : F;
  f_add : F → F → F;
  f_mul : F → F → F;
  f_div : F → F → F;
  f_sqrt : F → F
}.

#[global] Instance float_arith : Arith float := {|
  f_zero := 0%float;
  f_add := PrimFloat.add;
  f_mul := PrimFloat.mul;
  f_div := PrimFloat.div;
  f_sqrt := PrimFloat.sqrt
|}.

#[global] Instance R_arith : Arith R := {|
  f_zero := 0%R;
  f_add := Rplus;
  f_mul := Rmult;
  f_div := Rdiv;
  f_sqrt := sqrt
|}.

Section Kernel.
Context {F : Type} `{Arith F}.

(** The sum of the products of two arrays, accumulated from the left. *)
Definition dot_sum (a b : list F) : F :=
  foldl (λ acc p, f_add acc (f_mul p.1 p.2)) f_zero (zip a b).

(** [np.dot] on two 1-D arrays: the shapes must agree. *)
Definition np_dot (a b : list F) : outcome F :=
  if decide (length a = length b) then Ok (dot_sum a b) else Raise ValueError.

(** [np.linalg.norm] on a 1-D array: [sqrt(dot(x, x))]. *)
Definition np_norm (a : list F) : F := f_sqrt (dot_sum a a).

(** [w * a] for a scalar [w]. *)
Definition np_scale (w : F) (a : list F) : list F := map (f_mul w) a.

(** [a + b] with numpy's broadcasting of a length-1 array. *)
Definition np_add (a b : list F) : outcome (list F) :=
  if decide (length a = length b) then Ok (zip_with f_add a b)
  else match a, b with
       | [x], _ => Ok (map (f_add x) b)
       | _, [y] => Ok (map (λ x, f_add x y) a)
       | _, _ => Raise ValueError
       end.

(** [a / n] for a scalar [n]. *)
Definition np_div_scalar (a : list F) (n : F) : list F := map (λ x, f_div x n) a.

Definition cosine_similarity (v1 v2 : list F) : outcome F :=
  d ← np_dot v1 v2;
  Ok (f_div d (f_mul (np_norm v1) (np_norm v2))).

(** Lines 110-116 of [get_weighted_embedding]: the weighted sum of the three
    embeddings, divided by its norm. *)
Definition combine_weighted (title_weight type_weight description_weight : F)
    (title_embedding type_embedding desc_embedding : list F) : outcome (list F) :=
  s ← np_add (np_scale title_weight title_embedding)
             (np_scale type_weight type_embedding);
  weighted_embedding ← np_add s (np_scale description_weight desc_embedding);
  Ok (np_div_scalar weighted_embedding (np_norm weighted_embedding)).

End Kernel.

(** ** numpy: sorting and slicing *)

(** numpy's order on [float64] when sorting: [a < b], with every [nan] after
    every number. *)
Definition np_lt (a b : float) : bool :=
  (a <? b)%float || (is_nan b && negb (is_nan a)).

(** [a] sorts no later than [b]. *)
Definition np_le (a b : float) : bool := negb (np_lt b a).

(** Insertion into an ascending list, after the entries that are not
    greater. *)
Fixpoint insert_asc (x : nat * float) (l : list (nat * float)) : list (nat * float) :=
  match l with
  | [] => [x]
  | y :: l' => if np_lt x.2 y.2 then x :: y :: l' else y :: insert_asc x l'
  end.

(** Insertion sort, the sort numpy's default [kind='quicksort'] runs on
    arrays of at most 16 elements; it is stable. *)
Definition sort_asc (l : list (nat * float)) : list (nat * float) :=
  foldl (λ acc x, insert_asc x acc) [] l.

(** [np.argsort(v)]: the indices of [v] in ascending order of the values. *)
Definition argsort (v : list float) : list nat :=
  (sort_asc (imap (λ i x, (i, x)) v)).*1.

(** [l[start:]] for a Python integer [start]. *)
Definition slice_from {A} (start : Z) (l : list A) : list A :=
  let n := Z.of_nat (length l) in
  let s := if (start <? 0)%Z then Z.max (start + n) 0 else Z.min start n in
  drop (Z.to_nat s) l.

(** [l[idx]] for a non-negative index. *)
Definition getidx {A} (l : list A) (idx : nat) : outcome A :=
  match l !! idx with
  | Some x => Ok x
  | None => Raise IndexError
  end.

(** ** Strings *)

Definition in_range (lo hi : N) (c : ascii) : bool :=
  (lo <=? N_of_ascii c)%N && (N_of_ascii c <=? hi)%N.

Definition is_upper (c : ascii) : bool := in_range 65 90 c.
Definition is_lower (c : ascii) : bool := in_range 97 122 c.
Definition is_digit (c : ascii) : bool := in_range 48 57 c.

(** Python's whitespace among the ASCII characters: tab, line feed, vertical
    tab, form feed, carriage return, the four separators 28-31 and space. *)
Definition is_space (c : ascii) : bool := in_range 9 13 c || in_range 28 32 c.

Definition lower_char (c : ascii) : ascii :=
  if is_upper c then ascii_of_N (N_of_ascii c + 32) else c.

Fixpoint string_map (f : ascii → ascii) (s : string) : string :=
  match s with
  | EmptyString => EmptyString
  | String c s' => String (f c) (string_map f s')
  end.

(** [text.lower()] *)
Definition lower (text : string) : string := string_map lower_char text.

(** The replacement [re.sub] makes for one character of the class
    [[^a-zA-Z\s]]. *)
Definition sub_char (c : ascii) : ascii :=
  if is_upper c || is_lower c || is_space c then c else " "%char.

(** [re.sub(r'[^a-zA-Z\s]', ' ', text)] *)
Definition sub_non_alpha (text : string) : string := string_map sub_char text.

Definition push_word (w : string) (ws : list string) : list string :=
  if decide (w = EmptyString) then ws else w :: ws.

(** The word that starts at the front of [s] (empty when [s] starts with
    whitespace), and the words after it. *)
Fixpoint split_acc (s : string) : string * list string :=
  match s with
  | EmptyString => (EmptyString, [])
  | String c s' =>
      let (w, ws) := split_acc s' in
      if is_space c then (EmptyString, push_word w ws) else (String c w, ws)
  end.

(** [text.split()]: the maximal runs of non-whitespace characters. *)
Definition split (s : string) : list string :=
  let (w, ws) := split_acc s in push_word w ws.

(** [sep.join(words)] *)
Definition join (sep : string) (words : list string) : string := String.concat sep words.

Fixpoint lstrip (s : string) : string :=
  match s with
  | EmptyString => EmptyString
  | String c s' => if is_space c then lstrip s' else s
  end.

(** [s.strip()] *)
Definition strip (s : string) : string :=
  String.rev (lstrip (String.rev (lstrip s))).

(** ** Stop words and preprocessing *)

Definition CUSTOM_STOP_WORDS : gset string := list_to_set [
  "fresh"; "juicy"; "delicious"; "tasty"; "premium"; "best"; "sourced";
  "cleaned"; "hygienic"; "100%"; "order"; "try"; "now"; "quality";
  "from"; "our"; "your"; "we";
  "big"; "mini"; "fresh"; "quality"; "pack";
  "pieces"; "piece"; "large"; "small"; "medium";
  "supreme"; "net"; "g"; "gm"; "grams";
  "juicy"; "tender"; "succulent"; "delicious"; "meaty";
  "rich"; "smooth"; "tasty"; "comforting"; "ready"; "clean";
  "cleaned"; "hygienic"; "flavorful"; "savoury"; "wholesome";
  "superior"; "indulgent"; "favourite"; "authentic"; "classic";
  "perfect"; "delightful"; "mouthwatering"; "amazing"; "special";
  "everyday";
  "japfa"; "licious"; "japfa best"; "own farms"; "biosecure";
  "sourced"; "farm"; "raised"; "processing"; "center"; "centre";
  "delivered"; "organic"; "nutritious"; "healthy"; "nutrient";
  "nutrient-rich"; "nutrient-dense"; "nutrient-packed"; "nutrient-filled";
  "nutrient-loaded"; "nutrient-enhanced"; "nutrient-boosted";
  "nutrient-rich"; "nutrient-dense"; "nutrient-packed"; "nutrient-filled";
  "nutrient-loaded"; "nutrient-boosted"; "nutrient-rich"; "nutrient-dense"
].

(** ** Catalog items and the match report *)

Abbreviation item := (gmap string string).

(** [d[k]] *)
Definition getitem (d : item) (k : string) : outcome string :=
  match d !! k with
  | Some v => Ok v
  | None => Raise (KeyError k)
  end.

Record japfa_product := {
  jp_title : string;
  jp_category_name : string;
  jp_type : string
}.

Record match_entry := {
  me_licious_id : string;
  me_title : string;
  me_type : string;
  me_category_name : string;
  me_confidence : string
}.

Record report_entry := {
  re_japfa_product : japfa_product;
  re_matches : list match_entry
}.

Abbreviation report := (gmap string report_entry).

(** ** Formatting a float with [:.2f] *)

Definition sign_prefix (s : bool) : string := if s then "-" else "".

(** The integer nearest to [m * 2^e * 100], ties to the even one: Python
    rounds the exact binary value, correctly. *)
Definition round_hundredths (m : positive) (e : Z) : N :=
  match e with
  | Zneg p =>
      let num := (Z.pos m * 100)%Z in
      let den := (2 ^ Z.pos p)%Z in
      let q := (num / den)%Z in
      let r := (num mod den)%Z in
      Z.to_N match (2 * r ?= den)%Z with
             | Lt => q
             | Gt => q + 1
             | Eq => if Z.even q then q else q + 1
             end%Z
  | _ => Z.to_N (Z.pos m * 2 ^ e * 100)
  end.

Definition digit_char (d : N) : ascii := ascii_of_N (48 + d).

(** The decimal digits of [n], without leading zeros. *)
Definition decimal (n : N) : string := NilZero.string_of_uint (N.to_uint n).

(** [f"{x:.2f}"] *)
Definition format_2f (x : float) : string :=
  match Prim2SF x with
  | S754_nan => "nan"
  | S754_infinity s => sign_prefix s +:+ "inf"
  | S754_zero s => sign_prefix s +:+ "0.00"
  | S754_finite s m e =>
      let n := round_hundredths m e in
      sign_prefix s +:+ decimal (n / 100) +:+ "." +:+
      String (digit_char (n mod 100 / 10)) (String (digit_char (n mod 10)) "")
  end.

(** [f"{score * 100:.2f}%"] *)
Definition format_confidence (score : float) : string :=
  format_2f (score * 100)%float +:+ "%".

(** The digits at the front of [s], and the rest. *)
Fixpoint span_digits (s : string) : string * string :=
  match s with
  | EmptyString => (EmptyString, EmptyString)
  | String c s' =>
      if is_digit c then let (d, r) := span_digits s' in (String c d, r)
      else (EmptyString, s)
  end.

(** The pattern the dashboards are said to expect of a confidence string, as
    a full match: one or more digits, optionally a dot and one or more
    digits, then a percent sign. *)
Definition matches_confidence_pattern (s : string) : bool :=
  let (d1, r) := span_digits s in
  negb (bool_decide (d1 = "")) &&
  match r with
  | String "%" EmptyString => true
  | String "." r' =>
      let (d2, r'') := span_digits r' in
      negb (bool_decide (d2 = "")) && bool_decide (r'' = "%")
  | _ => false
  end.

(** Finite with a clear sign bit: [+0.0] or a positive number. *)
Definition nonneg_finite (x : float) : bool :=
  match Prim2SF x with
  | S754_zero false | S754_finite false _ _ => true
  | _ => false
  end.

(** ** The matcher *)

Definition default_title_weight : float := 0.5.
Definition default_type_weight : float := 0.3.
Definition default_description_weight : float := 0.2.
Definition default_top_k : Z := 3.

(** [np.argsort(similarities)[-top_k:][::-1]] *)
Definition top_indices (similarities : list float) (top_k : Z) : list nat :=
  reverse (slice_from (- top_k) (argsort similarities)).

Definition get_top_matches (source_item : item) (target_items : list item)
    (source_embedding : list float) (target_embeddings : list (list float))
    (top_k : Z) : outcome (list (item * float)) :=
  similarities ← mapM_outcome (cosine_similarity source_embedding) target_embeddings;
  mapM_outcome (λ idx, t ← getidx target_items idx;
                       s ← getidx similarities idx;
                       Ok (t, s)) (top_indices similarities top_k).

Section Matcher.

(** [stopwords.words('english')], as a set. *)
Variable STOP_WORDS : gset string.

(** The embedding provider: from the events so far and the submitted text,
    an error or the embedding. *)
Variable provider : list event → string → provider_error + list float.

Definition ALL_STOP_WORDS : gset string := STOP_WORDS ∪ CUSTOM_STOP_WORDS.

Definition preprocess_text (text : string) : string :=
  let text := lower text in
  let text := sub_non_alpha text in
  let words := split text in
  let words := filter (λ word, word ∉ ALL_STOP_WORDS) words in
  join " " words.

(** [client.embeddings.create(model=..., input=...)] and the reading of the
    embedding out of the response. *)
Definition embeddings_create (input : string) : M (list float) := λ w,
  (match provider w input with
   | inl e => Raise (ProviderError e)
   | inr v => Ok v
   end, w ++ [EmbedCall input]).

Definition get_embedding (text : string) : M (list float) :=
  let cleaned_text := preprocess_text text in
  let cleaned_text :=
    if bool_decide (strip cleaned_text = "") then text else cleaned_text in
  embeddings_create cleaned_text.

(** The text [get_embedding] submits to the provider for [text]. *)
Definition submitted_text (text : string) : string :=
  let cleaned_text := preprocess_text text in
  if bool_decide (strip cleaned_text = "") then text else cleaned_text.

Definition get_weighted_embedding (title description product_type : string)
    (title_weight type_weight description_weight : float) : M (list float) :=
  title_embedding ← get_embedding title;
  type_embedding ← get_embedding product_type;
  desc_embedding ← get_embedding description;
  lift (combine_weighted title_weight type_weight description_weight
          title_embedding type_embedding desc_embedding).

(** The body of the two embedding loops of [match_products], which the
    source writes out twice, once per catalog. *)
Definition embed_item (match_type : string) (it : item) : M (list float) :=
  if decide (match_type = "title") then
    text ← lift (getitem it "title");
    get_embedding text
  else if decide (match_type = "description") then
    text ← lift (getitem it "description");
    get_embedding text
  else if decide (match_type = "weighted") then
    title ← lift (getitem it "title");
    description ← lift (getitem it "description");
    product_type ← lift (getitem it "type");
    get_weighted_embedding title description product_type
      default_title_weight default_type_weight default_description_weight
  else
    title ← lift (getitem it "title");
    description ← lift (getitem it "description");
    get_embedding (title +:+ " " +:+ description).

Definition match_entry_of (m : item * float) : outcome match_entry :=
  licious_id ← getitem m.1 "licious_id";
  title ← getitem m.1 "title";
  ty ← getitem m.1 "type";
  category_name ← getitem m.1 "category_name";
  Ok {| me_licious_id := licious_id; me_title := title; me_type := ty;
        me_category_name := category_name;
        me_confidence := format_confidence m.2 |}.

(** One turn of the loop that fills [results]. *)
Definition report_entry_of (source_item : item) (source_embedding : list float)
    (target_items : list item) (target_embeddings : list (list float))
    : outcome (string * report_entry) :=
  key ← getitem source_item "japfa_id";
  matches ← get_top_matches source_item target_items source_embedding
              target_embeddings default_top_k;
  title ← getitem source_item "title";
  category_name ← getitem source_item "category_name";
  ty ← getitem source_item "type";
  ms ← mapM_outcome match_entry_of matches;
  Ok (key, {| re_japfa_product := {| jp_title := title;
                                     jp_category_name := category_name;
                                     jp_type := ty |};
              re_matches := ms |}).

Fixpoint build_results (sources : list (item * list float))
    (target_items : list item) (target_embeddings : list (list float))
    (results : report) : outcome report :=
  match sources with
  | [] => Ok results
  | (source_item, source_embedding) :: rest =>
      kv ← report_entry_of source_item source_embedding target_items target_embeddings;
      build_results rest target_items target_embeddings (<[kv.1 := kv.2]> results)
  end.

Definition match_products (source_items target_items : list item)
    (match_type : string) : M report :=
  source_embeddings ← mapM_M (embed_item match_type) source_items;
  target_embeddings ← mapM_M (embed_item match_type) target_items;
  lift (build_results (zip source_items source_embeddings)
          target_items target_embeddings ∅).

End Matcher.

(** The element-wise weighted sum of three arrays of one length. *)
Definition weighted_sum {F} `{Arith F} (title_weight type_weight description_weight : F)
    (title_embedding type_embedding desc_embedding : list F) : list F :=
  zip_with f_add
    (zip_with f_add (np_scale title_weight title_embedding)
                    (np_scale type_weight type_embedding))
    (np_scale description_weight desc_embedding).

(** ** Well-formed catalogs *)

(** The item has every key of [keys]. *)
Definition has_fields (keys : list string) (it : item) : Prop :=
  Forall (λ k, is_Some (it !! k)) keys.

#[global] Instance has_fields_dec keys it : Decision (has_fields keys it).
Proof. unfold has_fields. apply _. Defined.

(** The fields [match_products] reads of a source item and of a target. *)
Definition source_fields : list string :=
  ["japfa_id"; "title"; "description"; "type"; "category_name"].
Definition target_fields : list string :=
  ["licious_id"; "title"; "description"; "type"; "category_name"].

(** The provider answers every call with a vector of dimension [d]. *)
Definition provider_total (provider : list event → string → provider_error + list float)
    (d : nat) : Prop :=
  ∀ w input, ∃ v, provider w input = inr v ∧ length v = d.

(** ** Providers used as concrete inputs *)



(** Answers every call with the same two-dimensional unit vector. *)
Definition constant_provider : list event → string → provider_error + list float :=
  λ _ _, inr [1%float; 0%float].

(** ** Predicates on strings, for the proofs about preprocessing *)

Fixpoint string_forall (P : ascii → bool) (s : string) : bool :=
  match s with
  | EmptyString => true
  | String c s' => P c && string_forall P s'
  end.

(** A word as [preprocess_text] leaves it: lower-case letters, at least one. *)
Definition clean_word (w : string) : Prop :=
  w ≠ EmptyString ∧ string_forall is_lower w = true.

(** ** Ranks of floats, for the proofs about sorting *)

(** A rank for every float in numpy's sorting order: the sign class first,
    then exponent and mantissa, with [nan] above everything. *)
Definition sf_key (x : spec_float) : Z * Z * Z :=
  match x with
  | S754_infinity true => (-2, 0, 0)
  | S754_finite true m e => (-1, - e, Z.neg m)
  | S754_zero _ => (0, 0, 0)
  | S754_finite false m e => (1, e, Z.pos m)
  | S754_infinity false => (2, 0, 0)
  | S754_nan => (3, 0, 0)
  end%Z.

Definition key_lt (p q : Z * Z * Z) : Prop :=
  (p.1.1 < q.1.1 ∨ (p.1.1 = q.1.1 ∧ (p.1.2 < q.1.2 ∨ (p.1.2 = q.1.2 ∧ p.2 < q.2))))%Z.

Definition fkey (a : float) : Z * Z * Z := sf_key (Prim2SF a).

(** The order of the entries [argsort] returns: by value, and by index among
    equal values. *)
Definition pair_lt (x y : nat * float) : Prop :=
  np_lt x.2 y.2 = true ∨ (np_lt y.2 x.2 = false ∧ x.1 < y.1).

(** The entries behind [top_indices], each index with its value. *)
Definition top_pairs (similarities : list float) (top_k : Z) : list (nat * float) :=
  reverse (slice_from (- top_k) (sort_asc (imap (λ i x, (i, x)) similarities))).

(** ** Catalog items used as concrete inputs *)

Definition japfa_J1 : item :=
  {[ "japfa_id" := "J1"; "title" := "Chicken Breast Boneless";
     "description" := "Boneless chicken breast"; "category_name" := "Chicken";
     "type" := "chicken" ]}.


Definition licious_L1 : item :=
  {[ "licious_id" := "L1"; "title" := "Boneless Chicken Breast";
     "description" := "Chicken breast without bone"; "category_name" := "Chicken";
     "type" := "chicken" ]}.

Definition licious_L2 : item :=
  {[ "licious_id" := "L2"; "title" := "Mutton Curry Cut";
     "description" := "Goat curry cut"; "category_name" := "Mutton";
     "type" := "mutton" ]}.

(** A second item with the id of [japfa_J1]. *)
Definition japfa_J1_again : item :=
  {[ "japfa_id" := "J1"; "title" := "Chicken Drumstick";
     "description" := "Drumsticks with skin"; "category_name" := "Chicken";
     "type" := "chicken" ]}.

(** An item with no ["japfa_id"]. *)
Definition japfa_no_id : item :=
  {[ "title" := "Chicken Wings"; "description" := "Wings with skin";
     "category_name" := "Chicken"; "type" := "chicken" ]}.

(** ** What a run of [match_products] asks of the provider *)

(** [it[k]] for an item that has the key. *)
Definition field (it : item) (k : string) : string := default "" (it !! k).

(** The provider calls one turn of an embedding loop makes for an item that
    has its fields, by match type. *)
Definition item_calls (STOP_WORDS : gset string) (match_type : string) (it : item)
    : list event :=
  if decide (match_type = "title") then
    [EmbedCall (submitted_text STOP_WORDS (field it "title"))]
  else if decide (match_type = "description") then
    [EmbedCall (submitted_text STOP_WORDS (field it "description"))]
  else if decide (match_type = "weighted") then
    [EmbedCall (submitted_text STOP_WORDS (field it "title"));
     EmbedCall (submitted_text STOP_WORDS (field it "type"));
     EmbedCall (submitted_text STOP_WORDS (field it "description"))]
  else
    [EmbedCall (submitted_text STOP_WORDS
                  (field it "title" +:+ " " +:+ field it "description"))].

(** * The description rewriter of [modify_description.py]

    Modelling choices for this script:
    - the HTTP endpoint is a parameter [post]: from the actions so far and
      the prompt, either the exception [requests.post] raises or the
      response; a response is its status code and its body read as JSON
      ([None] when the body is not JSON, so that [response.json()] raises);
    - the builtin [int] on a string is a parameter [py_int] ([None] when it
      raises [ValueError]), and so is the largest whole number of seconds
      [time.sleep] accepts ([sleep_limit]; above it [time.sleep] raises
      [OverflowError], below zero it raises [ValueError]);
    - the products of a catalog file are [item]s, as in the matcher;
    - the loop [while True] of [call_gemini] takes a bound on its turns; a
      run that uses the bound up has no result ([None]);
    - [print] is left out. *)

(** ** JSON values and exceptions *)

Set Warnings "-register-all".


Inductive json :=
| JNull
| JBool (b : bool)
| JInt (n : Z)
| JFloat (x : float)
| JStr (s : string)
| JList (l : list json)
| JDict (d : list (string * json)).

(** The exceptions of this script: those of the matcher, and the others
    that reading a JSON value, sleeping and posting can raise. *)
Inductive exception :=
| Builtin (e : exn)
| TypeError
| AttributeError
| OverflowError
| JSONDecodeError
| RequestException.

Inductive result (A : Type) :=
| Returns (a : A)
| Raises (e : exception).
Arguments Returns {A} a.
Arguments Raises {A} e.

#[global] Instance result_ret : MRet result := λ A a, Returns a.
#[global] Instance result_bind : MBind result := λ A B f m,
  match m with
  | Returns a => f a
  | Raises e => Raises e
  end.

(** What the script does to the outside, in order. *)
Inductive action :=
| Post (prompt : string)
| SleepSeconds (n : Z)
| SleepHalfSecond
| Dump (filepath : string) (data : list item).

(** A computation that extends the list of actions and returns, raises, or
    is cut off ([None]). *)
Definition IO (A : Type) : Type := list action → option (result A) * list action.

#[global] Instance IO_ret : MRet IO := λ A a w, (Some (Returns a), w).
#[global] Instance IO_bind : MBind IO := λ A B f m w,
  match m w with
  | (Some (Returns a), w') => f a w'
  | (Some (Raises e), w') => (Some (Raises e), w')
  | (None, w') => (None, w')
  end.

Definition lift_result {A} (r : result A) : IO A := λ w, (Some r, w).

Fixpoint mapM_IO {A B} (f : A → IO B) (l : list A) : IO (list B) :=
  match l with
  | [] => mret []
  | x :: l' => y ← f x; ys ← mapM_IO f l'; mret (y :: ys)
  end.

(** The value under the key [k] of a dict, as a list of its entries. *)
Fixpoint assoc (k : string) (d : list (string * json)) : option json :=
  match d with
  | [] => None
  | (k', v) :: d' => if decide (k = k') then Some v else assoc k d'
  end.

(** [v[k]] for a string [k]: only a dict can be indexed by a string. *)
Definition subscript (v : json) (k : string) : result json :=
  match v with
  | JDict d =>
      match assoc k d with
      | Some x => Returns x
      | None => Raises (Builtin (KeyError k))
      end
  | _ => Raises TypeError
  end.

(** [v[0]]: the first element of a list, the first character of a string;
    a dict read from JSON has no key [0]. *)
Definition subscript_0 (v : json) : result json :=
  match v with
  | JList (x :: _) => Returns x
  | JList [] => Raises (Builtin IndexError)
  | JStr (String c _) => Returns (JStr (String c ""))
  | JStr EmptyString => Raises (Builtin IndexError)
  | JDict _ => Raises (Builtin (KeyError "0"))
  | _ => Raises TypeError
  end.

(** [v.strip()]: only a string has the method. *)
Definition str_strip (v : json) : result string :=
  match v with
  | JStr s => Returns (strip s)
  | _ => Raises AttributeError
  end.

(** [v.get(k, dflt)]: only a dict has the method. *)
Definition dict_get (v : json) (k : string) (dflt : json) : result json :=
  match v with
  | JDict d => Returns (default dflt (assoc k d))
  | _ => Raises AttributeError
  end.

(** What [for detail in v] runs through: the elements of a list, the keys
    of a dict, the characters of a string. *)
Definition iterate (v : json) : result (list json) :=
  match v with
  | JList l => Returns l
  | JDict d => Returns (JStr <$> d.*1)
  | JStr s => Returns ((λ c, JStr (String c "")) <$> list_ascii_of_string s)
  | _ => Raises TypeError
  end.

(** [v == s] for a string [s]. *)
Definition eq_str (v : json) (s : string) : bool :=
  match v with
  | JStr t => bool_decide (t = s)
  | _ => false
  end.

(** [s.replace("s", "")] *)
Fixpoint remove_s (s : string) : string :=
  match s with
  | EmptyString => EmptyString
  | String c s' => if decide (c = "s"%char) then remove_s s' else String c (remove_s s')
  end.

(** [v.replace("s", "").strip()]: only a string has the methods. *)
Definition replace_strip (v : json) : result string :=
  match v with
  | JStr s => Returns (strip (remove_s s))
  | _ => Raises AttributeError
  end.

Record response := {
  status_code : Z;
  json_body : option json
}.

(** [response.json()] *)
Definition response_json (r : response) : result json :=
  match json_body r with
  | Some v => Returns v
  | None => Raises JSONDecodeError
  end.

(** [response.json()["candidates"][0]["content"]["parts"][0]["text"].strip()] *)
Definition candidate_text (r : response) : result string :=
  body ← response_json r;
  candidates ← subscript body "candidates";
  candidate ← subscript_0 candidates;
  content ← subscript candidate "content";
  parts ← subscript content "parts";
  part ← subscript_0 parts;
  text ← subscript part "text";
  str_strip text.

Definition RETRY_INFO : string := "type.googleapis.com/google.rpc.RetryInfo".

(** ** Prompts *)

Definition newline : string := String "010" "".

Definition DESC_PROMPT_TEMPLATE (title : string) : string :=
  "You are a product description assistant. Rewrite a product description for the product in 50 words only. "
  +:+ "Base it on the title provided. Ensure the description is detailed, informative,to the point and easy to understand. "
  +:+ "Include qualities of the product, its cut, typical use cases, nutritional benefits, and what sets it apart. "
  +:+ "Do NOT include recipes or instructions. Just provide a high-quality informative product description hich is NOT marketing tone."
  +:+ newline +:+ newline
  +:+ "Product Title: " +:+ title.

Definition TYPE_PROMPT_TEMPLATE (title description category : string) : string :=
  "Given the following product title and description and category, classify its type strictly as one of the following: "
  +:+ "'chicken', 'mutton', 'seafood', 'eggs', or 'ready to cook'. Respond with ONLY the type word, nothing else."
  +:+ newline +:+ newline
  +:+ "Title: " +:+ title +:+ newline
  +:+ "Description: " +:+ description +:+ newline
  +:+ "Category: " +:+ category.

(** The list [predicted_type] is checked against. *)
Definition PRODUCT_TYPES : list string :=
  ["chicken"; "mutton"; "seafood"; "eggs"; "ready to cook"].

(** ** [call_gemini] and [process_file] *)

Section Rewriter.

(** [requests.post(API_URL, headers=HEADERS, json=body)] for the body built
    around a prompt. *)
Variable post : list action → string → exception + response.

(** [int(s)] for a string [s]. *)
Variable py_int : string → option Z.

(** The largest [n] for which [time.sleep(n)] sleeps. *)
Variable sleep_limit : Z.

(** [time.sleep(n)] for an integer [n]. *)
Definition time_sleep (n : Z) : IO () := λ w,
  if (n <? 0)%Z then (Some (Raises (Builtin ValueError)), w)
  else if (sleep_limit <? n)%Z then (Some (Raises OverflowError), w)
  else (Some (Returns ()), w ++ [SleepSeconds n]).

(** [time.sleep(0.5)] *)
Definition time_sleep_half : IO () := λ w, (Some (Returns ()), w ++ [SleepHalfSecond]).

(** [int(s)] *)
Definition int_of (s : string) : result Z :=
  match py_int s with
  | Some n => Returns n
  | None => Raises (Builtin ValueError)
  end.

(** The loop over [retry_info] in the 429 branch, from the value
    [retry_delay] has before a detail is looked at. *)
Fixpoint retry_delay_loop (details : list json) (retry_delay : Z) : result Z :=
  match details with
  | [] => Returns retry_delay
  | detail :: rest =>
      ty ← dict_get detail "@type" JNull;
      if eq_str ty RETRY_INFO then
        retry ← dict_get detail "retryDelay" (JStr "30s");
        s ← replace_strip retry;
        n ← int_of s;
        retry_delay_loop rest n
      else retry_delay_loop rest retry_delay
  end.

(** The [try] block of the 429 branch up to the call of [time.sleep]. *)
Definition retry_delay_of (r : response) : result Z :=
  body ← response_json r;
  error ← subscript body "error";
  retry_info ← subscript error "details";
  details ← iterate retry_info;
  retry_delay_loop details 30.

(** [call_gemini], with at most [fuel] turns of its loop. *)
Fixpoint call_gemini (fuel : nat) (prompt : string) : IO string := λ w,
  match fuel with
  | O => (None, w)
  | S fuel' =>
      let w1 := w ++ [Post prompt] in
      match post w prompt with
      | inl e => (Some (Raises e), w1)
      | inr r =>
          if decide (status_code r = 200%Z) then
            match candidate_text r with
            | Returns text => (Some (Returns text), w1)
            | Raises (Builtin (KeyError _)) | Raises (Builtin IndexError) =>
                (Some (Returns "ERROR"), w1)
            | Raises e => (Some (Raises e), w1)
            end
          else if decide (status_code r = 429%Z) then
            match (retry_delay ← lift_result (retry_delay_of r);
                   time_sleep retry_delay) w1 with
            | (Some (Returns _), w2) => call_gemini fuel' prompt w2
            | (_, w2) =>
                match time_sleep 30 w2 with
                | (Some (Returns _), w3) => call_gemini fuel' prompt w3
                | (Some (Raises e), w3) => (Some (Raises e), w3)
                | (None, w3) => (None, w3)
                end
            end
          else (Some (Returns "ERROR"), w1)
      end
  end.

(** One turn of the loop of [process_file] over the products. *)
Definition process_product (fuel : nat) (product : item) : IO item :=
  let title := field product "title" in        (* product.get("title", "") *)
  let category := field product "category" in  (* product.get("category", "") *)
  if decide (title = "") then mret product
  else
    new_desc ← call_gemini fuel (DESC_PROMPT_TEMPLATE title);
    let product := <["description" := new_desc]> product in
    _ ← time_sleep_half;
    answer ← call_gemini fuel (TYPE_PROMPT_TEMPLATE title new_desc category);
    let predicted_type := lower answer in
    let predicted_type :=
      if decide (predicted_type ∈ PRODUCT_TYPES) then predicted_type else "chicken" in
    let product := <["type" := predicted_type]> product in
    _ ← time_sleep_half;
    mret product.

(** [json.dump(data, file, ...)] into the file at [filepath]. *)
Definition dump (filepath : string) (data : list item) : IO () := λ w,
  (Some (Returns ()), w ++ [Dump filepath data]).

(** [process_file] on the products [data] that [json.load] read from the
    file at [filepath]. *)
Definition process_file (fuel : nat) (filepath : string) (data : list item) : IO () :=
  data ← mapM_IO (process_product fuel) data;
  dump filepath data.

End Rewriter.

Definition is_post (a : action) : bool :=
  match a with Post _ => true | _ => false end.

Definition is_dump (a : action) : bool :=
  match a with Dump _ _ => true | _ => false end.

(** The number of requests among the actions. *)
Definition posts (w : list action) : nat := length (filter is_post w).

(** No file is written among the actions. *)
Definition no_dump (w : list action) : Prop := Forall (λ a, is_dump a = false) w.

(** How [process_file] leaves a product: one with no title as it was; any
    other with a description, a type out of the five, and every other field
    as it was. *)
Definition rewritten (product product' : item) : Prop :=
  if decide (field product "title" = "") then product' = product
  else (∀ k, k ≠ "description" → k ≠ "type" → product' !! k = product !! k) ∧
       is_Some (product' !! "description") ∧
       ∃ t, product' !! "type" = Some t ∧ t ∈ PRODUCT_TYPES.

(** What [call_gemini] adds to the actions for [prompt]: requests with that
    prompt, and sleeps of a whole number of seconds that [time.sleep]
    accepts. *)
Definition gemini_action (sleep_limit : Z) (prompt : string) (a : action) : Prop :=
  a = Post prompt ∨ ∃ n, a = SleepSeconds n ∧ (0 ≤ n ≤ sleep_limit)%Z.



(** ** Endpoints and builtins to run the rewriter on *)

(** [int] on a run of ASCII digits with an optional minus sign before it;
    every other string is refused. *)
Fixpoint digits_value (s : string) (acc : Z) : option Z :=
  match s with
  | EmptyString => Some acc
  | String c s' =>
      if is_digit c then digits_value s' (10 * acc + Z.of_N (N_of_ascii c - 48))%Z
      else None
  end.

Definition int_of_digits (s : string) : option Z :=
  match s with
  | EmptyString | String "-" EmptyString => None
  | String "-" s' => Z.opp <$> digits_value s' 0
  | _ => digits_value s 0
  end.

Definition retry_response (delay : string) : response :=
  {| status_code := 429;
     json_body := Some (JDict [("error", JDict [("details", JList [
       JDict [("@type", JStr RETRY_INFO); ("retryDelay", JStr delay)]])])]) |}.

Definition text_response (text : string) : response :=
  {| status_code := 200;
     json_body := Some (JDict [("candidates", JList [
       JDict [("content", JDict [("parts", JList [JDict [("text", JStr text)]])])]])]) |}.

(** The limit of [time.sleep] where the clock counts nanoseconds in 64
    bits. *)
Definition sleep_limit_64 : Z := 9223372036.


(** An endpoint that answers every request with status 429 and a retry
    delay of no seconds. *)
Definition endpoint_busy : list action → string → exception + response :=
  λ _ _, inr (retry_response "0s").

(** An endpoint that is rate limited for the first two requests, with a
    negative delay, and answers from the third on. *)
Definition endpoint_recovering : list action → string → exception + response :=
  λ w _, if decide (posts w < 2) then inr (retry_response "-5s")
         else inr (text_response " Mutton ").

Definition product_P1 : item :=
  {[ "title" := "Chicken Curry Cut"; "category" := "Chicken";
     "japfa_id" := "J1"; "category_name" := "Chicken" ]}.

Definition product_untitled : item :=
  {[ "japfa_id" := "J2"; "description" := "old text" ]}.

Definition product_T1 : item :=
  {[ "title" := "Mutton Curry Cut"; "category" := "Mutton";
     "licious_id" := "L7"; "category_name" := "Mutton" ]}.

(** * The dashboards that read the report

    [1_Product_Match.py] and [2_Unmatched_Products.py] load the report the
    matcher wrote and compare the confidence strings with a threshold.

    Modelling choices for these scripts:
    - the object under ["weighted_matches"] is the list of its items, in the
      order of the file, each value a [report_entry] as [match_products]
      makes them;
    - the builtin [float] on a string is a parameter [py_float] ([None] when
      it raises [ValueError]);
    - a threshold is a float; the sliders give whole numbers from 0 to 100,
      which binary64 holds exactly. *)

Fixpoint lstrip_percent (s : string) : string :=
  match s with
  | EmptyString => EmptyString
  | String c s' => if decide (c = "%"%char) then lstrip_percent s' else s
  end.

(** [s.strip('%')] *)
Definition strip_percent (s : string) : string :=
  String.rev (lstrip_percent (String.rev (lstrip_percent s))).

Abbreviation matches_data := (list (string * report_entry)).

Section Dashboards.

(** [float(s)] for a string [s]. *)
Variable py_float : string → option float.

(** [float(confidence.strip('%'))] *)
Definition confidence_value (confidence : string) : outcome float :=
  match py_float (strip_percent confidence) with
  | Some x => Ok x
  | None => Raise ValueError
  end.

(** [float(match['confidence'].strip('%')) >= threshold] *)
Definition meets_threshold (threshold : float) (m : match_entry) : outcome bool :=
  x ← confidence_value (me_confidence m);
  Ok (threshold <=? x)%float.

(** [[match for match in matches
      if float(match['confidence'].strip('%')) >= min_confidence]]; the
    comprehension looks at every match. *)
Fixpoint filter_matches (matches : list match_entry) (min_confidence : float)
    : outcome (list match_entry) :=
  match matches with
  | [] => Ok []
  | m :: rest =>
      meets_threshold min_confidence m ≫= λ b : bool,
      ms ← filter_matches rest min_confidence;
      Ok (if b then m :: ms else ms)
  end.

(** [any(float(match['confidence'].strip('%')) >= threshold
         for match in matches)]; [any] stops at the first match that meets
    the threshold. *)
Fixpoint any_meets (threshold : float) (matches : list match_entry) : outcome bool :=
  match matches with
  | [] => Ok false
  | m :: rest =>
      meets_threshold threshold m ≫= λ b : bool,
      if b then Ok true else any_meets threshold rest
  end.

(** The loop of [categorize_products], from the two lists as they are
    before an item is looked at. *)
Fixpoint categorize_loop (items : matches_data) (threshold : float)
    (products_with_matches products_without_matches : list (string * japfa_product))
    : outcome (list (string * japfa_product) * list (string * japfa_product)) :=
  match items with
  | [] => Ok (products_with_matches, products_without_matches)
  | (product_id, product_data) :: rest =>
      let japfa_product := re_japfa_product product_data in
      any_meets threshold (re_matches product_data) ≫= λ b : bool,
      if b then
        categorize_loop rest threshold
          (products_with_matches ++ [(product_id, japfa_product)])
          products_without_matches
      else
        categorize_loop rest threshold products_with_matches
          (products_without_matches ++ [(product_id, japfa_product)])
  end.

Definition categorize_products (weighted_matches : matches_data) (threshold : float)
    : outcome (list (string * japfa_product) * list (string * japfa_product)) :=
  categorize_loop weighted_matches threshold [] [].

(** [distribution[match_count] += 1] *)
Definition increment (distribution : gmap nat nat) (match_count : nat)
    : outcome (gmap nat nat) :=
  match distribution !! match_count with
  | Some n => Ok (<[match_count := n + 1]> distribution)
  | None => Raise (KeyError (decimal (N.of_nat match_count)))
  end.

(** The loop of [get_match_distribution]. *)
Fixpoint distribution_loop (items : matches_data) (threshold : float)
    (distribution : gmap nat nat) : outcome (gmap nat nat) :=
  match items with
  | [] => Ok distribution
  | (product_id, product_data) :: rest =>
      ms ← filter_matches (re_matches product_data) threshold;
      let match_count := length ms in
      let match_count := if decide (3 < match_count) then 3 else match_count in
      distribution ← increment distribution match_count;
      distribution_loop rest threshold distribution
  end.

Definition get_match_distribution (weighted_matches : matches_data) (threshold : float)
    : outcome (gmap nat nat * nat) :=
  let distribution : gmap nat nat := {[ 0 := 0; 1 := 0; 2 := 0; 3 := 0 ]} in
  let total_products := length weighted_matches in
  distribution ← distribution_loop weighted_matches threshold distribution;
  Ok (distribution, total_products).

(** The inner loop of [get_unmatched_products] over the matches of one
    product. *)
Fixpoint add_matched (matches : list match_entry) (confidence_threshold : float)
    (matched_products : gset string) : outcome (gset string) :=
  match matches with
  | [] => Ok matched_products
  | m :: rest =>
      meets_threshold confidence_threshold m ≫= λ b : bool,
      add_matched rest confidence_threshold
        (if b then matched_products ∪ {[ me_title m ]} else matched_products)
  end.

(** The outer loop, over [matches_data['weighted_matches'].values()]. *)
Fixpoint matched_loop (values : list report_entry) (confidence_threshold : float)
    (matched_products : gset string) : outcome (gset string) :=
  match values with
  | [] => Ok matched_products
  | product_data :: rest =>
      matched_products ← add_matched (re_matches product_data) confidence_threshold
                           matched_products;
      matched_loop rest confidence_threshold matched_products
  end.

(** The second loop, over [licious_data]. *)
Fixpoint unmatched_loop (licious_data : list item) (matched_products : gset string)
    (unmatched_products : list item) : outcome (list item) :=
  match licious_data with
  | [] => Ok unmatched_products
  | product :: rest =>
      title ← getitem product "title";
      unmatched_loop rest matched_products
        (if decide (title ∈ matched_products) then unmatched_products
         else unmatched_products ++ [product])
  end.

Definition get_unmatched_products (weighted_matches : matches_data)
    (licious_data : list item) (confidence_threshold : float) : outcome (list item) :=
  matched_products ← matched_loop weighted_matches.*2 confidence_threshold ∅;
  unmatched_loop licious_data matched_products [].

End Dashboards.

(** The product a dashboard lists for an item of the report. *)
Definition listed (p : string * report_entry) : string * japfa_product :=
  (p.1, re_japfa_product p.2).

(** The four counts of a distribution, added up. *)
Definition distribution_sum (distribution : gmap nat nat) : nat :=
  default 0 (distribution !! 0) + default 0 (distribution !! 1) +
  default 0 (distribution !! 2) + default 0 (distribution !! 3).

Definition not_percent (c : ascii) : bool := bool_decide (c ≠ "%"%char).

(** The distribution has its four keys. *)
Definition has_counts (distribution : gmap nat nat) : Prop :=
  is_Some (distribution !! 0) ∧ is_Some (distribution !! 1) ∧
  is_Some (distribution !! 2) ∧ is_Some (distribution !! 3).

(** ** A [float] and reports to run the dashboards on *)

(** [float] on the few strings the reports below hold; every other string
    is refused. *)
Definition float_of_confidence (s : string) : option float :=
  if decide (s = "nan") then Some nan
  else if decide (s = "inf") then Some infinity
  else if decide (s = "100.00") then Some 100%float
  else if decide (s = "91.20") then Some 91.2%float
  else if decide (s = "64.05") then Some 64.05%float
  else if decide (s = "55.00") then Some 55%float
  else None.

Definition entry_of (title : string) (confidences : list (string * string))
    : report_entry :=
  {| re_japfa_product := {| jp_title := title; jp_category_name := "Chicken";
                            jp_type := "chicken" |};
     re_matches := (λ c, {| me_licious_id := "L"; me_title := c.1; me_type := "chicken";
                            me_category_name := "Chicken"; me_confidence := c.2 |})
                   <$> confidences |}.

Definition sample_report : matches_data :=
  [("J1", entry_of "Chicken Breast Boneless"
            [("Boneless Chicken Breast", "91.20%"); ("Chicken Drumstick", "64.05%")]);
   ("J2", entry_of "Chicken Wings" [("Chicken Drumstick", "55.00%")])].

(** ** Zero embeddings *)

(** A float that is a zero of either sign or [nan]. *)
Definition zero_or_nan (x : float) : Prop :=
  (∃ s, Prim2SF x = S754_zero s) ∨ Prim2SF x = S754_nan.

(** ** The embedding of an item *)

(** The embedding [match_products] makes of an item, by match type, when
    the provider answers a text with [embed] of it. *)
Definition item_embedding (STOP_WORDS : gset string) (embed : string → list float)
    (match_type : string) (it : item) : list float :=
  let embedding text := embed (submitted_text STOP_WORDS text) in
  if decide (match_type = "title") then embedding (field it "title")
  else if decide (match_type = "description") then embedding (field it "description")
  else if decide (match_type = "weighted") then
    let weighted_embedding :=
      weighted_sum default_title_weight default_type_weight default_description_weight
        (embedding (field it "title")) (embedding (field it "type"))
        (embedding (field it "description")) in
    np_div_scalar weighted_embedding (np_norm weighted_embedding)
  else embedding (field it "title" +:+ " " +:+ field it "description").

(** The match is the target [tj] with the confidence of the score [s]. *)
Definition match_of (m : match_entry) (tj : item) (s : float) : Prop :=
  me_licious_id m = field tj "licious_id" ∧ me_title m = field tj "title" ∧
  me_type m = field tj "type" ∧ me_category_name m = field tj "category_name" ∧
  me_confidence m = format_confidence s.

(** ** Details of a rate limit *)

(** A detail that is a dict of another type than the retry information. *)
Definition plain_detail (v : json) : Prop :=
  ∃ d, v = JDict d ∧ eq_str (default JNull (assoc "@type" d)) RETRY_INFO = false.

(** A detail that is the retry information, with a delay [int] reads as [n]
    once the letters [s] and the surrounding whitespace are taken off. *)
Definition retry_detail (py_int : string → option Z) (v : json) (n : Z) : Prop :=
  ∃ d delay, v = JDict d ∧ assoc "@type" d = Some (JStr RETRY_INFO) ∧
             assoc "retryDelay" d = Some (JStr delay) ∧
             py_int (strip (remove_s delay)) = Some n.

(** A detail the loop reads without an exception. *)
Definition readable_detail (py_int : string → option Z) (v : json) : Prop :=
  plain_detail v ∨ ∃ n, retry_detail py_int v n.
(** * Facts about binary64 *)

Lemma SFcompare_refl x : x ≠ S754_nan → SFcompare x x = Some Eq.
Proof.
  destruct x as [[]|[]| |[] m e]; simpl; try congruence; intros _;
    rewrite Z.compare_refl, Pos.compare_cont_refl; reflexivity.
Qed.

Lemma is_nan_spec a : is_nan a = true ↔ Prim2SF a = S754_nan.
Proof.
  unfold is_nan. rewrite FloatAxioms.eqb_spec. unfold SFeqb.
  destruct (Prim2SF a) eqn:E.
  1,2,4: rewrite SFcompare_refl by congruence; simpl; split; congruence.
  simpl. tauto.
Qed.

Lemma is_nan_false a : is_nan a = false ↔ Prim2SF a ≠ S754_nan.
Proof.
  rewrite <- is_nan_spec. destruct (is_nan a); split; congruence.
Qed.

Lemma SFltb_key x y : x ≠ S754_nan → y ≠ S754_nan →
  SFltb x y = true ↔ key_lt (sf_key x) (sf_key y).
Proof.
  intros Hx Hy. unfold SFltb, key_lt.
  destruct x as [[]|[]| |[] m e], y as [[]|[]| |[] m' e']; simpl; try congruence;
    try (split; [congruence | lia]); try (split; [lia | congruence]);
    try (split; [intros _; lia | reflexivity]).
  - destruct (Z.compare_spec e e'); simpl.
    + rewrite Pos.compare_cont_spec. simpl.
      destruct (Pos.compare_spec m m'); simpl; split; try congruence; try lia; intros _; lia.
    + split; [congruence | lia].
    + split; [intros _; lia | reflexivity].
  - destruct (Z.compare_spec e e'); simpl.
    + rewrite Pos.compare_cont_spec. simpl.
      destruct (Pos.compare_spec m m'); simpl; split; try congruence; try lia; intros _; lia.
    + split; [intros _; lia | reflexivity].
    + split; [congruence | lia].
Qed.

Lemma sf_key_nan x : (sf_key x).1.1 = 3%Z ↔ x = S754_nan.
Proof. destruct x as [[]|[]| |[] m e]; simpl; split; congruence. Qed.

Lemma sf_key_bound x : ((sf_key x).1.1 ≤ 3)%Z.
Proof. destruct x as [[]|[]| |[] m e]; simpl; lia. Qed.

(** numpy's order is the order of the ranks. *)
Lemma np_lt_key a b : np_lt a b = true ↔ key_lt (fkey a) (fkey b).
Proof.
  unfold np_lt, fkey. rewrite ltb_spec.
  destruct (is_nan a) eqn:Ha, (is_nan b) eqn:Hb; simpl.
  - apply is_nan_spec in Ha, Hb. rewrite Ha, Hb. simpl.
    unfold key_lt; simpl. split; [congruence | lia].
  - apply is_nan_spec in Ha. apply is_nan_false in Hb. rewrite Ha, orb_false_r.
    pose proof (sf_key_bound (Prim2SF b)).
    assert ((sf_key (Prim2SF b)).1.1 ≠ 3%Z) by (rewrite sf_key_nan; exact Hb).
    unfold key_lt; simpl.
    split; [unfold SFltb; simpl; congruence | lia].
  - apply is_nan_spec in Hb. apply is_nan_false in Ha. rewrite Hb.
    rewrite orb_true_r. split; [intros _ | reflexivity].
    pose proof (sf_key_bound (Prim2SF a)).
    assert ((sf_key (Prim2SF a)).1.1 ≠ 3%Z) by (rewrite sf_key_nan; exact Ha).
    unfold key_lt; simpl. lia.
  - apply is_nan_false in Ha, Hb. rewrite orb_false_r. by apply SFltb_key.
Qed.

Lemma np_lt_false_key a b : np_lt a b = false ↔ ¬ key_lt (fkey a) (fkey b).
Proof. rewrite <- np_lt_key. destruct (np_lt a b); split; congruence. Qed.

Lemma np_lt_irrefl a : np_lt a a = false.
Proof. apply np_lt_false_key. unfold key_lt. lia. Qed.

Lemma np_lt_trans a b c : np_lt a b = true → np_lt b c = true → np_lt a c = true.
Proof. rewrite !np_lt_key. unfold key_lt. lia. Qed.

Lemma np_lt_asym a b : np_lt a b = true → np_lt b a = false.
Proof. rewrite np_lt_key, np_lt_false_key. unfold key_lt. lia. Qed.

Lemma np_lt_le_trans a b c : np_lt a b = true → np_lt c b = false → np_lt a c = true.
Proof. rewrite !np_lt_key, np_lt_false_key. unfold key_lt. lia. Qed.

Lemma np_le_lt_trans a b c : np_lt b a = false → np_lt b c = true → np_lt a c = true.
Proof. rewrite !np_lt_key, np_lt_false_key. unfold key_lt. lia. Qed.

Lemma np_le_trans a b c : np_lt b a = false → np_lt c b = false → np_lt c a = false.
Proof. rewrite !np_lt_false_key. unfold key_lt. lia. Qed.

(** Away from [nan], "sorts no later" is [<=] on floats. *)
Lemma np_le_leb a b : is_nan a = false → is_nan b = false → np_le a b = (a <=? b)%float.
Proof.
  intros Ha Hb. unfold np_le, np_lt. rewrite Ha, Hb. simpl. rewrite orb_false_r.
  rewrite ltb_spec, leb_spec. apply is_nan_false in Ha, Hb.
  unfold SFltb, SFleb.
  destruct (Prim2SF a) as [[]|[]| |[] m e], (Prim2SF b) as [[]|[]| |[] m' e'];
    simpl; try congruence;
    destruct (Z.compare_spec e e'), (Z.compare_spec e' e); try lia; simpl; try reflexivity;
    rewrite !Pos.compare_cont_spec; simpl;
    destruct (Pos.compare_spec m m'), (Pos.compare_spec m' m); try lia; reflexivity.
Qed.

(** * The order of [argsort] *)

Lemma insert_asc_perm x l : insert_asc x l ≡ₚ x :: l.
Proof.
  induction l as [|y l IH]; simpl; [done|].
  destruct (np_lt x.2 y.2); [done|].
  rewrite IH. apply Permutation_swap.
Qed.

Lemma insert_asc_sorted x l :
  StronglySorted pair_lt l → Forall (λ y, y.1 < x.1) l →
  StronglySorted pair_lt (insert_asc x l).
Proof.
  induction l as [|y l IH]; simpl; intros Hs Hi.
  - repeat constructor.
  - apply StronglySorted_inv in Hs as [Hs Hy].
    apply Forall_cons in Hi as [Hyx Hi].
    destruct (np_lt x.2 y.2) eqn:E.
    + constructor; [by constructor|].
      constructor; [by left|].
      eapply Forall_impl; [exact Hy|]. intros z [Hz|[Hz _]]; left.
      * by eapply np_lt_trans.
      * by eapply np_lt_le_trans.
    + constructor; [by apply IH|].
      rewrite insert_asc_perm. constructor; [|done]. by right.
Qed.

Lemma sort_asc_from acc l :
  StronglySorted pair_lt acc →
  StronglySorted (λ a b : nat * float, a.1 < b.1) l →
  Forall (λ a, Forall (λ b : nat * float, a.1 < b.1) l) acc →
  StronglySorted pair_lt (foldl (λ acc x, insert_asc x acc) acc l)
  ∧ foldl (λ acc x, insert_asc x acc) acc l ≡ₚ acc ++ l.
Proof.
  revert acc. induction l as [|x l IH]; simpl; intros acc Hacc Hl Hal.
  - by rewrite app_nil_r.
  - apply StronglySorted_inv in Hl as [Hl Hx].
    destruct (IH (insert_asc x acc)) as [H1 H2].
    + apply insert_asc_sorted; [done|].
      eapply Forall_impl; [exact Hal|]. intros a Ha. by apply Forall_cons in Ha as [? _].
    + done.
    + rewrite insert_asc_perm. constructor; [done|].
      eapply Forall_impl; [exact Hal|]. intros a Ha. by apply Forall_cons in Ha as [_ ?].
    + split; [done|]. rewrite H2, insert_asc_perm. simpl. apply Permutation_middle.
Qed.

Lemma imap_pair_increasing (v : list float) n :
  StronglySorted (λ a b : nat * float, a.1 < b.1) (imap (λ i x, (n + i, x)) v).
Proof.
  revert n. induction v as [|x v IH]; intros n; simpl; [constructor|].
  constructor.
  - specialize (IH (S n)). erewrite imap_ext; [exact IH|].
    intros i y _. simpl. f_equal. lia.
  - apply Forall_forall. intros [j y] [i [z [Heq _]]]%elem_of_lookup_imap.
    simpl in Heq. injection Heq as -> ->. simpl. lia.
Qed.

Lemma sort_asc_imap_sorted (v : list float) :
  StronglySorted pair_lt (sort_asc (imap (λ i x, (i, x)) v))
  ∧ sort_asc (imap (λ i x, (i, x)) v) ≡ₚ imap (λ i x, (i, x)) v.
Proof.
  unfold sort_asc. apply (sort_asc_from [] (imap (λ i x, (i, x)) v)).
  - constructor.
  - apply (imap_pair_increasing v 0).
  - constructor.
Qed.

(** * Sorted lists, slices and the top indices *)




Lemma slice_from_drop {A} start (l : list A) :
  ∃ n, slice_from start l = drop n l.
Proof. unfold slice_from. eauto. Qed.

Lemma slice_from_fmap {A B} (f : A → B) start (l : list A) :
  f <$> slice_from start l = slice_from start (f <$> l).
Proof. unfold slice_from. by rewrite fmap_drop, length_fmap. Qed.

Lemma top_indices_pairs similarities top_k :
  top_indices similarities top_k = (top_pairs similarities top_k).*1.
Proof.
  unfold top_indices, top_pairs, argsort. by rewrite fmap_reverse, slice_from_fmap.
Qed.


Lemma top_pairs_lookup similarities top_k i x :
  (i, x) ∈ top_pairs similarities top_k → similarities !! i = Some x.
Proof.
  unfold top_pairs. rewrite elem_of_reverse.
  destruct (slice_from_drop (- top_k) (sort_asc (imap (λ i x, (i, x)) similarities))) as [n ->].
  intros Hin. apply subseteq_drop in Hin.
  rewrite (proj2 (sort_asc_imap_sorted similarities)) in Hin.
  apply elem_of_lookup_imap in Hin as (j & y & Heq & Hj). by injection Heq as -> ->.
Qed.

Lemma length_sort_asc l : length (sort_asc l) = length l.
Proof.
  unfold sort_asc. change (length l) with (length ([] ++ l)).
  generalize (@nil (nat * float)). induction l as [|x l IH]; intros acc; simpl.
  - by rewrite app_nil_r.
  - rewrite IH, !length_app. simpl.
    rewrite (Permutation_length (insert_asc_perm x acc)). simpl. lia.
Qed.

Lemma length_argsort v : length (argsort v) = length v.
Proof. unfold argsort. by rewrite length_fmap, length_sort_asc, length_imap. Qed.

Lemma length_slice_from {A} start (l : list A) :
  length (slice_from start l) =
  if (start <? 0)%Z then Z.to_nat (- start) `min` length l
  else length l - Z.to_nat start.
Proof.
  unfold slice_from. rewrite length_drop.
  destruct (start <? 0)%Z eqn:E; [apply Z.ltb_lt in E | apply Z.ltb_ge in E]; lia.
Qed.

Lemma length_top_indices similarities top_k :
  length (top_indices similarities top_k) =
  if (0 <? top_k)%Z then Z.to_nat top_k `min` length similarities
  else length similarities - Z.to_nat (- top_k).
Proof.
  unfold top_indices. rewrite length_reverse, length_slice_from, length_argsort.
  destruct (0 <? top_k)%Z eqn:E; [apply Z.ltb_lt in E | apply Z.ltb_ge in E].
  - destruct (- top_k <? 0)%Z eqn:E'; [|apply Z.ltb_ge in E'; lia].
    by rewrite Z.opp_involutive.
  - destruct (- top_k <? 0)%Z eqn:E'; [apply Z.ltb_lt in E'; lia|done].
Qed.

(** ** [mapM_outcome] *)

Lemma mapM_outcome_Forall2 {A B} (f : A → outcome B) l ys :
  mapM_outcome f l = Ok ys ↔ Forall2 (λ x y, f x = Ok y) l ys.
Proof.
  revert ys. induction l as [|x l IH]; intros ys; simpl.
  - split; [intros [= <-]; constructor | by inversion 1].
  - unfold mbind, outcome_bind. destruct (f x) as [y|e] eqn:Hx.
    + destruct (mapM_outcome f l) as [ys'|e] eqn:Hl.
      * split.
        -- intros [= <-]. constructor; [done|]. by apply IH.
        -- inversion 1 as [|? y' ? ys'' Hy Hys]; subst.
           apply IH in Hys. congruence.
      * split; [done|]. inversion 1 as [|? y' ? ys'' Hy Hys]; subst.
        apply IH in Hys. congruence.
    + split; [done|]. inversion 1; congruence.
Qed.

Lemma mapM_outcome_total {A B} (f : A → outcome B) l :
  Forall (λ x, ∃ y, f x = Ok y) l → ∃ ys, mapM_outcome f l = Ok ys.
Proof.
  induction 1 as [|x l [y Hy] _ [ys Hys]]; simpl; [by eexists|].
  unfold mbind, outcome_bind. rewrite Hy, Hys. by eexists.
Qed.

(** * [get_top_matches] *)

Lemma cosine_similarity_Ok {F} `{Arith F} (v1 v2 : list F) :
  length v1 = length v2 →
  cosine_similarity v1 v2 =
    Ok (f_div (dot_sum v1 v2) (f_mul (np_norm v1) (np_norm v2))).
Proof.
  intros Hlen. unfold cosine_similarity, np_dot.
  by rewrite decide_True by done.
Qed.

Lemma similarities_total (source_embedding : list float) target_embeddings :
  Forall (λ t, length t = length source_embedding) target_embeddings →
  ∃ similarities,
    mapM_outcome (cosine_similarity source_embedding) target_embeddings = Ok similarities.
Proof.
  intros Hdim. apply mapM_outcome_total.
  eapply Forall_impl; [exact Hdim|]. intros t Ht. simpl.
  eexists. by apply cosine_similarity_Ok.
Qed.

(** What [get_top_matches] returns on well-formed vectors: one entry per top
    index, the item at that index with its similarity. *)
Lemma get_top_matches_run source_item target_items source_embedding target_embeddings top_k :
  length target_embeddings ≤ length target_items →
  Forall (λ t, length t = length source_embedding) target_embeddings →
  ∃ similarities res,
    Forall2 (λ t s, cosine_similarity source_embedding t = Ok s)
      target_embeddings similarities ∧
    get_top_matches source_item target_items source_embedding target_embeddings top_k
      = Ok res ∧
    Forall2 (λ p r, target_items !! p.1 = Some r.1 ∧
                    similarities !! p.1 = Some p.2 ∧ r.2 = p.2)
      (top_pairs similarities top_k) res.
Proof.
  intros Hlen Hdim.
  destruct (similarities_total _ _ Hdim) as [sims Hsims].
  pose proof Hsims as HF. apply mapM_outcome_Forall2 in HF.
  pose proof (Forall2_length _ _ _ HF) as Hl.
  set (f := λ idx : nat, t ← getidx target_items idx;
                          s ← getidx sims idx; Ok (t, s)).
  assert (Hf : ∀ p, p ∈ top_pairs sims top_k →
            ∃ t, target_items !! p.1 = Some t ∧ f p.1 = Ok (t, p.2)).
  { intros [i x] Hp. simpl. pose proof (top_pairs_lookup _ _ _ _ Hp) as Hx.
    destruct (lookup_lt_is_Some_2 target_items i) as [t Ht].
    { apply lookup_lt_Some in Hx. lia. }
    exists t. split; [done|]. unfold f, getidx, mbind, outcome_bind.
    by rewrite Ht, Hx. }
  destruct (mapM_outcome_total f (top_indices sims top_k)) as [res Hres].
  { rewrite top_indices_pairs. apply Forall_fmap, Forall_forall.
    intros p Hp. destruct (Hf p Hp) as (t & _ & Hft). by exists (t, p.2). }
  exists sims, res. split; [done|]. split.
  { unfold get_top_matches, mbind, outcome_bind. by rewrite Hsims. }
  apply mapM_outcome_Forall2 in Hres. rewrite top_indices_pairs in Hres.
  apply Forall2_fmap_l in Hres.
  apply Forall2_same_length_lookup. split; [by eapply Forall2_length|].
  intros n p r Hp Hr.
  pose proof (Forall2_lookup_lr _ _ _ _ _ _ Hres Hp Hr) as Hpr. simpl in Hpr.
  destruct (Hf p (list_elem_of_lookup_2 _ _ _ Hp)) as (t & Ht & Hft).
  rewrite Hft in Hpr. injection Hpr as <-. simpl.
  split; [done|]. split; [|done].
  destruct p as [i x]. eapply top_pairs_lookup, list_elem_of_lookup_2, Hp.
Qed.


(** For a positive [top_k]: the number of entries, and where they come
    from. *)
Lemma get_top_matches_positive_k source_item target_items source_embedding
    target_embeddings top_k :
  (1 ≤ top_k)%Z →
  length target_embeddings ≤ length target_items →
  Forall (λ t, length t = length source_embedding) target_embeddings →
  ∃ res,
    get_top_matches source_item target_items source_embedding target_embeddings top_k
      = Ok res ∧
    length res = Z.to_nat top_k `min` length target_embeddings ∧
    Forall (λ r, r.1 ∈ target_items) res.
Proof.
  intros Hk Hlen Hdim.
  destruct (get_top_matches_run source_item _ _ _ top_k Hlen Hdim)
    as (sims & res & Hsims & Hres & Hpairs).
  exists res. split; [done|]. split.
  - rewrite <- (Forall2_length _ _ _ Hpairs).
    rewrite <- (length_fmap fst), <- top_indices_pairs, length_top_indices.
    rewrite (Forall2_length _ _ _ Hsims).
    destruct (0 <? top_k)%Z eqn:E; [done|]. apply Z.ltb_ge in E. lia.
  - eapply Forall2_Forall_r; [exact Hpairs|]. apply Forall_forall.
    intros p _ r (Ht & _). by eapply list_elem_of_lookup_2.
Qed.

(** C3: for [top_k >= 1], on vectors of the source's dimension,
    [get_top_matches] returns exactly [min(top_k, len(target_embeddings))]
    entries and raises nothing; with no target vector it returns the empty
    list. *)
Theorem get_top_matches_length source_item target_items source_embedding
    target_embeddings top_k :
  (1 ≤ top_k)%Z →
  length target_embeddings ≤ length target_items →
  Forall (λ t, length t = length source_embedding) target_embeddings →
  ∃ res,
    get_top_matches source_item target_items source_embedding target_embeddings top_k
      = Ok res ∧
    length res = Z.to_nat top_k `min` length target_embeddings ∧
    (target_embeddings = [] → res = []).
Proof.
  intros Hk Hlen Hdim.
  destruct (get_top_matches_positive_k source_item _ _ _ top_k Hk Hlen Hdim)
    as (res & Hres & Hl & _).
  exists res. split; [done|]. split; [done|]. intros ->. simpl in Hl.
  destruct res; [done|]. simpl in Hl. lia.
Qed.



Lemma get_top_matches_length_witness :
  ∃ res,
    get_top_matches japfa_J1 [licious_L1; licious_L2] [1; 0]%float
      [[0; 1]; [1; 0]]%float 1 = Ok res ∧
    length res = Z.to_nat 1 `min` length [[0; 1]; [1; 0]]%float ∧
    ([[0; 1]; [1; 0]]%float = [] → res = []).
Proof.
  apply (get_top_matches_length japfa_J1 [licious_L1; licious_L2] [1; 0]%float
           [[0; 1]; [1; 0]]%float 1).
  - lia.
  - simpl. lia.
  - repeat constructor.
Defined.

(** * Zero norms in binary64 *)

Lemma Prim2SF_zero : Prim2SF 0%float = S754_zero false.
Proof. reflexivity. Qed.

Lemma is_zero_spec x : is_zero x = true ↔ ∃ s, Prim2SF x = S754_zero s.
Proof.
  unfold is_zero. rewrite FloatAxioms.eqb_spec.
  change (Prim2SF PrimFloat.zero) with (S754_zero false).
  unfold SFeqb. destruct (Prim2SF x) as [s|s| |s m e]; simpl.
  - split; eauto.
  - split; [destruct s; discriminate | intros [? ?]; discriminate].
  - split; [discriminate | intros [? ?]; discriminate].
  - split; [destruct s; discriminate | intros [? ?]; discriminate].
Qed.

Lemma mul_zero_l x y s :
  Prim2SF x = S754_zero s →
  (∃ s', Prim2SF (x * y)%float = S754_zero s') ∨ Prim2SF (x * y)%float = S754_nan.
Proof.
  intros Hx. rewrite mul_spec, Hx. unfold SF64mul.
  destruct (Prim2SF y) as [s'|s'| |s' m e]; simpl; eauto.
Qed.

Lemma mul_zero_r x y s :
  Prim2SF y = S754_zero s →
  (∃ s', Prim2SF (x * y)%float = S754_zero s') ∨ Prim2SF (x * y)%float = S754_nan.
Proof.
  intros Hy. rewrite mul_spec, Hy. unfold SF64mul.
  destruct (Prim2SF x) as [s'|s'| |s' m e]; simpl; eauto.
Qed.

Lemma div_zero_or_nan d z :
  (∃ s, Prim2SF z = S754_zero s) ∨ Prim2SF z = S754_nan →
  Prim2SF (d / z)%float = S754_nan ∨ ∃ s, Prim2SF (d / z)%float = S754_infinity s.
Proof.
  rewrite div_spec. unfold SF64div.
  intros [[s ->] | ->]; destruct (Prim2SF d) as [s'|s'| |s' m e]; simpl; eauto.
Qed.

Lemma not_finite_spec r :
  Prim2SF r = S754_nan ∨ (∃ s, Prim2SF r = S754_infinity s) →
  is_finite r = false ∧ (r =? 0)%float = false.
Proof.
  intros Hr. unfold is_finite, is_infinity.
  rewrite !FloatAxioms.eqb_spec, abs_spec.
  change (Prim2SF infinity) with (S754_infinity false).
  rewrite Prim2SF_zero.
  destruct Hr as [Hr | [s Hr]].
  - apply is_nan_spec in Hr as Hn. rewrite Hn, Hr. done.
  - rewrite Hr. simpl. rewrite orb_true_r. by destruct s.
Qed.

(** C4, as the code has it: on two vectors of the same length of which one
    has a computed L2 norm of zero, [cosine_similarity] raises nothing, and
    what it returns is [nan] or an infinity, never [0.0]: the quotient is
    taken with no guard on the divisor. *)
Theorem cosine_similarity_zero_norm (v1 v2 : list float) :
  length v1 = length v2 →
  is_zero (np_norm v1) = true ∨ is_zero (np_norm v2) = true →
  ∃ r, cosine_similarity v1 v2 = Ok r ∧
       is_finite r = false ∧ (r =? 0)%float = false.
Proof.
  intros Hlen Hz. rewrite (cosine_similarity_Ok v1 v2 Hlen).
  eexists. split; [reflexivity|].
  apply not_finite_spec. simpl. apply div_zero_or_nan.
  destruct Hz as [[s Hs]%is_zero_spec | [s Hs]%is_zero_spec].
  - by eapply mul_zero_l.
  - by eapply mul_zero_r.
Qed.

Lemma cosine_similarity_zero_norm_witness :
  ∃ r, cosine_similarity [1e-200; 0]%float [1e100; 1]%float = Ok r ∧
       is_finite r = false ∧ (r =? 0)%float = false.
Proof.
  apply (cosine_similarity_zero_norm [1e-200; 0]%float [1e100; 1]%float).
  - reflexivity.
  - left. vm_compute. reflexivity.
Defined.

(** C4 fails as stated: against a zero vector the similarity is [nan], which
    is not [0.0]. *)
Lemma cosine_similarity_zero_vector_nan :
  is_zero (np_norm [0; 0]%float) = true ∧
  cosine_similarity [0; 0]%float [1; 0]%float = Ok nan ∧
  (nan =? 0)%float = false.
Proof. vm_compute. done. Qed.

(** * The weighted combination *)

Lemma np_add_same_length {F} `{Arith F} (a b : list F) :
  length a = length b → np_add a b = Ok (zip_with f_add a b).
Proof. intros Hl. unfold np_add. by rewrite decide_True. Qed.

Lemma combine_weighted_Ok {F} `{Arith F} (tw yw dw : F) (te ye de : list F) :
  length te = length ye → length ye = length de →
  combine_weighted tw yw dw te ye de =
    Ok (np_div_scalar (weighted_sum tw yw dw te ye de)
          (np_norm (weighted_sum tw yw dw te ye de))).
Proof.
  intros H1 H2. unfold combine_weighted, weighted_sum, np_scale.
  rewrite np_add_same_length by (by rewrite !length_map).
  unfold mbind, outcome_bind.
  rewrite np_add_same_length; [done|].
  rewrite length_zip_with, !length_map. lia.
Qed.

(** ** Exact arithmetic *)





(** * The provider call *)

Section MatcherFacts.
Variable STOP_WORDS : gset string.
Variable provider : list event → string → provider_error + list float.

Lemma get_embedding_run text w :
  get_embedding STOP_WORDS provider text w =
    (match provider w (submitted_text STOP_WORDS text) with
     | inl e => Raise (ProviderError e)
     | inr v => Ok v
     end, w ++ [EmbedCall (submitted_text STOP_WORDS text)]).
Proof. reflexivity. Qed.

Lemma get_weighted_embedding_run title description product_type tw yw dw w a b c :
  let t1 := submitted_text STOP_WORDS title in
  let t2 := submitted_text STOP_WORDS product_type in
  let t3 := submitted_text STOP_WORDS description in
  provider w t1 = inr a →
  provider (w ++ [EmbedCall t1]) t2 = inr b →
  provider (w ++ [EmbedCall t1; EmbedCall t2]) t3 = inr c →
  length a = length b → length b = length c →
  get_weighted_embedding STOP_WORDS provider title description product_type tw yw dw w
    = (Ok (np_div_scalar (weighted_sum tw yw dw a b c)
             (np_norm (weighted_sum tw yw dw a b c))),
       w ++ [EmbedCall t1; EmbedCall t2; EmbedCall t3]).
Proof.
  intros t1 t2 t3 Ha Hb Hc Hab Hbc.
  unfold get_weighted_embedding, mbind, M_bind.
  rewrite !get_embedding_run. fold t1 t2 t3. rewrite Ha. rewrite Hb.
  rewrite <- app_assoc. simpl. rewrite Hc.
  unfold lift. rewrite (combine_weighted_Ok _ _ _ a b c Hab Hbc).
  by rewrite <- app_assoc.
Qed.

(** Whatever the weights and whatever the provider answers, the call for the
    title is issued. *)
Lemma get_weighted_embedding_first_call title description product_type tw yw dw w :
  ∃ rest,
    (get_weighted_embedding STOP_WORDS provider title description product_type
       tw yw dw w).2
    = w ++ EmbedCall (submitted_text STOP_WORDS title) :: rest.
Proof.
  unfold get_weighted_embedding, mbind, M_bind.
  rewrite !get_embedding_run.
  destruct (provider w _) as [e|a]; [by exists []|].
  destruct (provider (w ++ _) _) as [e|b]; simpl.
  { eexists. by rewrite <- app_assoc. }
  destruct (provider ((w ++ _) ++ _) _) as [e|c]; simpl.
  { eexists. by rewrite <- !app_assoc. }
  unfold lift. eexists. by rewrite <- !app_assoc.
Qed.


End MatcherFacts.



(** * Text preprocessing *)

Lemma sub_lower_class c :
  is_lower (sub_char (lower_char c)) = true ∨ is_space (sub_char (lower_char c)) = true.
Proof. destruct c as [[] [] [] [] [] [] [] []]; vm_compute; auto. Qed.

Lemma is_lower_fixed c :
  is_lower c = true → lower_char c = c ∧ sub_char c = c ∧ is_space c = false.
Proof. destruct c as [[] [] [] [] [] [] [] []]; vm_compute; intros; try done. Qed.

Lemma append_cons c (s1 s2 : string) : String c s1 +:+ s2 = String c (s1 +:+ s2).
Proof. reflexivity. Qed.

Lemma append_empty_l (s : string) : "" +:+ s = s.
Proof. reflexivity. Qed.

Lemma string_forall_app P s1 s2 :
  string_forall P (s1 +:+ s2) = string_forall P s1 && string_forall P s2.
Proof.
  induction s1 as [|c s1 IH]; [done|].
  rewrite append_cons. simpl. by rewrite IH, andb_assoc.
Qed.

Lemma string_map_fixed f s :
  string_forall (λ c, bool_decide (f c = c)) s = true → string_map f s = s.
Proof.
  induction s as [|c s IH]; simpl; [done|].
  intros [Hc Hs]%andb_true_iff. apply bool_decide_eq_true in Hc. by rewrite Hc, IH.
Qed.

Lemma string_forall_impl (P Q : ascii → bool) s :
  (∀ c, P c = true → Q c = true) →
  string_forall P s = true → string_forall Q s = true.
Proof.
  intros HPQ. induction s as [|c s IH]; simpl; [done|].
  intros [Hc Hs]%andb_true_iff. by rewrite HPQ, IH.
Qed.

(** ** [split] *)

Lemma push_word_clean w ws :
  string_forall is_lower w = true → Forall clean_word ws →
  Forall clean_word (push_word w ws).
Proof.
  intros Hw Hws. unfold push_word. destruct (decide (w = "")); [done|].
  by constructor.
Qed.

Lemma split_acc_clean s :
  string_forall (λ c, is_lower c || is_space c) s = true →
  string_forall is_lower (split_acc s).1 = true ∧ Forall clean_word (split_acc s).2.
Proof.
  induction s as [|c s IH]; simpl; [by split|].
  intros [Hc Hs]%andb_true_iff. destruct (IH Hs) as [Hw Hws].
  destruct (split_acc s) as [w ws]. simpl in *.
  destruct (is_space c) eqn:Hsp; simpl.
  - split; [done|]. by apply push_word_clean.
  - rewrite orb_false_r in Hc. by rewrite Hc.
Qed.

Lemma split_clean s :
  string_forall (λ c, is_lower c || is_space c) s = true →
  Forall clean_word (split s).
Proof.
  intros Hs. destruct (split_acc_clean s Hs) as [Hw Hws].
  unfold split. destruct (split_acc s) as [w ws]. by apply push_word_clean.
Qed.

Lemma split_acc_word w s :
  string_forall is_lower w = true →
  split_acc (w +:+ s) = ((w +:+ (split_acc s).1), (split_acc s).2).
Proof.
  induction w as [|c w IH].
  - intros _. rewrite !append_empty_l. by destruct (split_acc s).
  - simpl. intros [Hc Hw]%andb_true_iff. rewrite !append_cons. simpl.
    rewrite (IH Hw). destruct (is_lower_fixed c Hc) as (_ & _ & ->). done.
Qed.

Lemma append_empty_r (s : string) : s +:+ "" = s.
Proof. induction s as [|c s IH]; [done|]. by rewrite append_cons, IH. Qed.

Lemma split_acc_space s : split_acc (" " +:+ s) = ("", split s).
Proof.
  change (" " +:+ s) with (String " " s). simpl. unfold split.
  by destruct (split_acc s).
Qed.

Lemma join_cons w w' ws :
  join " " (w :: w' :: ws) = w +:+ " " +:+ join " " (w' :: ws).
Proof. reflexivity. Qed.

Lemma split_join ws : Forall clean_word ws → split (join " " ws) = ws.
Proof.
  induction 1 as [|w ws [Hne Hw] Hws IH]; [done|].
  destruct ws as [|w' ws].
  - change (join " " [w]) with w.
    unfold split. rewrite <- (append_empty_r w) at 1. rewrite split_acc_word by done.
    simpl. rewrite append_empty_r. unfold push_word. by rewrite decide_False.
  - rewrite join_cons. unfold split at 1. rewrite split_acc_word by done.
    rewrite split_acc_space, IH. simpl. rewrite append_empty_r.
    unfold push_word. by rewrite decide_False.
Qed.

Lemma join_class ws :
  Forall clean_word ws →
  string_forall (λ c, is_lower c || bool_decide (c = " "%char)) (join " " ws) = true.
Proof.
  induction 1 as [|w ws [Hne Hw] Hws IH]; [done|].
  destruct ws as [|w' ws].
  - change (join " " [w]) with w.
    eapply string_forall_impl; [|exact Hw]. intros c ->. done.
  - rewrite join_cons, string_forall_app. apply andb_true_iff. split.
    + eapply string_forall_impl; [|exact Hw]. intros c ->. done.
    + change (" " +:+ join " " (w' :: ws)) with (String " " (join " " (w' :: ws))).
      simpl. exact IH.
Qed.

(** ** Idempotence *)

Lemma filter_fixed {A} (P : A → Prop) `{∀ x, Decision (P x)} (l : list A) :
  Forall P l → filter P l = l.
Proof.
  induction 1 as [|x l Hx Hl IH]; [done|].
  rewrite filter_cons, decide_True by done. by rewrite IH.
Qed.

Lemma Forall_filter_sub {A} (P Q : A → Prop) `{∀ x, Decision (P x)} (l : list A) :
  Forall Q l → Forall Q (filter P l).
Proof.
  induction 1 as [|x l Hx Hl IH]; [constructor|].
  rewrite filter_cons. destruct (decide (P x)); [by constructor|done].
Qed.

Lemma Forall_filter_holds {A} (P : A → Prop) `{∀ x, Decision (P x)} (l : list A) :
  Forall P (filter P l).
Proof.
  induction l as [|x l IH]; [constructor|].
  rewrite filter_cons. destruct (decide (P x)); [by constructor|done].
Qed.

Lemma sub_lower_string_class text :
  string_forall (λ c, is_lower c || is_space c) (sub_non_alpha (lower text)) = true.
Proof.
  unfold sub_non_alpha, lower.
  induction text as [|c s IH]; simpl; [done|].
  rewrite IH, andb_true_r. destruct (sub_lower_class c) as [-> | ->]; [done|].
  apply orb_true_r.
Qed.

Section Preprocess.
Variable STOP_WORDS : gset string.

Lemma preprocess_words text :
  ∃ ws, preprocess_text STOP_WORDS text = join " " ws ∧
        Forall clean_word ws ∧
        Forall (λ word, word ∉ ALL_STOP_WORDS STOP_WORDS) ws.
Proof.
  eexists. split; [reflexivity|]. split.
  - apply Forall_filter_sub, split_clean, sub_lower_string_class.
  - apply Forall_filter_holds.
Qed.

(** C5: [preprocess_text] is idempotent, for every input and every stop
    word list. *)
Theorem preprocess_text_idempotent text :
  preprocess_text STOP_WORDS (preprocess_text STOP_WORDS text)
  = preprocess_text STOP_WORDS text.
Proof.
  destruct (preprocess_words text) as (ws & -> & Hclean & Hstop).
  unfold preprocess_text.
  pose proof (join_class ws Hclean) as Hclass.
  assert (Hl : lower (join " " ws) = join " " ws).
  { apply string_map_fixed. eapply string_forall_impl; [|exact Hclass].
    intros c [Hc | Hc]%orb_true_iff; apply bool_decide_eq_true.
    - by destruct (is_lower_fixed c Hc) as (? & _).
    - apply bool_decide_eq_true in Hc as ->. done. }
  rewrite Hl.
  assert (Hs : sub_non_alpha (join " " ws) = join " " ws).
  { apply string_map_fixed. eapply string_forall_impl; [|exact Hclass].
    intros c [Hc | Hc]%orb_true_iff; apply bool_decide_eq_true.
    - by destruct (is_lower_fixed c Hc) as (_ & ? & _).
    - apply bool_decide_eq_true in Hc as ->. done. }
  rewrite Hs, split_join by done. by rewrite filter_fixed.
Qed.

End Preprocess.

(** * [get_embedding] *)

Section EmbeddingFacts.
Variable STOP_WORDS : gset string.
Variable provider : list event → string → provider_error + list float.

Lemma submitted_text_nonempty text :
  text ≠ "" → submitted_text STOP_WORDS text ≠ "".
Proof.
  intros Ht. unfold submitted_text. case_bool_decide as Hs; [done|].
  intros Hc. apply Hs. by rewrite Hc.
Qed.

Lemma submitted_text_fallback text :
  preprocess_text STOP_WORDS text = "" → submitted_text STOP_WORDS text = text.
Proof. intros Hc. unfold submitted_text. by rewrite Hc. Qed.

(** C6: for a non-empty text, the string [get_embedding] submits to the
    provider is non-empty, and it is the original text when preprocessing
    leaves nothing. *)
Theorem get_embedding_input_nonempty text w :
  text ≠ "" →
  ∃ input,
    (get_embedding STOP_WORDS provider text w).2 = w ++ [EmbedCall input] ∧
    input ≠ "" ∧
    (preprocess_text STOP_WORDS text = "" → input = text).
Proof.
  intros Ht. exists (submitted_text STOP_WORDS text).
  rewrite get_embedding_run. simpl.
  split; [done|]. split.
  - by apply submitted_text_nonempty.
  - apply submitted_text_fallback.
Qed.


End EmbeddingFacts.


Lemma get_embedding_input_nonempty_witness :
  ∃ input,
    (get_embedding ∅ constant_provider "100% fresh" []).2 = [] ++ [EmbedCall input] ∧
    input ≠ "" ∧
    (preprocess_text ∅ "100% fresh" = "" → input = "100% fresh").
Proof.
  apply (get_embedding_input_nonempty ∅ constant_provider "100% fresh" []).
  discriminate.
Defined.


(** * Configuration *)

Lemma get_top_matches_nonpositive_k source_item target_items source_embedding
    target_embeddings top_k :
  (top_k ≤ 0)%Z →
  length target_embeddings ≤ length target_items →
  Forall (λ t, length t = length source_embedding) target_embeddings →
  ∃ res,
    get_top_matches source_item target_items source_embedding target_embeddings top_k
      = Ok res ∧
    length res = length target_embeddings - Z.to_nat (- top_k).
Proof.
  intros Hk Hlen Hdim.
  destruct (get_top_matches_run source_item _ _ _ top_k Hlen Hdim)
    as (sims & res & Hsims & Hres & Hpairs).
  exists res. split; [done|].
  rewrite <- (Forall2_length _ _ _ Hpairs).
  rewrite <- (length_fmap fst), <- top_indices_pairs, length_top_indices.
  rewrite (Forall2_length _ _ _ Hsims).
  destruct (0 <? top_k)%Z eqn:E; [apply Z.ltb_lt in E; lia|done].
Qed.

(** C10, as the code has it: neither function checks its configuration.
    Whatever the weights, [get_weighted_embedding] issues the provider call
    for the title first, and when the three calls answer it returns the
    combination made with the weights it was given; with [top_k <= 0],
    [get_top_matches] raises nothing and slices with [-top_k], returning
    every entry for [top_k = 0] and all but the [|top_k|] lowest ones for
    [top_k < 0]. *)
Theorem configuration_not_checked (STOP_WORDS : gset string)
    (provider : list event → string → provider_error + list float) :
  (∀ title description product_type tw yw dw w,
     ∃ rest,
       (get_weighted_embedding STOP_WORDS provider title description product_type
          tw yw dw w).2
       = w ++ EmbedCall (submitted_text STOP_WORDS title) :: rest)
  ∧ (∀ title description product_type tw yw dw w a b c,
       let t1 := submitted_text STOP_WORDS title in
       let t2 := submitted_text STOP_WORDS product_type in
       let t3 := submitted_text STOP_WORDS description in
       provider w t1 = inr a →
       provider (w ++ [EmbedCall t1]) t2 = inr b →
       provider (w ++ [EmbedCall t1; EmbedCall t2]) t3 = inr c →
       length a = length b → length b = length c →
       get_weighted_embedding STOP_WORDS provider title description product_type
         tw yw dw w
       = (Ok (np_div_scalar (weighted_sum tw yw dw a b c)
                (np_norm (weighted_sum tw yw dw a b c))),
          w ++ [EmbedCall t1; EmbedCall t2; EmbedCall t3]))
  ∧ (∀ source_item target_items source_embedding target_embeddings top_k,
       (top_k ≤ 0)%Z →
       length target_embeddings ≤ length target_items →
       Forall (λ t, length t = length source_embedding) target_embeddings →
       ∃ res,
         get_top_matches source_item target_items source_embedding
           target_embeddings top_k = Ok res ∧
         length res = length target_embeddings - Z.to_nat (- top_k)).
Proof.
  split; [|split].
  - intros. apply get_weighted_embedding_first_call.
  - intros. by apply get_weighted_embedding_run.
  - intros. by apply get_top_matches_nonpositive_k.
Qed.

Lemma configuration_not_checked_witness :
  ∃ res,
    get_top_matches japfa_J1 [licious_L1; licious_L2] [1; 0]%float
      [[0; 1]; [1; 0]]%float (-1) = Ok res ∧
    length res = length [[0; 1]; [1; 0]]%float - Z.to_nat (- -1).
Proof.
  apply (proj2 (proj2 (configuration_not_checked ∅ constant_provider))
           japfa_J1 [licious_L1; licious_L2] [1; 0]%float [[0; 1]; [1; 0]]%float (-1)%Z).
  - lia.
  - simpl. lia.
  - repeat constructor.
Defined.

(** C10 fails as stated: weights [1, 1, 1], which sum to 3, are used after
    the three provider calls were issued, and [top_k = 0] and [top_k = -1]
    return two entries and one entry. *)
Lemma invalid_configuration_is_used :
  get_weighted_embedding ∅ constant_provider "Chicken Breast" "Boneless meat" "chicken"
      1%float 1%float 1%float []
    = (Ok [1%float; 0%float],
       [EmbedCall "chicken breast"; EmbedCall "chicken"; EmbedCall "boneless meat"])
  ∧ get_top_matches japfa_J1 [licious_L1; licious_L2] [1; 0]%float
      [[0; 1]; [1; 0]]%float 0
    = Ok [(licious_L2, 1%float); (licious_L1, 0%float)]
  ∧ get_top_matches japfa_J1 [licious_L1; licious_L2] [1; 0]%float
      [[0; 1]; [1; 0]]%float (-1)
    = Ok [(licious_L2, 1%float)].
Proof. vm_compute. done. Qed.

(** * The confidence string *)

Lemma is_digit_digit_char d : (d < 10)%N → is_digit (digit_char d) = true.
Proof.
  intros Hd. assert (d ∈ [0;1;2;3;4;5;6;7;8;9]%N) as Hin.
  { destruct d as [|p]; [set_solver|].
    do 10 (destruct p as [p|p|]; try lia; try set_solver). }
  repeat (apply elem_of_cons in Hin as [-> | Hin]; [reflexivity|]).
  by apply elem_of_nil in Hin.
Qed.

Lemma string_of_uint_digits d :
  string_forall is_digit (NilEmpty.string_of_uint d) = true.
Proof. induction d; simpl; auto. Qed.

Lemma decimal_digits n :
  string_forall is_digit (decimal n) = true ∧ decimal n ≠ "".
Proof.
  unfold decimal, NilZero.string_of_uint.
  destruct (N.to_uint n) eqn:E; try done;
    (split; [apply (string_of_uint_digits _)|done]).
Qed.

Lemma span_digits_app ds rest :
  string_forall is_digit ds = true →
  (∀ c r, rest = String c r → is_digit c = false) →
  span_digits (ds +:+ rest) = (ds, rest).
Proof.
  intros Hds Hrest. induction ds as [|c ds IH].
  - rewrite append_empty_l. destruct rest as [|c r]; [done|].
    simpl. by rewrite (Hrest c r).
  - simpl in Hds. apply andb_true_iff in Hds as [Hc Hds].
    rewrite append_cons. simpl. by rewrite Hc, IH.
Qed.

Lemma append_assoc (s1 s2 s3 : string) : (s1 +:+ s2) +:+ s3 = s1 +:+ (s2 +:+ s3).
Proof. induction s1 as [|c s1 IH]; [done|]. by rewrite !append_cons, IH. Qed.

Lemma matches_negative rest :
  matches_confidence_pattern ("-" +:+ rest) = false.
Proof. reflexivity. Qed.

Lemma matches_two_decimals whole d1 d2 :
  string_forall is_digit whole = true → whole ≠ "" →
  is_digit d1 = true → is_digit d2 = true →
  matches_confidence_pattern
    ((whole +:+ "." +:+ String d1 (String d2 "")) +:+ "%") = true.
Proof.
  intros Hw Hne H1 H2. unfold matches_confidence_pattern.
  rewrite append_assoc.
  change (("." +:+ String d1 (String d2 "")) +:+ "%")
    with (String "." (String d1 (String d2 "%"))).
  rewrite span_digits_app; [|done|by intros c r [= <- _]].
  rewrite bool_decide_eq_false_2 by done. simpl. rewrite H1, H2. simpl.
  destruct d2 as [[] [] [] [] [] [] [] []]; try discriminate; reflexivity.
Qed.

Lemma format_confidence_pattern score :
  matches_confidence_pattern (format_confidence score)
  = nonneg_finite (score * 100)%float.
Proof.
  unfold format_confidence, format_2f, nonneg_finite.
  destruct (Prim2SF (score * 100)%float) as [[]|[]| |[] m e]; try reflexivity.
  change (sign_prefix false) with "". rewrite append_empty_l.
  apply matches_two_decimals.
  - apply decimal_digits.
  - apply decimal_digits.
  - apply is_digit_digit_char. apply N.Div0.div_lt_upper_bound.
    apply (N.mod_upper_bound _ 100). done.
  - apply is_digit_digit_char. by apply N.mod_upper_bound.
Qed.

(** C8, as the code has it: the confidence written for a match is
    [f"{score*100:.2f}%"], and it matches [\d+(\.\d+)?%] exactly when the
    percent value [score*100] is finite with a clear sign bit, that is for
    [+0.0] and the positive scores; a negative score, [-0.0], [nan] and the
    infinities give a string that does not match. *)
Theorem confidence_format (m : item * float) entry :
  match_entry_of m = Ok entry →
  me_confidence entry = format_2f (m.2 * 100)%float +:+ "%" ∧
  matches_confidence_pattern (me_confidence entry) = nonneg_finite (m.2 * 100)%float.
Proof.
  unfold match_entry_of, mbind, outcome_bind. intros Hm.
  destruct (getitem m.1 "licious_id"); [|done].
  destruct (getitem m.1 "title"); [|done].
  destruct (getitem m.1 "type"); [|done].
  destruct (getitem m.1 "category_name"); [|done].
  injection Hm as <-. simpl. split; [done|]. apply format_confidence_pattern.
Qed.

Lemma confidence_format_witness :
  me_confidence
    {| me_licious_id := "L1"; me_title := "Boneless Chicken Breast";
       me_type := "chicken"; me_category_name := "Chicken";
       me_confidence := "98.77%" |} = format_2f (0.98765 * 100)%float +:+ "%" ∧
  matches_confidence_pattern "98.77%" = nonneg_finite (0.98765 * 100)%float.
Proof.
  apply (confidence_format (licious_L1, 0.98765%float)).
  vm_compute. reflexivity.
Defined.

(** C8 fails as stated: the score [-0.5], which lies in [[-1, 1]], is
    written as ["-50.00%"], and the minus sign breaks the pattern. *)
Lemma negative_confidence_breaks_pattern :
  (-1 <=? -0.5)%float = true ∧ (-0.5 <=? 1)%float = true ∧
  match_entry_of (licious_L1, (-0.5)%float)
  = Ok {| me_licious_id := "L1"; me_title := "Boneless Chicken Breast";
          me_type := "chicken"; me_category_name := "Chicken";
          me_confidence := "-50.00%" |} ∧
  matches_confidence_pattern "-50.00%" = false.
Proof. vm_compute. done. Qed.

(** * [match_products] *)

Lemma bind_run {A B} (m : M A) (f : A → M B) w :
  (m ≫= f) w = match m w with
               | (Ok a, w') => f a w'
               | (Raise e, w') => (Raise e, w')
               end.
Proof. reflexivity. Qed.

Lemma ret_run {A} (a : A) w : (mret a : M A) w = (Ok a, w).
Proof. reflexivity. Qed.

Lemma getitem_None (it : item) k : it !! k = None → getitem it k = Raise (KeyError k).
Proof. intros Hk. unfold getitem. by rewrite Hk. Qed.

Lemma getitem_Some (it : item) k v : it !! k = Some v → getitem it k = Ok v.
Proof. intros Hk. unfold getitem. by rewrite Hk. Qed.

Lemma has_fields_lookup keys (it : item) k :
  has_fields keys it → k ∈ keys → ∃ v, it !! k = Some v.
Proof. intros Hf Hk. unfold has_fields in Hf. rewrite Forall_forall in Hf. by apply Hf. Qed.

(** ** A missing title *)

Section MatchProducts.
Variable STOP_WORDS : gset string.
Variable provider : list event → string → provider_error + list float.


Lemma mapM_M_raises {A B} (f : A → M B) l x w :
  x ∈ l → (∀ w, ∃ e w', f x w = (Raise e, w')) →
  ∃ e w', mapM_M f l w = (Raise e, w').
Proof.
  intros Hx Hf. revert w. induction l as [|y l IH]; intros w; [by apply elem_of_nil in Hx|].
  simpl. rewrite bind_run.
  apply elem_of_cons in Hx as [<- | Hx].
  - destruct (Hf w) as (e & w' & ->). eauto.
  - destruct (f y w) as [[b|e] w1]; [|eauto].
    rewrite bind_run. destruct (IH Hx w1) as (e & w' & ->). eauto.
Qed.





(** ** A well-formed batch *)

Lemma get_embedding_ok d text w :
  provider_total provider d →
  ∃ v, get_embedding STOP_WORDS provider text w
         = (Ok v, w ++ [EmbedCall (submitted_text STOP_WORDS text)]) ∧
       length v = d.
Proof.
  intros Hp. rewrite get_embedding_run.
  destruct (Hp w (submitted_text STOP_WORDS text)) as (v & -> & Hv). eauto.
Qed.

Lemma length_weighted_sum {F} `{Arith F} (tw yw dw : F) (a b c : list F) :
  length a = length b → length b = length c →
  length (weighted_sum tw yw dw a b c) = length a.
Proof.
  intros Hab Hbc. unfold weighted_sum, np_scale.
  rewrite !length_zip_with, !length_map. lia.
Qed.




Lemma match_entry_of_ok (m : item * float) :
  has_fields target_fields m.1 → ∃ entry, match_entry_of m = Ok entry.
Proof.
  intros Hf.
  destruct (has_fields_lookup _ m.1 "licious_id" Hf) as [i Hi]; [set_solver|].
  destruct (has_fields_lookup _ m.1 "title" Hf) as [t Ht]; [set_solver|].
  destruct (has_fields_lookup _ m.1 "type" Hf) as [ty Hty]; [set_solver|].
  destruct (has_fields_lookup _ m.1 "category_name" Hf) as [c Hc]; [set_solver|].
  unfold match_entry_of, mbind, outcome_bind.
  rewrite (getitem_Some _ _ _ Hi), (getitem_Some _ _ _ Ht),
    (getitem_Some _ _ _ Hty), (getitem_Some _ _ _ Hc). eauto.
Qed.

Lemma report_entry_of_ok (it : item) emb target_items target_embeddings :
  has_fields source_fields it →
  Forall (has_fields target_fields) target_items →
  length target_embeddings = length target_items →
  Forall (λ t, length t = length emb) target_embeddings →
  ∃ id entry,
    it !! "japfa_id" = Some id ∧
    report_entry_of it emb target_items target_embeddings = Ok (id, entry) ∧
    length (re_matches entry) = 3 `min` length target_items.
Proof.
  intros Hf Htf Hlen Hdim.
  destruct (has_fields_lookup _ it "japfa_id" Hf) as [i Hi]; [set_solver|].
  destruct (has_fields_lookup _ it "title" Hf) as [t Ht]; [set_solver|].
  destruct (has_fields_lookup _ it "type" Hf) as [ty Hty]; [set_solver|].
  destruct (has_fields_lookup _ it "category_name" Hf) as [c Hc]; [set_solver|].
  destruct (get_top_matches_positive_k it target_items emb target_embeddings
              default_top_k) as (res & Hres & Hl & Hin); [done|lia|done|].
  destruct (mapM_outcome_total match_entry_of res) as [ms Hms].
  { eapply Forall_impl; [exact Hin|]. intros r Hr. apply match_entry_of_ok.
    rewrite Forall_forall in Htf. by apply Htf. }
  exists i. eexists. split; [done|].
  unfold report_entry_of, mbind, outcome_bind.
  rewrite (getitem_Some _ _ _ Hi), Hres, (getitem_Some _ _ _ Ht),
    (getitem_Some _ _ _ Hc), (getitem_Some _ _ _ Hty), Hms.
  split; [reflexivity|]. simpl.
  apply mapM_outcome_Forall2, Forall2_length in Hms. rewrite <- Hms, Hl, Hlen. done.
Qed.


Lemma has_fields_sub keys keys' (it : item) :
  keys' ⊆ keys → has_fields keys it → has_fields keys' it.
Proof.
  unfold has_fields. rewrite !Forall_forall. intros Hsub Hf k Hk. by apply Hf, Hsub.
Qed.

Lemma embedded_fields_source : ["title"; "description"; "type"] ⊆ source_fields.
Proof.
  intros k Hk. unfold source_fields. rewrite !elem_of_cons in Hk. rewrite !elem_of_cons.
  destruct Hk as [-> | [-> | [-> | Hk]]]; [auto 10..|by apply elem_of_nil in Hk].
Qed.

Lemma embedded_fields_target : ["title"; "description"; "type"] ⊆ target_fields.
Proof.
  intros k Hk. unfold target_fields. rewrite !elem_of_cons in Hk. rewrite !elem_of_cons.
  destruct Hk as [-> | [-> | [-> | Hk]]]; [auto 10..|by apply elem_of_nil in Hk].
Qed.



End MatchProducts.




(** * The shape of preprocessed text *)

(** X1: the output of [preprocess_text] is its own words joined by single
    spaces; each word is a non-empty run of lower-case letters and is not a
    stop word; no other character occurs in the output. *)
Theorem preprocess_text_shape (STOP_WORDS : gset string) text :
  join " " (split (preprocess_text STOP_WORDS text)) = preprocess_text STOP_WORDS text ∧
  Forall (λ word, clean_word word ∧ word ∉ ALL_STOP_WORDS STOP_WORDS)
    (split (preprocess_text STOP_WORDS text)) ∧
  string_forall (λ c, is_lower c || bool_decide (c = " "%char))
    (preprocess_text STOP_WORDS text) = true.
Proof.
  destruct (preprocess_words STOP_WORDS text) as (ws & -> & Hclean & Hstop).
  rewrite split_join by done. split; [done|]. split.
  - apply Forall_and. by split.
  - by apply join_class.
Qed.

(** The words [preprocess_text] tests against the stop words are clean. *)
Lemma tokens_clean text : Forall clean_word (split (sub_non_alpha (lower text))).
Proof. apply split_clean, sub_lower_string_class. Qed.

Lemma filter_ext_in {A} (P Q : A → Prop) `{∀ x, Decision (P x)} `{∀ x, Decision (Q x)}
    (l : list A) :
  (∀ x, x ∈ l → (P x ↔ Q x)) → filter P l = filter Q l.
Proof.
  induction l as [|x l IH]; intros HPQ; [done|].
  rewrite !filter_cons.
  assert (P x ↔ Q x) as Hx by (apply HPQ; left).
  rewrite IH by (intros y Hy; apply HPQ; by right).
  destruct (decide (P x)), (decide (Q x)); tauto.
Qed.

(** X2: a stop word entry that is not a non-empty run of lower-case ASCII
    letters (as the custom entries ["100%"], ["japfa best"], ["own farms"]
    and ["nutrient-rich"]) never equals a word of the text, and adding it to
    the stop words changes no result. *)
Theorem unclean_stop_word_is_dead (STOP_WORDS : gset string) text entry :
  ¬ clean_word entry →
  (entry ∉ split (sub_non_alpha (lower text))) ∧
  preprocess_text (STOP_WORDS ∪ {[entry]}) text = preprocess_text STOP_WORDS text.
Proof.
  intros Hentry.
  assert (Hnot : entry ∉ split (sub_non_alpha (lower text))).
  { intros Hin. apply Hentry. pose proof (tokens_clean text) as Hc.
    rewrite Forall_forall in Hc. by apply Hc. }
  split; [done|]. unfold preprocess_text. f_equal.
  apply filter_ext_in. intros w Hw. unfold ALL_STOP_WORDS.
  assert (w ≠ entry) by (intros ->; done).
  rewrite !elem_of_union, elem_of_singleton. tauto.
Qed.

Lemma unclean_stop_word_is_dead_witness :
  ("japfa best" ∉ split (sub_non_alpha (lower "Japfa Best chicken"))) ∧
  preprocess_text (∅ ∪ {["japfa best"]}) "Japfa Best chicken"
  = preprocess_text ∅ "Japfa Best chicken".
Proof.
  apply (unclean_stop_word_is_dead ∅ "Japfa Best chicken" "japfa best").
  intros [_ Hl]. vm_compute in Hl. discriminate.
Defined.

(** * Symmetry of the similarity *)





(** * What the top indices select *)

Lemma fst_imap_pair (v : list float) n :
  (imap (λ i x, (n + i, x)) v).*1 = seq n (length v).
Proof.
  revert n. induction v as [|x v IH]; intros n; simpl; [done|].
  f_equal; [lia|]. rewrite <- (IH (S n)). f_equal.
  apply imap_ext. intros i y _. simpl. f_equal. lia.
Qed.

Lemma argsort_perm v : argsort v ≡ₚ seq 0 (length v).
Proof.
  unfold argsort. rewrite (proj2 (sort_asc_imap_sorted v)).
  by rewrite <- (fst_imap_pair v 0).
Qed.

Lemma top_indices_NoDup similarities top_k : NoDup (top_indices similarities top_k).
Proof.
  unfold top_indices. rewrite reverse_Permutation.
  destruct (slice_from_drop (- top_k) (argsort similarities)) as [n ->].
  apply (sublist_NoDup _ (argsort similarities)); [|apply sublist_drop].
  rewrite argsort_perm. apply NoDup_seq.
Qed.

Lemma top_indices_bound similarities top_k i :
  i ∈ top_indices similarities top_k → i < length similarities.
Proof.
  unfold top_indices. rewrite elem_of_reverse.
  destruct (slice_from_drop (- top_k) (argsort similarities)) as [n ->].
  intros Hi%subseteq_drop. rewrite argsort_perm in Hi.
  apply elem_of_seq in Hi. lia.
Qed.

(** An index that is left out has a value that sorts no later than the value
    of any index that is kept. *)
Lemma top_indices_best similarities top_k i j x y :
  i ∈ top_indices similarities top_k →
  j ∉ top_indices similarities top_k →
  similarities !! i = Some x → similarities !! j = Some y →
  np_le y x = true.
Proof.
  rewrite top_indices_pairs. unfold top_pairs.
  pose proof (sort_asc_imap_sorted similarities) as [Hs Hp].
  set (L := sort_asc (imap (λ i x, (i, x)) similarities)) in *.
  destruct (slice_from_drop (- top_k) L) as [n ->].
  rewrite fmap_reverse, !elem_of_reverse.
  intros Hi Hj Hx Hy.
  assert (Hin : ∀ k z, similarities !! k = Some z → (k, z) ∈ L).
  { intros k z Hk. rewrite Hp. by apply (elem_of_lookup_imap_2 (λ i x, (i, x))). }
  assert (Hki : (i, x) ∈ drop n L).
  { apply list_elem_of_fmap in Hi as ([i' x'] & Heq & Hi). simpl in Heq. subst i'.
    assert (similarities !! i = Some x') as Hx'.
    { apply subseteq_drop in Hi. rewrite Hp in Hi.
      apply elem_of_lookup_imap in Hi as (k & z & [= -> ->] & Hk). done. }
    by simplify_eq. }
  assert (Hkj : (j, y) ∈ take n L).
  { pose proof (Hin j y Hy) as HjL. rewrite <- (take_drop n L) in HjL.
    apply elem_of_app in HjL as [?|HjL]; [done|].
    exfalso. apply Hj. by apply (list_elem_of_fmap_2 fst) in HjL. }
  rewrite <- (take_drop n L) in Hs.
  pose proof (StronglySorted_app_1_elem_of _ _ _ _ _ Hs Hkj Hki) as Hlt.
  unfold np_le. destruct Hlt as [Hlt | [Hle _]]; simpl in *.
  - by rewrite (np_lt_asym _ _ Hlt).
  - by rewrite Hle.
Qed.

(** * Errors of [get_top_matches] *)

Lemma mapM_outcome_raises {A B} (f : A → outcome B) l e :
  Exists (λ x, f x = Raise e) l →
  Forall (λ x, f x = Raise e ∨ ∃ y, f x = Ok y) l →
  mapM_outcome f l = Raise e.
Proof.
  induction 1 as [x l Hx | x l Hex IH]; intros Hall; simpl.
  - unfold mbind, outcome_bind. by rewrite Hx.
  - apply Forall_cons in Hall as [[Hx | [y Hx]] Hall];
      unfold mbind, outcome_bind; rewrite Hx; [done|].
    by rewrite IH.
Qed.

Lemma cosine_similarity_mismatch {F} `{Arith F} (v1 v2 : list F) :
  length v1 ≠ length v2 → cosine_similarity v1 v2 = Raise ValueError.
Proof.
  intros Hl. unfold cosine_similarity, np_dot. by rewrite decide_False.
Qed.

(** X5: if one target vector has not the dimension of the source vector,
    [get_top_matches] raises [ValueError], whatever [top_k] and the items
    are; no partial list is returned. *)
Theorem get_top_matches_dimension_mismatch source_item target_items source_embedding
    target_embeddings top_k :
  Exists (λ t, length t ≠ length source_embedding) target_embeddings →
  get_top_matches source_item target_items source_embedding target_embeddings top_k
  = Raise ValueError.
Proof.
  intros Hex. unfold get_top_matches.
  rewrite (mapM_outcome_raises _ _ ValueError); [done| |].
  - eapply Exists_impl; [exact Hex|]. intros t Ht. simpl.
    apply cosine_similarity_mismatch. congruence.
  - apply Forall_forall. intros t _.
    destruct (decide (length source_embedding = length t)) as [Hl|Hl].
    + right. eexists. by apply cosine_similarity_Ok.
    + left. by apply cosine_similarity_mismatch.
Qed.

Lemma get_top_matches_dimension_mismatch_witness :
  get_top_matches japfa_J1 [licious_L1; licious_L2] [1; 0]%float
    [[0; 1]; [1]]%float 3 = Raise ValueError.
Proof.
  apply get_top_matches_dimension_mismatch.
  apply Exists_cons_tl, Exists_cons_hd. simpl. lia.
Defined.

(** X4: the entries [get_top_matches] returns are distinct targets, and
    every target it leaves out has a similarity that sorts no later than
    that of every entry it returns: nothing better is left out. *)
Theorem get_top_matches_selects source_item target_items source_embedding
    target_embeddings top_k :
  length target_embeddings ≤ length target_items →
  Forall (λ t, length t = length source_embedding) target_embeddings →
  ∃ res idxs,
    get_top_matches source_item target_items source_embedding target_embeddings top_k
      = Ok res ∧
    Forall2 (λ i r, target_items !! i = Some r.1 ∧
                    ∃ t, target_embeddings !! i = Some t ∧
                         cosine_similarity source_embedding t = Ok r.2) idxs res ∧
    NoDup idxs ∧
    ∀ j t, j ∉ idxs → target_embeddings !! j = Some t →
      ∃ s, cosine_similarity source_embedding t = Ok s ∧
           Forall (λ r, np_le s r.2 = true) res.
Proof.
  intros Hlen Hdim.
  destruct (get_top_matches_run source_item _ _ _ top_k Hlen Hdim)
    as (sims & res & Hsims & Hres & Hpairs).
  exists res, (top_indices sims top_k). split; [done|].
  rewrite top_indices_pairs. split; [|split].
  - apply Forall2_fmap_l. eapply Forall2_impl; [exact Hpairs|].
    intros p r (Ht & Hs & Hr). simpl. split; [done|].
    destruct (Forall2_lookup_r _ _ _ _ _ Hsims Hs) as (t & Ht' & Hc).
    exists t. by rewrite Hr.
  - rewrite <- top_indices_pairs. apply top_indices_NoDup.
  - intros j t Hj Ht.
    destruct (Forall2_lookup_l _ _ _ _ _ Hsims Ht) as (s & Hs & Hc).
    exists s. split; [done|].
    eapply Forall2_Forall_r; [exact Hpairs|]. apply Forall_forall.
    intros [i x] Hp r (_ & Hx & ->). simpl in *.
    apply (top_indices_best sims top_k i j); [|by rewrite top_indices_pairs|done|done].
    rewrite top_indices_pairs. by apply (list_elem_of_fmap_2 fst) in Hp.
Qed.

Lemma get_top_matches_selects_witness :
  ∃ res idxs,
    get_top_matches japfa_J1 [licious_L1; licious_L2] [1; 0]%float
      [[0; 1]; [1; 0]]%float 1 = Ok res ∧
    Forall2 (λ i r, [licious_L1; licious_L2] !! i = Some r.1 ∧
                    ∃ t, [[0; 1]; [1; 0]]%float !! i = Some t ∧
                         cosine_similarity [1; 0]%float t = Ok r.2) idxs res ∧
    NoDup idxs ∧
    ∀ j t, j ∉ idxs → [[0; 1]; [1; 0]]%float !! j = Some t →
      ∃ s, cosine_similarity [1; 0]%float t = Ok s ∧
           Forall (λ r, np_le s r.2 = true) res.
Proof.
  apply (get_top_matches_selects japfa_J1 [licious_L1; licious_L2] [1; 0]%float
           [[0; 1]; [1; 0]]%float 1).
  - simpl. lia.
  - repeat constructor.
Defined.

(** * The provider calls of a batch *)

Lemma field_lookup (it : item) k v : it !! k = Some v → field it k = v.
Proof. intros Hk. unfold field. by rewrite Hk. Qed.

Section BatchCalls.
Variable STOP_WORDS : gset string.
Variable provider : list event → string → provider_error + list float.

Lemma embed_item_trace d match_type (it : item) w :
  provider_total provider d →
  has_fields ["title"; "description"; "type"] it →
  ∃ v, embed_item STOP_WORDS provider match_type it w
         = (Ok v, w ++ item_calls STOP_WORDS match_type it) ∧
       length v = d.
Proof.
  intros Hp Hf.
  destruct (has_fields_lookup _ it "title" Hf) as [t Ht];
    [rewrite !elem_of_cons; auto|].
  destruct (has_fields_lookup _ it "description" Hf) as [ds Hds];
    [rewrite !elem_of_cons; auto|].
  destruct (has_fields_lookup _ it "type" Hf) as [ty Hty];
    [rewrite !elem_of_cons; auto|].
  unfold embed_item, item_calls.
  rewrite (field_lookup _ _ _ Ht), (field_lookup _ _ _ Hds), (field_lookup _ _ _ Hty).
  repeat case_decide.
  - rewrite bind_run, (getitem_Some _ _ _ Ht). unfold lift.
    destruct (get_embedding_ok STOP_WORDS provider d t w Hp) as (v & -> & Hv). eauto.
  - rewrite bind_run, (getitem_Some _ _ _ Hds). unfold lift.
    destruct (get_embedding_ok STOP_WORDS provider d ds w Hp) as (v & -> & Hv). eauto.
  - rewrite bind_run, (getitem_Some _ _ _ Ht). unfold lift.
    rewrite bind_run, (getitem_Some _ _ _ Hds).
    rewrite bind_run, (getitem_Some _ _ _ Hty).
    destruct (Hp w (submitted_text STOP_WORDS t)) as (a & Ha & Hla).
    destruct (Hp (w ++ [EmbedCall (submitted_text STOP_WORDS t)])
                (submitted_text STOP_WORDS ty)) as (b & Hb & Hlb).
    destruct (Hp (w ++ [EmbedCall (submitted_text STOP_WORDS t);
                        EmbedCall (submitted_text STOP_WORDS ty)])
                (submitted_text STOP_WORDS ds)) as (c & Hc & Hlc).
    eexists. split.
    + apply (get_weighted_embedding_run STOP_WORDS provider _ _ _ _ _ _ _ a b c);
        [done|done|done|lia|lia].
    + unfold np_div_scalar. rewrite length_map, length_weighted_sum; lia.
  - rewrite bind_run, (getitem_Some _ _ _ Ht). unfold lift.
    rewrite bind_run, (getitem_Some _ _ _ Hds).
    destruct (get_embedding_ok STOP_WORDS provider d (t +:+ " " +:+ ds) w Hp)
      as (v & -> & Hv). eauto.
Qed.

Lemma mapM_M_trace {A B} (f : A → M B) (g : A → list event) (P : B → Prop) l w :
  Forall (λ x, ∀ w, ∃ y, f x w = (Ok y, w ++ g x) ∧ P y) l →
  ∃ ys, mapM_M f l w = (Ok ys, w ++ concat (g <$> l)) ∧
        Forall P ys ∧ length ys = length l.
Proof.
  intros Hl. revert w. induction Hl as [|x l Hx _ IH]; intros w; simpl.
  - rewrite ret_run, app_nil_r. by exists [].
  - rewrite bind_run. destruct (Hx w) as (y & -> & Hy).
    rewrite bind_run. destruct (IH (w ++ g x)) as (ys & -> & Hys & Hlen).
    rewrite ret_run. exists (y :: ys). rewrite app_assoc.
    repeat split; [by constructor|]. simpl. by rewrite Hlen.
Qed.

Lemma embed_items_trace d match_type fields (items : list item) w :
  provider_total provider d →
  ["title"; "description"; "type"] ⊆ fields →
  Forall (has_fields fields) items →
  ∃ embs, mapM_M (embed_item STOP_WORDS provider match_type) items w
            = (Ok embs, w ++ concat (item_calls STOP_WORDS match_type <$> items)) ∧
          Forall (λ v, length v = d) embs ∧ length embs = length items.
Proof.
  intros Hp Hsub Hf. apply mapM_M_trace.
  eapply Forall_impl; [exact Hf|]. intros it Hit w0. simpl.
  apply embed_item_trace; [done|]. by eapply has_fields_sub.
Qed.

End BatchCalls.

(** * The entries of the report *)

(** What an entry says of the source item it was made from. *)
Lemma report_entry_of_product (it : item) emb target_items target_embeddings id entry :
  report_entry_of it emb target_items target_embeddings = Ok (id, entry) →
  it !! "japfa_id" = Some id ∧
  it !! "title" = Some (jp_title (re_japfa_product entry)) ∧
  it !! "category_name" = Some (jp_category_name (re_japfa_product entry)) ∧
  it !! "type" = Some (jp_type (re_japfa_product entry)).
Proof.
  unfold report_entry_of, mbind, outcome_bind, getitem.
  destruct (it !! "japfa_id") as [i|]; [|done].
  destruct (get_top_matches _ _ _ _ _); [|done].
  destruct (it !! "title") as [t|]; [|done].
  destruct (it !! "category_name") as [c|]; [|done].
  destruct (it !! "type") as [ty|]; [|done].
  destruct (mapM_outcome _ _); [|done].
  by intros [= <- <-].
Qed.

Lemma build_results_general sources target_items target_embeddings (results : report) :
  Forall (λ p : item * list float, has_fields source_fields p.1 ∧
            Forall (λ t, length t = length p.2) target_embeddings) sources →
  Forall (has_fields target_fields) target_items →
  length target_embeddings = length target_items →
  ∃ rep : report,
    build_results sources target_items target_embeddings results = Ok rep ∧
    dom rep = dom results ∪
              list_to_set ((λ p : item * list float, field p.1 "japfa_id") <$> sources) ∧
    size rep ≤ size results + length sources ∧
    (∀ k, k ∉ (λ p : item * list float, field p.1 "japfa_id") <$> sources →
          rep !! k = results !! k) ∧
    ∀ i p, sources !! i = Some p →
      (∀ j q, i < j → sources !! j = Some q →
              field q.1 "japfa_id" ≠ field p.1 "japfa_id") →
      ∃ entry, rep !! field p.1 "japfa_id" = Some entry ∧
               report_entry_of p.1 p.2 target_items target_embeddings
               = Ok (field p.1 "japfa_id", entry).
Proof.
  intros Hs Htf Hlen. revert results.
  induction Hs as [|[it emb] sources [Hf Hdim] Hs IH]; intros results; simpl.
  - exists results. split; [done|]. split.
    { by rewrite (right_id_L ∅ (∪)). }
    split; [lia|].
    split; [done|]. intros i p Hp. by rewrite lookup_nil in Hp.
  - simpl in Hf, Hdim.
    destruct (report_entry_of_ok it emb target_items target_embeddings Hf Htf Hlen Hdim)
      as (id & entry & Hid & Hre & Hm).
    unfold mbind, outcome_bind. rewrite Hre. simpl.
    destruct (IH (<[id := entry]> results)) as (rep & Hrep & Hdom & Hsize & Hkeep & Hlast).
    rewrite (field_lookup _ _ _ Hid).
    exists rep. split; [done|]. split; [|split; [|split]].
    + rewrite Hdom, dom_insert_L. apply set_eq. intros x.
      rewrite !elem_of_union. tauto.
    + pose proof (map_size_insert id entry results) as Hins.
      destruct (results !! id); simpl in Hins; lia.
    + intros k Hk. apply not_elem_of_cons in Hk as [Hne Hk].
      rewrite (Hkeep k Hk). by rewrite lookup_insert_ne.
    + intros [|i] p Hp Hlater; simpl in Hp.
      * injection Hp as <-. simpl. rewrite (field_lookup _ _ _ Hid).
        exists entry. split; [|done].
        rewrite Hkeep; [apply lookup_insert_eq|].
        intros ([it' emb'] & Heq & [j Hj]%list_elem_of_lookup_1)%list_elem_of_fmap.
        simpl in Heq. apply (Hlater (S j) (it', emb')); [lia|done|].
        simpl. by rewrite (field_lookup _ _ _ Hid).
      * apply (Hlast i p Hp). intros j q Hij Hq.
        apply (Hlater (S j) q); [lia|done].
Qed.

Lemma length_item_calls STOP_WORDS match_type (items : list item) :
  length (concat (item_calls STOP_WORDS match_type <$> items))
  = (if decide (match_type = "weighted") then 3 else 1) * length items.
Proof.
  induction items as [|it items IH]; [simpl; lia|].
  rewrite fmap_cons, concat_cons, length_app, IH.
  unfold item_calls. repeat case_decide; simpl; try lia; congruence.
Qed.

Lemma getitem_cases (it : item) k :
  (∃ v, getitem it k = Ok v) ∨ getitem it k = Raise (KeyError k).
Proof. unfold getitem. destruct (it !! k); eauto. Qed.

Lemma match_entry_of_cases (m : item * float) :
  (∃ entry, match_entry_of m = Ok entry) ∨ ∃ k, match_entry_of m = Raise (KeyError k).
Proof.
  unfold match_entry_of, mbind, outcome_bind.
  destruct (getitem_cases m.1 "licious_id") as [[? ->] | ->]; [|eauto].
  destruct (getitem_cases m.1 "title") as [[? ->] | ->]; [|eauto].
  destruct (getitem_cases m.1 "type") as [[? ->] | ->]; [|eauto].
  destruct (getitem_cases m.1 "category_name") as [[? ->] | ->]; eauto.
Qed.

Lemma mapM_outcome_cases {A B} (f : A → outcome B) l :
  (∀ x, (∃ y, f x = Ok y) ∨ ∃ k, f x = Raise (KeyError k)) →
  (∃ ys, mapM_outcome f l = Ok ys) ∨ ∃ k, mapM_outcome f l = Raise (KeyError k).
Proof.
  intros Hf. induction l as [|x l IH]; simpl; [eauto|].
  unfold mbind, outcome_bind.
  destruct (Hf x) as [[y ->] | [k ->]]; [|eauto].
  destruct IH as [[ys ->] | [k ->]]; eauto.
Qed.

Lemma report_entry_of_cases (it : item) emb target_items target_embeddings :
  length target_embeddings = length target_items →
  Forall (λ t, length t = length emb) target_embeddings →
  (∃ r, report_entry_of it emb target_items target_embeddings = Ok r) ∨
  ∃ k, report_entry_of it emb target_items target_embeddings = Raise (KeyError k).
Proof.
  intros Hlen Hdim. unfold report_entry_of, mbind, outcome_bind.
  destruct (getitem_cases it "japfa_id") as [[? ->] | ->]; [|eauto].
  destruct (get_top_matches_positive_k it target_items emb target_embeddings
              default_top_k) as (res & -> & _ & _); [done|lia|done|].
  destruct (getitem_cases it "title") as [[? ->] | ->]; [|eauto].
  destruct (getitem_cases it "category_name") as [[? ->] | ->]; [|eauto].
  destruct (getitem_cases it "type") as [[? ->] | ->]; [|eauto].
  destruct (mapM_outcome_cases match_entry_of res match_entry_of_cases)
    as [[ms ->] | [k ->]]; eauto.
Qed.

Lemma build_results_missing_id sources (it : item) emb target_items target_embeddings
    (results : report) :
  length target_embeddings = length target_items →
  Forall (λ p : item * list float,
            Forall (λ t, length t = length p.2) target_embeddings) sources →
  (it, emb) ∈ sources → it !! "japfa_id" = None →
  ∃ k, build_results sources target_items target_embeddings results = Raise (KeyError k).
Proof.
  intros Hlen Hdim Hin Hid. revert results.
  induction Hdim as [|[it' emb'] sources Hd Hdim IH]; intros results;
    [by apply elem_of_nil in Hin|].
  simpl. unfold mbind, outcome_bind.
  destruct (report_entry_of_cases it' emb' target_items target_embeddings Hlen Hd)
    as [[r Hr] | [k Hr]]; rewrite Hr; [|eauto].
  apply elem_of_cons in Hin as [[= <- <-] | Hin]; [|by apply IH].
  unfold report_entry_of, mbind, outcome_bind in Hr.
  by rewrite (getitem_None _ _ Hid) in Hr.
Qed.

Section BatchReport.
Variable STOP_WORDS : gset string.
Variable provider : list event → string → provider_error + list float.

Lemma zip_embeddings_wf d fields (source_items : list item) semb
    (target_embeddings : list (list float)) :
  Forall (has_fields fields) source_items →
  Forall (λ v, length v = d) semb →
  Forall (λ v, length v = d) target_embeddings →
  Forall (λ p : item * list float, has_fields fields p.1 ∧
            Forall (λ t, length t = length p.2) target_embeddings)
    (zip source_items semb).
Proof.
  intros Hsf Hsd Htd. apply Forall_forall. intros [it emb] Hin. simpl.
  apply list_elem_of_lookup_1 in Hin as [i Hi].
  apply lookup_zip_with_Some in Hi as (it' & emb' & [= <- <-] & Hit & Hemb).
  split.
  - rewrite Forall_forall in Hsf. by eapply Hsf, list_elem_of_lookup_2.
  - rewrite Forall_forall in Hsd.
    rewrite (Hsd emb (list_elem_of_lookup_2 _ _ _ Hemb)). done.
Qed.

Lemma match_products_general d source_items target_items match_type w :
  provider_total provider d →
  Forall (has_fields source_fields) source_items →
  Forall (has_fields target_fields) target_items →
  ∃ rep : report,
    match_products STOP_WORDS provider source_items target_items match_type w
      = (Ok rep, w ++ concat (item_calls STOP_WORDS match_type
                                <$> (source_items ++ target_items))) ∧
    dom rep = list_to_set ((λ it : item, field it "japfa_id") <$> source_items) ∧
    size rep ≤ length source_items ∧
    ∀ i it, source_items !! i = Some it →
      (∀ j it', i < j → source_items !! j = Some it' →
                field it' "japfa_id" ≠ field it "japfa_id") →
      ∃ entry, rep !! field it "japfa_id" = Some entry ∧
               re_japfa_product entry
               = {| jp_title := field it "title";
                    jp_category_name := field it "category_name";
                    jp_type := field it "type" |} ∧
               length (re_matches entry) = 3 `min` length target_items.
Proof.
  intros Hp Hsf Htf. unfold match_products. rewrite bind_run.
  destruct (embed_items_trace STOP_WORDS provider d match_type source_fields
              source_items w Hp) as (semb & -> & Hsd & Hsl);
    [apply embedded_fields_source|done|].
  rewrite bind_run.
  destruct (embed_items_trace STOP_WORDS provider d match_type target_fields
              target_items (w ++ concat (item_calls STOP_WORDS match_type <$> source_items))
              Hp) as (temb & -> & Htd & Htl);
    [apply embedded_fields_target|done|].
  unfold lift.
  pose proof (zip_embeddings_wf d source_fields source_items semb temb Hsf Hsd Htd) as Hz.
  destruct (build_results_general (zip source_items semb) target_items temb ∅ Hz Htf Htl)
    as (rep & -> & Hdom & Hsize & _ & Hlast).
  assert (Hids : (λ p : item * list float, field p.1 "japfa_id") <$> zip source_items semb
                 = (λ it : item, field it "japfa_id") <$> source_items).
  { rewrite <- (fst_zip source_items semb) at 2 by lia.
    by rewrite <- list_fmap_compose. }
  exists rep. split.
  { by rewrite fmap_app, concat_app, app_assoc. }
  split; [|split].
  - rewrite Hdom, Hids, dom_empty_L. by rewrite (left_id_L ∅ (∪)).
  - rewrite map_size_empty, length_zip_with in Hsize. lia.
  - intros i it Hi Hlater.
    destruct (lookup_lt_is_Some_2 semb i) as [emb Hemb].
    { rewrite Hsl. by eapply lookup_lt_Some. }
    destruct (Hlast i (it, emb)) as (entry & Hentry & Hre).
    { rewrite lookup_zip_with, Hi. simpl. by rewrite Hemb. }
    { intros j [it' emb'] Hij Hj. simpl.
      apply lookup_zip_with_Some in Hj as (? & ? & [= <- <-] & Hj & _).
      by apply (Hlater j). }
    simpl in *. exists entry. split; [done|].
    destruct (report_entry_of_product _ _ _ _ _ _ Hre) as (_ & Ht & Hc & Hty).
    split.
    + rewrite (field_lookup _ _ _ Ht), (field_lookup _ _ _ Hc), (field_lookup _ _ _ Hty).
      by destruct (re_japfa_product entry).
    + rewrite Forall_forall in Hz.
      destruct (Hz (it, emb)) as [Hf Hdim].
      { apply (list_elem_of_lookup_2 _ i). rewrite lookup_zip_with, Hi. simpl.
        by rewrite Hemb. }
      destruct (report_entry_of_ok it emb target_items temb Hf Htf Htl Hdim)
        as (id' & entry' & _ & Hre' & Hm).
      rewrite Hre in Hre'. by injection Hre' as _ <-.
Qed.

Lemma match_products_late_error d source_items target_items match_type w (it : item) :
  provider_total provider d →
  Forall (has_fields ["title"; "description"; "type"]) source_items →
  Forall (has_fields ["title"; "description"; "type"]) target_items →
  it ∈ source_items → it !! "japfa_id" = None →
  ∃ k, match_products STOP_WORDS provider source_items target_items match_type w
       = (Raise (KeyError k),
          w ++ concat (item_calls STOP_WORDS match_type
                         <$> (source_items ++ target_items))).
Proof.
  intros Hp Hsf Htf Hin Hid. unfold match_products. rewrite bind_run.
  destruct (embed_items_trace STOP_WORDS provider d match_type _
              source_items w Hp (reflexivity _) Hsf) as (semb & -> & Hsd & Hsl).
  rewrite bind_run.
  destruct (embed_items_trace STOP_WORDS provider d match_type _
              target_items (w ++ concat (item_calls STOP_WORDS match_type <$> source_items))
              Hp (reflexivity _) Htf) as (temb & -> & Htd & Htl).
  unfold lift.
  pose proof (zip_embeddings_wf d _ source_items semb temb Hsf Hsd Htd) as Hz.
  apply list_elem_of_lookup_1 in Hin as [i Hi].
  destruct (lookup_lt_is_Some_2 semb i) as [emb Hemb].
  { rewrite Hsl. by eapply lookup_lt_Some. }
  destruct (build_results_missing_id (zip source_items semb) it emb target_items temb ∅)
    as [k ->]; [done| | |done|].
  - eapply Forall_impl; [exact Hz|]. by intros p [_ ?].
  - apply (list_elem_of_lookup_2 _ i). rewrite lookup_zip_with, Hi. simpl. by rewrite Hemb.
  - exists k. by rewrite fmap_app, concat_app, app_assoc.
Qed.

End BatchReport.

Lemma constant_provider_total : provider_total constant_provider 2.
Proof. intros w input. by exists [1%float; 0%float]. Qed.

Lemma has_fields_check keys (it : item) :
  bool_decide (has_fields keys it) = true → has_fields keys it.
Proof. apply bool_decide_eq_true_1. Qed.

(** X6: when every provider call answers and every item has its fields,
    [match_products] returns a report and the provider calls it made are
    exactly the calls of each source item, in order, followed by those of
    each target item: three per item for the match type "weighted" and one
    per item for any other.  Nothing is cached: an item is embedded again
    wherever it occurs. *)
Theorem match_products_calls (STOP_WORDS : gset string)
    (provider : list event → string → provider_error + list float)
    d source_items target_items match_type w :
  provider_total provider d →
  Forall (has_fields source_fields) source_items →
  Forall (has_fields target_fields) target_items →
  ∃ rep : report,
    match_products STOP_WORDS provider source_items target_items match_type w
      = (Ok rep, w ++ concat (item_calls STOP_WORDS match_type
                                <$> (source_items ++ target_items))) ∧
    length (concat (item_calls STOP_WORDS match_type <$> (source_items ++ target_items)))
    = (if decide (match_type = "weighted") then 3 else 1)
      * (length source_items + length target_items).
Proof.
  intros Hp Hsf Htf.
  destruct (match_products_general STOP_WORDS provider d source_items target_items
              match_type w Hp Hsf Htf) as (rep & Hrep & _).
  exists rep. split; [done|]. by rewrite length_item_calls, length_app.
Qed.

Lemma match_products_calls_witness :
  ∃ rep : report,
    match_products ∅ constant_provider [japfa_J1] [licious_L1; licious_L2] "weighted" []
      = (Ok rep, [] ++ concat (item_calls ∅ "weighted"
                                 <$> ([japfa_J1] ++ [licious_L1; licious_L2]))) ∧
    length (concat (item_calls ∅ "weighted" <$> ([japfa_J1] ++ [licious_L1; licious_L2])))
    = (if decide ("weighted" = "weighted") then 3 else 1)
      * (length [japfa_J1] + length [licious_L1; licious_L2]).
Proof.
  apply (match_products_calls ∅ constant_provider 2 [japfa_J1]
           [licious_L1; licious_L2] "weighted" []).
  - apply constant_provider_total.
  - apply Forall_cons_2; [|apply Forall_nil_2]. by apply has_fields_check.
  - apply Forall_cons_2; [|apply Forall_cons_2; [|apply Forall_nil_2]];
      by apply has_fields_check.
Defined.

(** X7: the report of [match_products] is keyed by "japfa_id": its keys are
    the ids of the source items, so there are at most as many entries as
    source items, and of several items with one id the last one wins: an
    item that no later item shares its id with gives the entry under that
    id, with its own title, category and type and with
    [min 3 (length target_items)] matches. *)
Theorem match_products_duplicate_ids (STOP_WORDS : gset string)
    (provider : list event → string → provider_error + list float)
    d source_items target_items match_type w :
  provider_total provider d →
  Forall (has_fields source_fields) source_items →
  Forall (has_fields target_fields) target_items →
  ∃ (rep : report) w',
    match_products STOP_WORDS provider source_items target_items match_type w
      = (Ok rep, w') ∧
    dom rep = list_to_set ((λ it : item, field it "japfa_id") <$> source_items) ∧
    size rep ≤ length source_items ∧
    ∀ i it, source_items !! i = Some it →
      (∀ j it', i < j → source_items !! j = Some it' →
                field it' "japfa_id" ≠ field it "japfa_id") →
      ∃ entry, rep !! field it "japfa_id" = Some entry ∧
               re_japfa_product entry
               = {| jp_title := field it "title";
                    jp_category_name := field it "category_name";
                    jp_type := field it "type" |} ∧
               length (re_matches entry) = 3 `min` length target_items.
Proof.
  intros Hp Hsf Htf.
  destruct (match_products_general STOP_WORDS provider d source_items target_items
              match_type w Hp Hsf Htf) as (rep & Hrep & Hrest).
  by exists rep, (w ++ concat (item_calls STOP_WORDS match_type
                                <$> (source_items ++ target_items))).
Qed.

Lemma match_products_duplicate_ids_witness :
  ∃ (rep : report) w',
    match_products ∅ constant_provider [japfa_J1; japfa_J1_again] [licious_L1]
      "weighted" [] = (Ok rep, w') ∧
    dom rep = list_to_set ((λ it : item, field it "japfa_id")
                             <$> [japfa_J1; japfa_J1_again]) ∧
    size rep ≤ length [japfa_J1; japfa_J1_again] ∧
    ∀ i it, [japfa_J1; japfa_J1_again] !! i = Some it →
      (∀ j it', i < j → [japfa_J1; japfa_J1_again] !! j = Some it' →
                field it' "japfa_id" ≠ field it "japfa_id") →
      ∃ entry, rep !! field it "japfa_id" = Some entry ∧
               re_japfa_product entry
               = {| jp_title := field it "title";
                    jp_category_name := field it "category_name";
                    jp_type := field it "type" |} ∧
               length (re_matches entry) = 3 `min` length [licious_L1].
Proof.
  apply (match_products_duplicate_ids ∅ constant_provider 2
           [japfa_J1; japfa_J1_again] [licious_L1] "weighted" []).
  - apply constant_provider_total.
  - apply Forall_cons_2; [|apply Forall_cons_2; [|apply Forall_nil_2]];
      by apply has_fields_check.
  - apply Forall_cons_2; [|apply Forall_nil_2]. by apply has_fields_check.
Defined.

(** X8: the "japfa_id" of a source item is read only after every embedding
    has been fetched.  If all items have the fields the embeddings are made
    from and some source item has no "japfa_id", [match_products] raises a
    [KeyError] and returns no report, after having made every provider call
    of the whole batch. *)
Theorem match_products_late_key_error (STOP_WORDS : gset string)
    (provider : list event → string → provider_error + list float)
    d source_items target_items match_type w (it : item) :
  provider_total provider d →
  Forall (has_fields ["title"; "description"; "type"]) source_items →
  Forall (has_fields ["title"; "description"; "type"]) target_items →
  it ∈ source_items → it !! "japfa_id" = None →
  ∃ k, match_products STOP_WORDS provider source_items target_items match_type w
       = (Raise (KeyError k),
          w ++ concat (item_calls STOP_WORDS match_type
                         <$> (source_items ++ target_items))).
Proof. apply match_products_late_error. Qed.

Lemma match_products_late_key_error_witness :
  ∃ k, match_products ∅ constant_provider [japfa_J1; japfa_no_id] [licious_L1]
         "weighted" []
       = (Raise (KeyError k),
          [] ++ concat (item_calls ∅ "weighted"
                          <$> ([japfa_J1; japfa_no_id] ++ [licious_L1]))).
Proof.
  apply (match_products_late_key_error ∅ constant_provider 2
           [japfa_J1; japfa_no_id] [licious_L1] "weighted" [] japfa_no_id).
  - apply constant_provider_total.
  - apply Forall_cons_2; [|apply Forall_cons_2; [|apply Forall_nil_2]];
      by apply has_fields_check.
  - apply Forall_cons_2; [|apply Forall_nil_2]. by apply has_fields_check.
  - rewrite !elem_of_cons. auto.
  - reflexivity.
Defined.

(** * The description rewriter *)

Lemma posts_app w1 w2 : posts (w1 ++ w2) = posts w1 + posts w2.
Proof. unfold posts. by rewrite filter_app, length_app. Qed.

Lemma no_dump_app w1 w2 : no_dump w1 → no_dump w2 → no_dump (w1 ++ w2).
Proof. intros. by apply Forall_app. Qed.

Lemma IO_bind_run {A B} (m : IO A) (f : A → IO B) w :
  (m ≫= f) w = match m w with
                   | (Some (Returns a), w') => f a w'
                   | (Some (Raises e), w') => (Some (Raises e), w')
                   | (None, w') => (None, w')
                   end.
Proof. reflexivity. Qed.

Lemma IO_ret_run {A} (a : A) (w : list action) :
  (mret a : IO A) w = (Some (Returns a), w).
Proof. reflexivity. Qed.

Section RewriterFacts.
Variable post : list action → string → exception + response.
Variable py_int : string → option Z.
Variable sleep_limit : Z.


Lemma time_sleep_run n w :
  (0 ≤ n ≤ sleep_limit)%Z →
  time_sleep sleep_limit n w = (Some (Returns ()), w ++ [SleepSeconds n]).
Proof.
  intros Hn. unfold time_sleep.
  destruct (Z.ltb_spec n 0); [lia|]. destruct (Z.ltb_spec sleep_limit n); [lia|done].
Qed.

Lemma time_sleep_cases n w :
  (time_sleep sleep_limit n w = (Some (Returns ()), w ++ [SleepSeconds n]) ∧
   (0 ≤ n ≤ sleep_limit)%Z) ∨
  ∃ e, time_sleep sleep_limit n w = (Some (Raises e), w).
Proof.
  unfold time_sleep.
  destruct (Z.ltb_spec n 0); [eauto|]. destruct (Z.ltb_spec sleep_limit n); [eauto|].
  left. split; [done|lia].
Qed.

(** The 429 branch: the sleep it ends with, and the actions after it. *)
Lemma rate_limited_sleep (r : response) w :
  (30 ≤ sleep_limit)%Z →
  ∃ n, (0 ≤ n ≤ sleep_limit)%Z ∧
    match (retry_delay ← lift_result (retry_delay_of py_int r);
           time_sleep sleep_limit retry_delay) w with
    | (Some (Returns _), w2) => w2 = w ++ [SleepSeconds n]
    | (_, w2) => time_sleep sleep_limit 30 w2 = (Some (Returns ()), w ++ [SleepSeconds n])
    end.
Proof.
  intros H30. rewrite IO_bind_run. unfold lift_result.
  destruct (retry_delay_of py_int r) as [d|e].
  - destruct (time_sleep_cases d w) as [[-> Hd] | [e ->]].
    + by exists d.
    + exists 30%Z. split; [lia|]. apply time_sleep_run. lia.
  - exists 30%Z. split; [lia|]. apply time_sleep_run. lia.
Qed.

Lemma rate_limited_turn fuel prompt w r :
  (30 ≤ sleep_limit)%Z →
  post w prompt = inr r → status_code r = 429%Z →
  ∃ n, (0 ≤ n ≤ sleep_limit)%Z ∧
    call_gemini post py_int sleep_limit (S fuel) prompt w
    = call_gemini post py_int sleep_limit fuel prompt (w ++ [Post prompt; SleepSeconds n]).
Proof.
  intros H30 Hp Hs. simpl. rewrite Hp.
  destruct (decide (status_code r = 200%Z)) as [H200|H200]; [lia|].
  destruct (decide (status_code r = 429%Z)) as [H429|H429]; [|done].
  destruct (rate_limited_sleep r (w ++ [Post prompt]) H30) as (n & Hn & Hrun).
  exists n. split; [done|].
  replace (w ++ [Post prompt; SleepSeconds n])
    with ((w ++ [Post prompt]) ++ [SleepSeconds n]) by by rewrite <- app_assoc.
  destruct ((retry_delay ← lift_result (retry_delay_of py_int r);
             time_sleep sleep_limit retry_delay) (w ++ [Post prompt]))
    as [[[[]|e]|] w2].
  - by rewrite Hrun.
  - by rewrite Hrun.
  - by rewrite Hrun.
Qed.

(** A turn that is not rate limited ends the call after its request. *)
Lemma final_turn fuel prompt w :
  (∀ r, post w prompt = inr r → status_code r ≠ 429%Z) →
  ∃ res, call_gemini post py_int sleep_limit (S fuel) prompt w = (Some res, w ++ [Post prompt]).
Proof.
  intros Hs. simpl. destruct (post w prompt) as [e|r] eqn:Hp; [eauto|].
  destruct (decide (status_code r = 200%Z)).
  - destruct (candidate_text r) as [text|[[]| | | | |]]; eauto.
  - destruct (decide (status_code r = 429%Z)); [by destruct (Hs r)|eauto].
Qed.

Lemma call_gemini_finishes_from N prompt fuel w :
  (30 ≤ sleep_limit)%Z →
  (∀ w' r, N ≤ posts w' → post w' prompt = inr r → status_code r ≠ 429%Z) →
  0 < fuel → N < posts w + fuel →
  ∃ res w', call_gemini post py_int sleep_limit fuel prompt w = (Some res, w') ∧
            posts w < posts w' ∧ posts w' ≤ posts w `max` N + 1.
Proof.
  intros H30 HN. revert w. induction fuel as [|fuel IH]; intros w Hf Hlt; [lia|].
  destruct (post w prompt) as [e|r] eqn:Hp.
  - destruct (final_turn fuel prompt w) as [res Hres].
    { intros r. by rewrite Hp. }
    exists res, (w ++ [Post prompt]). rewrite posts_app. split; [done|].
    change (posts [Post prompt]) with 1. lia.
  - destruct (decide (status_code r = 429%Z)) as [Hs|Hs].
    + assert (posts w < N) as HwN.
      { destruct (decide (N ≤ posts w)) as [Hle|]; [|lia]. by destruct (HN w r Hle Hp). }
      destruct (rate_limited_turn fuel prompt w r H30 Hp Hs) as (n & Hn & ->).
      assert (posts (w ++ [Post prompt; SleepSeconds n]) = posts w + 1) as Hw2.
      { by rewrite posts_app. }
      destruct (IH (w ++ [Post prompt; SleepSeconds n])) as (res & w' & Hrun & Hlo & Hhi);
        [lia|lia|].
      exists res, w'. split; [done|]. lia.
    + destruct (final_turn fuel prompt w) as [res Hres].
      { intros r'. rewrite Hp. by intros [= <-]. }
      exists res, (w ++ [Post prompt]). rewrite posts_app. split; [done|].
      change (posts [Post prompt]) with 1. lia.
Qed.

Lemma call_gemini_busy prompt fuel w :
  (30 ≤ sleep_limit)%Z →
  (∀ w', ∃ r, post w' prompt = inr r ∧ status_code r = 429%Z) →
  ∃ w', call_gemini post py_int sleep_limit fuel prompt w = (None, w') ∧
        posts w' = posts w + fuel.
Proof.
  intros H30 Hbusy. revert w. induction fuel as [|fuel IH]; intros w.
  - exists w. split; [done|lia].
  - destruct (Hbusy w) as (r & Hp & Hs).
    destruct (rate_limited_turn fuel prompt w r H30 Hp Hs) as (n & Hn & ->).
    destruct (IH (w ++ [Post prompt; SleepSeconds n])) as (w' & -> & Hposts).
    exists w'. split; [done|]. rewrite Hposts, posts_app.
    change (posts [Post prompt; SleepSeconds n]) with 1. lia.
Qed.

(** Whatever happens, [call_gemini] only adds requests and accepted sleeps. *)
Lemma call_gemini_extends fuel prompt w out w' :
  call_gemini post py_int sleep_limit fuel prompt w = (out, w') →
  ∃ added, w' = w ++ added ∧ Forall (gemini_action sleep_limit prompt) added.
Proof.
  revert w. induction fuel as [|fuel IH]; intros w; simpl.
  - intros [= <- <-]. exists []. by rewrite app_nil_r.
  - assert (Forall (gemini_action sleep_limit prompt) [Post prompt]) as Hpost.
    { apply Forall_singleton. by left. }
    assert (∀ o : option (result string), (o, w ++ [Post prompt]) = (out, w') →
              ∃ added, w' = w ++ added ∧ Forall (gemini_action sleep_limit prompt) added)
      as Hend.
    { intros o [= _ <-]. eauto. }
    destruct (post w prompt) as [e|r]; [apply Hend|].
    destruct (decide (status_code r = 200%Z)) as [H200|H200].
    { destruct (candidate_text r) as [text|[[]| | | | |]]; apply Hend. }
    destruct (decide (status_code r = 429%Z)) as [H429|H429]; [|apply Hend].
    assert (∀ n w2, (0 ≤ n ≤ sleep_limit)%Z →
              w2 = (w ++ [Post prompt]) ++ [SleepSeconds n] →
              call_gemini post py_int sleep_limit fuel prompt w2 = (out, w') →
              ∃ added, w' = w ++ added ∧ Forall (gemini_action sleep_limit prompt) added)
      as Hnext.
    { intros n w2 Hn -> Hrun. destruct (IH _ Hrun) as (added & -> & Hadded).
      exists ([Post prompt; SleepSeconds n] ++ added).
      split; [by rewrite <- !app_assoc|].
      apply Forall_app. split; [|done].
      apply Forall_cons. split; [by left|]. apply Forall_singleton. right. eauto. }
    assert (match time_sleep sleep_limit 30 (w ++ [Post prompt]) with
            | (Some (Returns _), w3) => call_gemini post py_int sleep_limit fuel prompt w3
            | (Some (Raises e), w3) => (Some (Raises e), w3)
            | (None, w3) => (None, w3)
            end = (out, w') →
            ∃ added, w' = w ++ added ∧ Forall (gemini_action sleep_limit prompt) added)
      as Hhandler.
    { destruct (time_sleep_cases 30 (w ++ [Post prompt])) as [[-> H30] | [e ->]].
      - exact (Hnext 30%Z _ H30 eq_refl).
      - apply Hend. }
    rewrite IO_bind_run. unfold lift_result.
    destruct (retry_delay_of py_int r) as [d|e]; [|by apply Hhandler].
    destruct (time_sleep_cases d (w ++ [Post prompt])) as [[-> Hd] | [e ->]].
    + exact (Hnext d _ Hd eq_refl).
    + by apply Hhandler.
Qed.

Lemma gemini_actions_no_dump prompt added :
  Forall (gemini_action sleep_limit prompt) added → no_dump added.
Proof.
  intros Hadded. eapply Forall_impl; [exact Hadded|].
  by intros a [-> | (n & -> & _)].
Qed.

Lemma call_gemini_no_dump fuel prompt w out w' :
  call_gemini post py_int sleep_limit fuel prompt w = (out, w') →
  ∃ added, w' = w ++ added ∧ no_dump added.
Proof.
  intros Hrun. destruct (call_gemini_extends _ _ _ _ _ Hrun) as (added & -> & Hadded).
  exists added. split; [done|]. by eapply gemini_actions_no_dump.
Qed.

Lemma process_product_no_dump fuel product w res w' :
  process_product post py_int sleep_limit fuel product w = (res, w') →
  ∃ added, w' = w ++ added ∧ no_dump added.
Proof.
  unfold process_product. destruct (decide (field product "title" = "")).
  { intros [= <- <-]. exists []. split; [by rewrite app_nil_r|constructor]. }
  rewrite IO_bind_run.
  destruct (call_gemini post py_int sleep_limit fuel _ w) as [r1 w1] eqn:H1.
  destruct (call_gemini_no_dump _ _ _ _ _ H1) as (a1 & -> & Ha1).
  destruct r1 as [[new_desc|e]|]; [|intros [= <- <-]; eauto..].
  rewrite IO_bind_run. unfold time_sleep_half at 1. rewrite IO_bind_run.
  destruct (call_gemini post py_int sleep_limit fuel (TYPE_PROMPT_TEMPLATE _ _ _) _)
    as [r2 w2] eqn:H2.
  destruct (call_gemini_no_dump _ _ _ _ _ H2) as (a2 & -> & Ha2).
  assert (no_dump (a1 ++ [SleepHalfSecond] ++ a2)) as Ha12.
  { apply no_dump_app; [done|]. apply no_dump_app; [|done]. by apply Forall_singleton. }
  destruct r2 as [[answer|e]|].
  - rewrite IO_bind_run. unfold time_sleep_half. rewrite IO_ret_run.
    intros [= <- <-]. exists (a1 ++ [SleepHalfSecond] ++ a2 ++ [SleepHalfSecond]).
    split; [by rewrite <- !app_assoc|].
    apply no_dump_app; [done|]. apply no_dump_app; [by apply Forall_singleton|].
    apply no_dump_app; [done|]. by apply Forall_singleton.
  - intros [= <- <-]. exists (a1 ++ [SleepHalfSecond] ++ a2).
    split; [by rewrite <- !app_assoc|done].
  - intros [= <- <-]. exists (a1 ++ [SleepHalfSecond] ++ a2).
    split; [by rewrite <- !app_assoc|done].
Qed.

Lemma mapM_IO_no_dump {A B} (f : A → IO B) l w res w' :
  (∀ x w res w', f x w = (res, w') → ∃ added, w' = w ++ added ∧ no_dump added) →
  mapM_IO f l w = (res, w') →
  (∃ added, w' = w ++ added ∧ no_dump added).
Proof.
  intros Hf. revert w res w'. induction l as [|x l IH]; intros w res w'; simpl.
  - rewrite IO_ret_run. intros [= <- <-]. exists []. split; [by rewrite app_nil_r|constructor].
  - rewrite IO_bind_run. destruct (f x w) as [r1 w1] eqn:H1.
    destruct (Hf _ _ _ _ H1) as (a1 & -> & Ha1).
    destruct r1 as [[y|e]|]; [|intros [= <- <-]; eauto..].
    rewrite IO_bind_run. destruct (mapM_IO f l _) as [r2 w2] eqn:H2.
    destruct (IH _ _ _ H2) as (a2 & -> & Ha2).
    assert (∀ res0 : option (result (list B)),
              (res0, (w ++ a1) ++ a2) = (res, w') →
              ∃ added, w' = w ++ added ∧ no_dump added) as Hend.
    { intros res0 [= <- <-]. exists (a1 ++ a2).
      split; [by rewrite app_assoc|by apply no_dump_app]. }
    destruct r2 as [[ys|e]|]; [rewrite IO_ret_run|..]; apply Hend.
Qed.

Lemma mapM_IO_Forall2 {A B} (f : A → IO B) (R : A → B → Prop) l w ys w' :
  (∀ x w y w', f x w = (Some (Returns y), w') → R x y) →
  mapM_IO f l w = (Some (Returns ys), w') →
  Forall2 R l ys.
Proof.
  intros Hf. revert w ys w'. induction l as [|x l IH]; intros w ys w'; simpl.
  - rewrite IO_ret_run. intros [= <- <-]. constructor.
  - rewrite IO_bind_run. destruct (f x w) as [[[y|e]|] w1] eqn:H1; [|done..].
    rewrite IO_bind_run. destruct (mapM_IO f l w1) as [[[zs|e]|] w2] eqn:H2; [|done..].
    rewrite IO_ret_run. intros [= <- <-]. constructor; eauto.
Qed.

Lemma process_product_rewritten fuel product w product' w' :
  process_product post py_int sleep_limit fuel product w = (Some (Returns product'), w') →
  rewritten product product'.
Proof.
  unfold process_product, rewritten.
  destruct (decide (field product "title" = "")).
  { rewrite IO_ret_run. by intros [= <- <-]. }
  rewrite IO_bind_run.
  destruct (call_gemini post py_int sleep_limit fuel _ w) as [[[new_desc|e]|] w1]; [|done..].
  rewrite IO_bind_run. unfold time_sleep_half at 1. rewrite IO_bind_run.
  destruct (call_gemini post py_int sleep_limit fuel (TYPE_PROMPT_TEMPLATE _ _ _) _)
    as [[[answer|e]|] w2]; [|done..].
  rewrite IO_bind_run. unfold time_sleep_half. rewrite IO_ret_run.
  intros [= <- <-]. split; [|split].
  - intros k Hd Ht. by rewrite !lookup_insert_ne.
  - rewrite lookup_insert_ne by done. rewrite lookup_insert_eq. eauto.
  - rewrite lookup_insert_eq. eexists. split; [done|].
    destruct (decide (lower answer ∈ PRODUCT_TYPES)); [done|].
    unfold PRODUCT_TYPES. rewrite !elem_of_cons. auto.
Qed.

Lemma process_file_run fuel filepath data w res w' :
  process_file post py_int sleep_limit fuel filepath data w = (res, w') →
  ∃ added, no_dump added ∧
    match res with
    | Some (Returns _) =>
        ∃ data', w' = w ++ added ++ [Dump filepath data'] ∧ Forall2 rewritten data data'
    | _ => w' = w ++ added
    end.
Proof.
  unfold process_file. rewrite IO_bind_run.
  destruct (mapM_IO (process_product post py_int sleep_limit fuel) data w) as [r1 w1] eqn:H1.
  destruct (mapM_IO_no_dump _ _ _ _ _ (process_product_no_dump fuel) H1)
    as (added & -> & Hadded).
  destruct r1 as [[data'|e]|].
  - unfold dump. intros [= <- <-]. exists added. split; [done|].
    exists data'. split; [by rewrite app_assoc|].
    eapply mapM_IO_Forall2; [|exact H1]. apply process_product_rewritten.
  - intros [= <- <-]. by exists added.
  - intros [= <- <-]. by exists added.
Qed.




End RewriterFacts.

Lemma rewritten_fields (ids : list string) (product product' : item) :
  "description" ∉ ids → "type" ∉ ids →
  rewritten product product' →
  field product "title" ≠ "" → has_fields ids product →
  has_fields (ids ++ ["title"; "description"; "type"]) product' ∧
  ∀ k, k ∈ ids → field product' k = field product k.
Proof.
  intros Hd Ht Hrw Htitle Hids. unfold rewritten in Hrw.
  destruct (decide (field product "title" = "")); [done|].
  destruct Hrw as (Hkeep & Hdesc & t & Htype & _).
  assert (∀ k, k ∈ ids → product' !! k = product !! k) as Hsame.
  { intros k Hk. apply Hkeep; intros ->; done. }
  split.
  - apply Forall_app. split.
    + apply Forall_forall. intros k Hk. rewrite (Hsame k Hk).
      unfold has_fields in Hids. rewrite Forall_forall in Hids. by apply Hids.
    + apply Forall_cons. split; [|apply Forall_cons; split; [done|]].
      * rewrite Hkeep by done. unfold field in Htitle.
        destruct (product !! "title"); [eauto|done].
      * apply Forall_singleton. rewrite Htype. eauto.
  - intros k Hk. unfold field. by rewrite (Hsame k Hk).
Qed.

Lemma last_snoc_app {A} (l1 l2 : list A) x : last (l1 ++ l2 ++ [x]) = Some x.
Proof. by rewrite app_assoc, last_snoc. Qed.

Section RewriterTheorems.
Variable post : list action → string → exception + response.
Variable py_int : string → option Z.
Variable sleep_limit : Z.


(** X9: a response with status 429 never ends [call_gemini] and never
    makes it raise, whatever its body is: after the request the call sleeps
    once, for a whole number of seconds between 0 and the limit of
    [time.sleep], and goes on with the next turn of its loop. *)
Theorem call_gemini_rate_limited fuel prompt w r :
  (30 ≤ sleep_limit)%Z →
  post w prompt = inr r → status_code r = 429%Z →
  ∃ n, (0 ≤ n ≤ sleep_limit)%Z ∧
    call_gemini post py_int sleep_limit (S fuel) prompt w
    = call_gemini post py_int sleep_limit fuel prompt (w ++ [Post prompt; SleepSeconds n]).
Proof. apply rate_limited_turn. Qed.

(** X10: if the endpoint answers with status 429 only while fewer than [N]
    requests have been made, a call of [call_gemini] with more than
    [N - posts w] turns to spend ends: it returns or raises, after at least
    one and at most [N + 1 - posts w] requests (one, when [N] requests had
    been made before), and all it has done is to post its prompt and to
    sleep for whole numbers of seconds that [time.sleep] accepts. *)
Theorem call_gemini_finishes N prompt fuel w :
  (30 ≤ sleep_limit)%Z →
  (∀ w' r, N ≤ posts w' → post w' prompt = inr r → status_code r ≠ 429%Z) →
  0 < fuel → N < posts w + fuel →
  ∃ res added,
    call_gemini post py_int sleep_limit fuel prompt w = (Some res, w ++ added) ∧
    Forall (gemini_action sleep_limit prompt) added ∧
    0 < posts added ∧ posts w + posts added ≤ posts w `max` N + 1.
Proof.
  intros H30 HN Hfuel Hlt.
  destruct (call_gemini_finishes_from post py_int sleep_limit N prompt fuel w
              H30 HN Hfuel Hlt) as (res & w' & Hrun & Hlo & Hhi).
  destruct (call_gemini_extends _ _ _ _ _ _ _ _ Hrun) as (added & -> & Hadded).
  exists res, added. rewrite posts_app in Hlo, Hhi.
  repeat split; [done|done|lia|lia].
Qed.

(** X11: [call_gemini] has no bound on its retries.  Against an endpoint
    that answers every request with status 429 it never returns and never
    raises: however many turns of the loop it is given, it uses them all,
    with one request in each. *)
Theorem call_gemini_never_gives_up prompt fuel w :
  (30 ≤ sleep_limit)%Z →
  (∀ w', ∃ r, post w' prompt = inr r ∧ status_code r = 429%Z) →
  ∃ w', call_gemini post py_int sleep_limit fuel prompt w = (None, w') ∧
        posts w' = posts w + fuel.
Proof. apply call_gemini_busy. Qed.


(** X13: when [process_file] returns, the last thing it has done is to
    write the file, with as many products as it read and in their order: a
    product with no title (or an empty one) as it was, and every other
    product with a description, with a type that is one of the five of the
    prompt, and with every other field as it was. *)
Theorem process_file_rewrites fuel filepath data w w' :
  process_file post py_int sleep_limit fuel filepath data w = (Some (Returns ()), w') →
  ∃ data', last w' = Some (Dump filepath data') ∧
           length data' = length data ∧
           Forall2 rewritten data data'.
Proof.
  intros Hrun. destruct (process_file_run _ _ _ _ _ _ _ _ _ Hrun)
    as (added & _ & data' & -> & Hrw).
  exists data'. split; [apply last_snoc_app|]. split; [|done].
  symmetry. by eapply Forall2_length.
Qed.


(** X15: the rewriter leaves its catalogs fit for the matcher.  If every
    source product has a title, a ["japfa_id"] and a ["category_name"] and
    every target product a title, a ["licious_id"] and a
    ["category_name"], and both runs of [process_file] return, then
    [match_products] on the two catalogs they wrote raises no [KeyError]
    for any match type: with a provider that answers every call it returns
    a report, whose keys are the ids of the products read. *)
Theorem rewritten_catalogs_match (STOP_WORDS : gset string)
    (provider : list event → string → provider_error + list float) d
    fuel source_path target_path source target w0 w1 w2 match_type wm :
  provider_total provider d →
  Forall (λ p, field p "title" ≠ "" ∧ has_fields ["japfa_id"; "category_name"] p) source →
  Forall (λ p, field p "title" ≠ "" ∧ has_fields ["licious_id"; "category_name"] p) target →
  process_file post py_int sleep_limit fuel source_path source w0 = (Some (Returns ()), w1) →
  process_file post py_int sleep_limit fuel target_path target w1 = (Some (Returns ()), w2) →
  ∃ source' target' (rep : report) wm',
    last w1 = Some (Dump source_path source') ∧
    last w2 = Some (Dump target_path target') ∧
    match_products STOP_WORDS provider source' target' match_type wm = (Ok rep, wm') ∧
    dom rep = list_to_set ((λ it : item, field it "japfa_id") <$> source).
Proof.
  intros Hp Hs Ht Hrun1 Hrun2.
  destruct (process_file_run _ _ _ _ _ _ _ _ _ Hrun1) as (a1 & _ & source' & -> & Hrw1).
  destruct (process_file_run _ _ _ _ _ _ _ _ _ Hrun2) as (a2 & _ & target' & -> & Hrw2).
  assert (Forall (has_fields source_fields) source' ∧
          (λ it : item, field it "japfa_id") <$> source'
          = (λ it : item, field it "japfa_id") <$> source) as [Hsf Hids].
  { clear Hrun1 Hrun2. induction Hrw1 as [|p p' l l' Hpp _ IH]; [by split|].
    apply Forall_cons in Hs as [[Htitle Hf] Hs].
    destruct (IH Hs) as [IH1 IH2].
    destruct (rewritten_fields ["japfa_id"; "category_name"] p p') as [Hf' Hsame];
      [rewrite !elem_of_cons, elem_of_nil; intuition congruence..|done|done|done|].
    split.
    - apply Forall_cons. split; [|done].
      eapply has_fields_sub; [|exact Hf'].
      intros k. unfold source_fields. rewrite !elem_of_cons. simpl.
      rewrite !elem_of_cons. tauto.
    - rewrite !fmap_cons, IH2, Hsame; [done|]. rewrite !elem_of_cons. auto. }
  assert (Forall (has_fields target_fields) target') as Htf.
  { clear Hrun1 Hrun2. induction Hrw2 as [|p p' l l' Hpp _ IH]; [done|].
    apply Forall_cons in Ht as [[Htitle Hf] Ht].
    destruct (rewritten_fields ["licious_id"; "category_name"] p p') as [Hf' _];
      [rewrite !elem_of_cons, elem_of_nil; intuition congruence..|done|done|done|].
    apply Forall_cons. split; [|by apply IH].
    eapply has_fields_sub; [|exact Hf'].
    intros k. unfold target_fields. rewrite !elem_of_cons. simpl.
    rewrite !elem_of_cons. tauto. }
  destruct (match_products_general STOP_WORDS provider d source' target' match_type wm
              Hp Hsf Htf) as (rep & Hrep & Hdom & _).
  exists source', target', rep. eexists.
  split; [apply last_snoc_app|]. split; [apply last_snoc_app|].
  split; [exact Hrep|]. by rewrite Hdom, Hids.
Qed.

End RewriterTheorems.

(** ** The rewriter on concrete endpoints *)

Lemma sleep_limit_64_30 : (30 ≤ sleep_limit_64)%Z.
Proof. unfold sleep_limit_64. lia. Qed.

Lemma endpoint_recovering_recovers prompt w' r :
  2 ≤ posts w' → endpoint_recovering w' prompt = inr r → status_code r ≠ 429%Z.
Proof.
  intros Hw. unfold endpoint_recovering.
  destruct (decide (posts w' < 2)); [lia|]. by intros [= <-].
Qed.

Lemma call_gemini_rate_limited_witness :
  ∃ n, (0 ≤ n ≤ sleep_limit_64)%Z ∧
    call_gemini endpoint_recovering int_of_digits sleep_limit_64 (S 2) "describe" []
    = call_gemini endpoint_recovering int_of_digits sleep_limit_64 2 "describe"
        ([] ++ [Post "describe"; SleepSeconds n]).
Proof.
  apply (call_gemini_rate_limited endpoint_recovering int_of_digits sleep_limit_64
           2 "describe" [] (retry_response "-5s")).
  - apply sleep_limit_64_30.
  - reflexivity.
  - reflexivity.
Defined.

Lemma call_gemini_finishes_witness :
  ∃ res added,
    call_gemini endpoint_recovering int_of_digits sleep_limit_64 3 "describe" []
      = (Some res, [] ++ added) ∧
    Forall (gemini_action sleep_limit_64 "describe") added ∧
    0 < posts added ∧ posts [] + posts added ≤ posts [] `max` 2 + 1.
Proof.
  apply (call_gemini_finishes endpoint_recovering int_of_digits sleep_limit_64
           2 "describe" 3 []).
  - apply sleep_limit_64_30.
  - apply endpoint_recovering_recovers.
  - lia.
  - simpl. lia.
Defined.

Lemma call_gemini_never_gives_up_witness :
  ∃ w', call_gemini endpoint_busy int_of_digits sleep_limit_64 5 "describe" [] = (None, w') ∧
        posts w' = posts [] + 5.
Proof.
  apply (call_gemini_never_gives_up endpoint_busy int_of_digits sleep_limit_64
           "describe" 5 []).
  - apply sleep_limit_64_30.
  - intros w'. exists (retry_response "0s"). by split.
Defined.


Lemma process_file_rewrites_witness :
  ∃ data',
    last (process_file endpoint_recovering int_of_digits sleep_limit_64 3 "japfa.json"
            [product_P1; product_untitled] []).2
      = Some (Dump "japfa.json" data') ∧
    length data' = length [product_P1; product_untitled] ∧
    Forall2 rewritten [product_P1; product_untitled] data'.
Proof.
  apply (process_file_rewrites endpoint_recovering int_of_digits sleep_limit_64
           3 "japfa.json" [product_P1; product_untitled] []).
  vm_compute. reflexivity.
Defined.


Lemma rewritten_catalogs_match_witness :
  ∃ source' target' (rep : report) wm',
    last (process_file endpoint_recovering int_of_digits sleep_limit_64 3 "japfa.json"
            [product_P1] []).2 = Some (Dump "japfa.json" source') ∧
    last (process_file endpoint_recovering int_of_digits sleep_limit_64 3 "licious.json"
            [product_T1]
            (process_file endpoint_recovering int_of_digits sleep_limit_64 3 "japfa.json"
               [product_P1] []).2).2 = Some (Dump "licious.json" target') ∧
    match_products ∅ constant_provider source' target' "weighted" [] = (Ok rep, wm') ∧
    dom rep = list_to_set ((λ it : item, field it "japfa_id") <$> [product_P1]).
Proof.
  apply (rewritten_catalogs_match endpoint_recovering int_of_digits sleep_limit_64
           ∅ constant_provider 2 3 "japfa.json" "licious.json" [product_P1] [product_T1] []).
  - apply constant_provider_total.
  - apply Forall_cons_2; [|apply Forall_nil_2].
    split; [by vm_compute|by apply has_fields_check].
  - apply Forall_cons_2; [|apply Forall_nil_2].
    split; [by vm_compute|by apply has_fields_check].
  - vm_compute. reflexivity.
  - vm_compute. reflexivity.
Defined.

(** * The dashboards *)

Lemma leb_not_nan a b : (a <=? b)%float = true → is_nan a = false ∧ is_nan b = false.
Proof.
  rewrite leb_spec. intros Hle. split; apply is_nan_false; intros Hn;
    rewrite Hn in Hle; unfold SFleb in Hle; simpl in Hle; [done|].
  by destruct (Prim2SF a) as [[]|[]| |[] m e].
Qed.

Lemma leb_trans a b c : (a <=? b)%float = true → (b <=? c)%float = true →
  (a <=? c)%float = true.
Proof.
  intros Hab Hbc.
  destruct (leb_not_nan _ _ Hab) as [Ha Hb]. destruct (leb_not_nan _ _ Hbc) as [_ Hc].
  rewrite <- np_le_leb in Hab, Hbc |- * by done.
  unfold np_le in *. apply negb_true_iff in Hab, Hbc. apply negb_true_iff.
  by eapply np_le_trans.
Qed.

Lemma outcome_bind_Ok {A B} (m : outcome A) (f : A → outcome B) b :
  m ≫= f = Ok b → ∃ a, m = Ok a ∧ f a = Ok b.
Proof. destruct m as [a|e]; [eauto|done]. Qed.

Lemma sublist_filter_impl {A} (P Q : A → Prop) `{∀ x, Decision (P x)}
    `{∀ x, Decision (Q x)} (l : list A) :
  (∀ x, P x → Q x) → filter P l `sublist_of` filter Q l.
Proof.
  intros HPQ. induction l as [|x l IH]; [done|].
  rewrite !filter_cons. destruct (decide (P x)) as [HP|HP].
  - rewrite decide_True by auto. by apply sublist_skip.
  - destruct (decide (Q x)); [by apply sublist_cons|done].
Qed.

Section DashboardFacts.
Variable py_float : string → option float.

Lemma meets_threshold_mono t1 t2 m :
  (t1 <=? t2)%float = true →
  meets_threshold py_float t2 m = Ok true → meets_threshold py_float t1 m = Ok true.
Proof.
  intros Ht. unfold meets_threshold.
  destruct (confidence_value py_float (me_confidence m)) as [x|e]; [|done].
  simpl. intros [= Hx]. f_equal. by eapply leb_trans.
Qed.

(** [any] returns when the comprehension does, and says whether the
    comprehension keeps a match. *)
Lemma any_meets_filter matches t l :
  filter_matches py_float matches t = Ok l →
  any_meets py_float t matches = Ok (bool_decide (l ≠ [])).
Proof.
  revert l. induction matches as [|m rest IH]; intros l; simpl.
  - by intros [= <-].
  - intros (b & Hb & (ms & Hms & [= <-])%outcome_bind_Ok)%outcome_bind_Ok.
    rewrite Hb. simpl. destruct b; [done|]. by apply IH.
Qed.

Lemma any_meets_Ok t matches b :
  any_meets py_float t matches = Ok b →
  b = true ↔ ∃ m, m ∈ matches ∧ meets_threshold py_float t m = Ok true.
Proof.
  induction matches as [|m rest IH]; simpl.
  - intros [= <-]. split; [done|]. by intros (m & ?%elem_of_nil & _).
  - intros ([] & Hb & Hrest)%outcome_bind_Ok.
    + injection Hrest as <-. split; [|done]. intros _. exists m. split; [left|done].
    + rewrite (IH Hrest). split.
      * intros (m' & Hin & Hm'). exists m'. split; [by right|done].
      * intros (m' & [-> | Hin]%elem_of_cons & Hm'); [congruence|eauto].
Qed.

Lemma categorize_loop_Ok items t wm wo wm' wo' :
  categorize_loop py_float items t wm wo = Ok (wm', wo') →
  ∃ a b, wm' = wm ++ a ∧ wo' = wo ++ b ∧
    a ++ b ≡ₚ listed <$> items ∧
    a `sublist_of` listed <$> items ∧ b `sublist_of` listed <$> items ∧
    Forall (λ q, ∃ p, p ∈ items ∧ q = listed p ∧
                      any_meets py_float t (re_matches p.2) = Ok true) a ∧
    Forall (λ q, ∃ p, p ∈ items ∧ q = listed p ∧
                      any_meets py_float t (re_matches p.2) = Ok false) b.
Proof.
  revert wm wo. induction items as [|[product_id product_data] rest IH]; intros wm wo; simpl.
  - intros [= <- <-]. exists [], []. by rewrite !app_nil_r.
  - intros (flag & Hflag & Hrest)%outcome_bind_Ok.
    assert (∀ q (P : string * report_entry → Prop),
              (∃ p, p ∈ rest ∧ q = listed p ∧ P p) →
              ∃ p, p ∈ (product_id, product_data) :: rest ∧ q = listed p ∧ P p) as Hweak.
    { intros q P (p & Hin & Hq). exists p. split; [by right|done]. }
    destruct flag; destruct (IH _ _ Hrest) as (a & b & -> & -> & Hperm & Hsa & Hsb & Ha & Hb).
    + exists ((product_id, re_japfa_product product_data) :: a), b.
      split; [by rewrite <- app_assoc|]. split; [done|].
      split; [simpl; by rewrite Hperm|].
      split; [by apply sublist_skip|]. split; [by apply sublist_cons|].
      split.
      * constructor.
        -- exists (product_id, product_data). split; [left|done].
        -- eapply Forall_impl; [exact Ha|]. intros q Hq. by apply Hweak in Hq.
      * eapply Forall_impl; [exact Hb|]. intros q Hq. by apply Hweak in Hq.
    + exists a, ((product_id, re_japfa_product product_data) :: b).
      split; [done|]. split; [by rewrite <- app_assoc|].
      split; [simpl; by rewrite <- Permutation_middle, Hperm|].
      split; [by apply sublist_cons|]. split; [by apply sublist_skip|].
      split.
      * eapply Forall_impl; [exact Ha|]. intros q Hq. by apply Hweak in Hq.
      * constructor.
        -- exists (product_id, product_data). split; [left|done].
        -- eapply Forall_impl; [exact Hb|]. intros q Hq. by apply Hweak in Hq.
Qed.

Lemma meets_threshold_raise t m e :
  meets_threshold py_float t m = Raise e →
  e = ValueError ∧ py_float (strip_percent (me_confidence m)) = None.
Proof.
  unfold meets_threshold, confidence_value.
  destruct (py_float (strip_percent (me_confidence m))); simpl; [done|].
  by intros [= <-].
Qed.

Lemma filter_matches_raise matches t e :
  filter_matches py_float matches t = Raise e →
  e = ValueError ∧
  ∃ m, m ∈ matches ∧ py_float (strip_percent (me_confidence m)) = None.
Proof.
  induction matches as [|m rest IH]; simpl; [done|].
  destruct (meets_threshold py_float t m) as [b|e'] eqn:Hm; simpl.
  - destruct (filter_matches py_float rest t) as [ms|e'']; simpl; [done|].
    intros [= ->]. destruct IH as (-> & m' & Hin & Hm'); [done|].
    split; [done|]. exists m'. split; [by right|done].
  - intros [= ->]. destruct (meets_threshold_raise _ _ _ Hm) as [-> Hnone].
    split; [done|]. exists m. split; [left|done].
Qed.

Lemma increment_counts distribution k :
  has_counts distribution → k ≤ 3 →
  ∃ distribution',
    increment distribution k = Ok distribution' ∧
    has_counts distribution' ∧ dom distribution' = dom distribution ∧
    distribution_sum distribution' = distribution_sum distribution + 1 ∧
    default 0 (distribution' !! 0)
    = default 0 (distribution !! 0) + (if decide (k = 0) then 1 else 0).
Proof.
  intros ([n0 H0] & [n1 H1] & [n2 H2] & [n3 H3]) Hk. unfold increment.
  assert (∀ j n, distribution !! j = Some n →
            dom (<[j := n + 1]> distribution) = dom distribution) as Hdom.
  { intros j n Hj. rewrite dom_insert_L. apply subseteq_union_1_L.
    apply singleton_subseteq_l, elem_of_dom. eauto. }
  destruct k as [|[|[|[|k]]]]; [| | | |lia].
  - rewrite H0. eexists. split; [done|]. unfold has_counts, distribution_sum.
    rewrite lookup_insert_eq, !lookup_insert_ne, H0, H1, H2, H3 by done.
    repeat split; eauto. simpl. lia.
  - rewrite H1. eexists. split; [done|]. unfold has_counts, distribution_sum.
    rewrite lookup_insert_eq, !lookup_insert_ne, H0, H1, H2, H3 by done.
    repeat split; eauto. simpl. lia.
  - rewrite H2. eexists. split; [done|]. unfold has_counts, distribution_sum.
    rewrite lookup_insert_eq, !lookup_insert_ne, H0, H1, H2, H3 by done.
    repeat split; eauto. simpl. lia.
  - rewrite H3. eexists. split; [done|]. unfold has_counts, distribution_sum.
    rewrite lookup_insert_eq, !lookup_insert_ne, H0, H1, H2, H3 by done.
    repeat split; eauto. simpl. lia.
Qed.

Lemma distribution_loop_Ok items t distribution distribution' :
  has_counts distribution →
  distribution_loop py_float items t distribution = Ok distribution' →
  has_counts distribution' ∧ dom distribution' = dom distribution ∧
  distribution_sum distribution' = distribution_sum distribution + length items ∧
  ∃ a b, (∀ wm wo, categorize_loop py_float items t wm wo = Ok (wm ++ a, wo ++ b)) ∧
         length a + length b = length items ∧
         default 0 (distribution' !! 0) = default 0 (distribution !! 0) + length b.
Proof.
  revert distribution.
  induction items as [|[product_id product_data] rest IH]; intros distribution Hd; simpl.
  - intros [= <-]. split; [done|]. split; [done|]. split; [lia|]. exists [], [].
    split; [intros; by rewrite !app_nil_r|]. simpl. lia.
  - intros (ms & Hms & Hrest)%outcome_bind_Ok.
    set (k := if decide (3 < length ms) then 3 else length ms) in Hrest.
    assert (k ≤ 3) as Hk by (unfold k; case_decide; lia).
    destruct (increment_counts distribution k Hd Hk) as (d1 & Hinc & Hd1 & Hdom1 & Hsum1 & H01).
    rewrite Hinc in Hrest. simpl in Hrest.
    destruct (IH d1 Hd1 Hrest) as (Hd' & Hdom' & Hsum' & a & b & Hcat & Hlen & H0').
    split; [done|]. split; [congruence|]. split; [lia|].
    rewrite (any_meets_filter _ _ _ Hms).
    destruct ms as [|m ms'].
    + exists a, ((product_id, re_japfa_product product_data) :: b).
      split; [|split].
      * intros wm wo. rewrite bool_decide_false by (intros ?; done). simpl.
        rewrite Hcat. by rewrite <- app_assoc.
      * simpl. lia.
      * rewrite H0', H01. unfold k. simpl. lia.
    + exists ((product_id, re_japfa_product product_data) :: a), b.
      split; [|split].
      * intros wm wo. rewrite bool_decide_true by done. simpl.
        rewrite Hcat. by rewrite <- app_assoc.
      * simpl. lia.
      * rewrite H0', H01. unfold k. simpl. repeat case_decide; lia.
Qed.

Lemma distribution_loop_raise items t distribution e :
  has_counts distribution →
  distribution_loop py_float items t distribution = Raise e →
  e = ValueError ∧
  ∃ p m, p ∈ items ∧ m ∈ re_matches p.2 ∧
         py_float (strip_percent (me_confidence m)) = None.
Proof.
  revert distribution.
  induction items as [|[product_id product_data] rest IH]; intros distribution Hd; simpl;
    [done|].
  destruct (filter_matches py_float (re_matches product_data) t) as [ms|e'] eqn:Hms; simpl.
  - set (k := if decide (3 < length ms) then 3 else length ms).
    assert (k ≤ 3) as Hk by (unfold k; case_decide; lia).
    destruct (increment_counts distribution k Hd Hk) as (d1 & -> & Hd1 & _). simpl.
    intros Hrest. destruct (IH d1 Hd1 Hrest) as (-> & p & m & Hp & Hm & Hnone).
    split; [done|]. exists p, m. split; [by right|done].
  - intros [= ->]. destruct (filter_matches_raise _ _ _ Hms) as (-> & m & Hm & Hnone).
    split; [done|]. exists (product_id, product_data), m. split; [left|done].
Qed.

Lemma add_matched_Ok matches t matched matched' :
  add_matched py_float matches t matched = Ok matched' →
  ∀ title, title ∈ matched' ↔
    title ∈ matched ∨
    ∃ m, m ∈ matches ∧ me_title m = title ∧ meets_threshold py_float t m = Ok true.
Proof.
  revert matched. induction matches as [|m rest IH]; intros matched; simpl.
  - intros [= <-] title. split; [auto|]. by intros [? | (m & ?%elem_of_nil & _)].
  - intros (b & Hb & Hrest)%outcome_bind_Ok title. rewrite (IH _ Hrest title).
    destruct b.
    + rewrite elem_of_union, elem_of_singleton. split.
      * intros [[? | ->] | (m' & Hin & Ht & Hm')]; [auto| |].
        -- right. exists m. split; [left|done].
        -- right. exists m'. split; [by right|done].
      * intros [? | (m' & [-> | Hin]%elem_of_cons & Ht & Hm')]; [auto|auto|].
        right. eauto.
    + split.
      * intros [? | (m' & Hin & Ht & Hm')]; [auto|].
        right. exists m'. split; [by right|done].
      * intros [? | (m' & [-> | Hin]%elem_of_cons & Ht & Hm')]; [auto|congruence|].
        right. eauto.
Qed.

Lemma matched_loop_Ok values t matched matched' :
  matched_loop py_float values t matched = Ok matched' →
  ∀ title, title ∈ matched' ↔
    title ∈ matched ∨
    ∃ entry m, entry ∈ values ∧ m ∈ re_matches entry ∧ me_title m = title ∧
               meets_threshold py_float t m = Ok true.
Proof.
  revert matched. induction values as [|entry rest IH]; intros matched; simpl.
  - intros [= <-] title. split; [auto|]. by intros [? | (e & m & ?%elem_of_nil & _)].
  - intros (matched1 & H1 & Hrest)%outcome_bind_Ok title.
    rewrite (IH _ Hrest title), (add_matched_Ok _ _ _ _ H1 title). split.
    + intros [[Hin | (m & Hin & Ht & Hm)] | (e & m & He & Hin & Ht & Hm)].
      * by left.
      * right. exists entry, m. split; [left|done].
      * right. exists e, m. split; [by right|done].
    + intros [Hin | (e & m & He & Hin & Ht & Hm)]; [by left; left|].
      apply elem_of_cons in He as [-> | He].
      * left. right. eauto.
      * right. eauto 10.
Qed.

Lemma unmatched_loop_Ok licious_data matched unmatched res :
  unmatched_loop licious_data matched unmatched = Ok res →
  res = unmatched ++ filter (λ product : item, field product "title" ∉ matched) licious_data.
Proof.
  revert unmatched. induction licious_data as [|product rest IH]; intros unmatched; simpl.
  - intros [= <-]. by rewrite app_nil_r.
  - intros (title & Ht & Hrest)%outcome_bind_Ok.
    unfold getitem in Ht. destruct (product !! "title") as [t|] eqn:Hp; [|done].
    injection Ht as ->. rewrite (IH _ Hrest), filter_cons.
    unfold field. rewrite Hp. simpl. destruct (decide (title ∈ matched)).
    + by rewrite decide_False by auto.
    + rewrite decide_True by done. by rewrite <- app_assoc.
Qed.

Lemma get_unmatched_products_Ok weighted_matches licious_data t res :
  get_unmatched_products py_float weighted_matches licious_data t = Ok res →
  ∃ matched : gset string,
    res = filter (λ product : item, field product "title" ∉ matched) licious_data ∧
    ∀ title, title ∈ matched ↔
      ∃ p m, p ∈ weighted_matches ∧ m ∈ re_matches p.2 ∧ me_title m = title ∧
             meets_threshold py_float t m = Ok true.
Proof.
  unfold get_unmatched_products.
  intros (matched & Hm & Hres)%outcome_bind_Ok.
  exists matched. split; [by rewrite (unmatched_loop_Ok _ _ _ _ Hres)|].
  intros title. rewrite (matched_loop_Ok _ _ _ _ Hm title). split.
  - intros [?%elem_of_empty | (entry & m & He & Hrest)]; [done|].
    apply list_elem_of_fmap in He as (p & -> & Hp). eauto.
  - intros (p & m & Hp & Hrest). right. exists p.2, m. split; [|done].
    apply list_elem_of_fmap. eauto.
Qed.

End DashboardFacts.

Section DashboardTheorems.
Variable py_float : string → option float.

(** X16: [categorize_products] splits the products of the report in two:
    every product is in exactly one of the two lists, both in the order of
    the report; a product is listed as having matches when one of its
    matches has a confidence that parses and is at least the threshold,
    and as having none when no match of it does. *)
Theorem categorize_products_partition weighted_matches threshold
    products_with_matches products_without_matches :
  categorize_products py_float weighted_matches threshold
  = Ok (products_with_matches, products_without_matches) →
  products_with_matches ++ products_without_matches ≡ₚ listed <$> weighted_matches ∧
  products_with_matches `sublist_of` listed <$> weighted_matches ∧
  products_without_matches `sublist_of` listed <$> weighted_matches ∧
  Forall (λ q, ∃ p, p ∈ weighted_matches ∧ q = listed p ∧
                    ∃ m, m ∈ re_matches p.2 ∧
                         meets_threshold py_float threshold m = Ok true)
    products_with_matches ∧
  Forall (λ q, ∃ p, p ∈ weighted_matches ∧ q = listed p ∧
                    ∀ m, m ∈ re_matches p.2 →
                         meets_threshold py_float threshold m ≠ Ok true)
    products_without_matches.
Proof.
  intros Hrun. apply categorize_loop_Ok in Hrun
    as (a & b & -> & -> & Hperm & Hsa & Hsb & Ha & Hb).
  simpl. repeat split; [done|done|done| |].
  - eapply Forall_impl; [exact Ha|]. intros q (p & Hp & Hq & Hany).
    exists p. repeat split; [done|done|]. by apply (any_meets_Ok _ _ _ _ Hany).
  - eapply Forall_impl; [exact Hb|]. intros q (p & Hp & Hq & Hany).
    exists p. repeat split; [done|done|]. intros m Hm Hmeets.
    assert (false = true) as Hf; [|done].
    apply (any_meets_Ok _ _ _ _ Hany). eauto.
Qed.

(** X17: [get_match_distribution] counts every product once: when it
    returns, the total is the number of products of the report, the
    distribution has the keys 0 to 3 and no other, and its four counts add
    up to the total.  It never raises [KeyError]: when it raises, it is
    [ValueError], for a confidence that [float] does not parse. *)
Theorem get_match_distribution_total weighted_matches threshold :
  match get_match_distribution py_float weighted_matches threshold with
  | Ok (distribution, total_products) =>
      total_products = length weighted_matches ∧
      dom distribution = {[ 0; 1; 2; 3 ]} ∧
      distribution_sum distribution = total_products
  | Raise e =>
      e = ValueError ∧
      ∃ p m, p ∈ weighted_matches ∧ m ∈ re_matches p.2 ∧
             py_float (strip_percent (me_confidence m)) = None
  end.
Proof.
  unfold get_match_distribution.
  assert (has_counts {[ 0 := 0; 1 := 0; 2 := 0; 3 := 0 ]}) as Hinit.
  { by repeat split; eexists. }
  destruct (distribution_loop py_float weighted_matches threshold _)
    as [distribution|e] eqn:Hloop; simpl.
  - destruct (distribution_loop_Ok _ _ _ _ _ Hinit Hloop) as (_ & Hdom & Hsum & _).
    split; [done|]. split; [|by rewrite Hsum].
    rewrite Hdom, !dom_insert_L, dom_singleton_L. apply set_eq. intros x.
    rewrite !elem_of_union. tauto.
  - by eapply distribution_loop_raise.
Qed.

(** X18: the two statistics of the match page agree.  When
    [get_match_distribution] returns, [categorize_products] returns for the
    same report and threshold, the count under 0 is the number of products
    it lists as having no match, and the two lists together hold as many
    products as the total. *)
Theorem distribution_agrees_with_categories weighted_matches threshold distribution
    total_products :
  get_match_distribution py_float weighted_matches threshold
  = Ok (distribution, total_products) →
  ∃ products_with_matches products_without_matches,
    categorize_products py_float weighted_matches threshold
    = Ok (products_with_matches, products_without_matches) ∧
    distribution !! 0 = Some (length products_without_matches) ∧
    length products_with_matches + length products_without_matches = total_products.
Proof.
  unfold get_match_distribution.
  intros (d & Hloop & [= <- <-])%outcome_bind_Ok.
  assert (has_counts {[ 0 := 0; 1 := 0; 2 := 0; 3 := 0 ]}) as Hinit.
  { by repeat split; eexists. }
  destruct (distribution_loop_Ok _ _ _ _ _ Hinit Hloop)
    as (([n0 H0] & _) & _ & _ & a & b & Hcat & Hlen & Hzero).
  exists a, b. split; [apply (Hcat [] [])|]. split; [|done].
  rewrite H0 in Hzero |- *. simpl in Hzero. by rewrite Hzero.
Qed.

(** X19: [get_unmatched_products] returns products of [licious_data], in
    their order, and decides by title alone: a product is returned exactly
    when no match of any product of the report has its title and a
    confidence of at least the threshold. *)
Theorem get_unmatched_products_by_title weighted_matches licious_data threshold
    unmatched_products :
  get_unmatched_products py_float weighted_matches licious_data threshold
  = Ok unmatched_products →
  unmatched_products `sublist_of` licious_data ∧
  ∀ product : item, product ∈ unmatched_products ↔
    product ∈ licious_data ∧
    ¬ ∃ p m, p ∈ weighted_matches ∧ m ∈ re_matches p.2 ∧
             me_title m = field product "title" ∧
             meets_threshold py_float threshold m = Ok true.
Proof.
  intros (matched & -> & Hmatched)%get_unmatched_products_Ok.
  split; [apply sublist_filter|].
  intros product. rewrite list_elem_of_filter, Hmatched. tauto.
Qed.

(** X20: raising the threshold never removes a product from the unmatched
    ones: for thresholds [t1 <= t2], the products [get_unmatched_products]
    returns at [t1] are among those it returns at [t2], in the same
    order. *)
Theorem get_unmatched_products_monotone weighted_matches licious_data t1 t2
    unmatched1 unmatched2 :
  (t1 <=? t2)%float = true →
  get_unmatched_products py_float weighted_matches licious_data t1 = Ok unmatched1 →
  get_unmatched_products py_float weighted_matches licious_data t2 = Ok unmatched2 →
  unmatched1 `sublist_of` unmatched2.
Proof.
  intros Ht (matched1 & -> & H1)%get_unmatched_products_Ok
            (matched2 & -> & H2)%get_unmatched_products_Ok.
  apply sublist_filter_impl. intros product Hnot Hin. apply Hnot.
  apply H1. apply H2 in Hin as (p & m & Hp & Hm & Htitle & Hmeets).
  exists p, m. repeat split; [done|done|done|]. by eapply meets_threshold_mono.
Qed.

End DashboardTheorems.

(** ** The dashboards on a concrete report *)

Lemma categorize_products_partition_witness :
  [("J1", re_japfa_product (entry_of "Chicken Breast Boneless" []))]
  ++ [("J2", re_japfa_product (entry_of "Chicken Wings" []))]
    ≡ₚ listed <$> sample_report ∧
  [("J1", re_japfa_product (entry_of "Chicken Breast Boneless" []))]
    `sublist_of` listed <$> sample_report ∧
  [("J2", re_japfa_product (entry_of "Chicken Wings" []))]
    `sublist_of` listed <$> sample_report ∧
  Forall (λ q, ∃ p, p ∈ sample_report ∧ q = listed p ∧
                    ∃ m, m ∈ re_matches p.2 ∧
                         meets_threshold float_of_confidence 70 m = Ok true)
    [("J1", re_japfa_product (entry_of "Chicken Breast Boneless" []))] ∧
  Forall (λ q, ∃ p, p ∈ sample_report ∧ q = listed p ∧
                    ∀ m, m ∈ re_matches p.2 →
                         meets_threshold float_of_confidence 70 m ≠ Ok true)
    [("J2", re_japfa_product (entry_of "Chicken Wings" []))].
Proof.
  apply (categorize_products_partition float_of_confidence sample_report 70).
  vm_compute. reflexivity.
Defined.

Lemma distribution_agrees_with_categories_witness :
  ∃ products_with_matches products_without_matches,
    categorize_products float_of_confidence sample_report 70
    = Ok (products_with_matches, products_without_matches) ∧
    ({[ 0 := 1; 1 := 1; 2 := 0; 3 := 0 ]} : gmap nat nat) !! 0
    = Some (length products_without_matches) ∧
    length products_with_matches + length products_without_matches = 2.
Proof.
  apply (distribution_agrees_with_categories float_of_confidence sample_report 70).
  vm_compute. reflexivity.
Defined.

Lemma get_unmatched_products_by_title_witness :
  [licious_L2] `sublist_of` [licious_L1; licious_L2] ∧
  ∀ product : item, product ∈ [licious_L2] ↔
    product ∈ [licious_L1; licious_L2] ∧
    ¬ ∃ p m, p ∈ sample_report ∧ m ∈ re_matches p.2 ∧
             me_title m = field product "title" ∧
             meets_threshold float_of_confidence 70 m = Ok true.
Proof.
  apply (get_unmatched_products_by_title float_of_confidence sample_report
           [licious_L1; licious_L2] 70).
  vm_compute. reflexivity.
Defined.

Lemma get_unmatched_products_monotone_witness :
  [licious_L2] `sublist_of` [licious_L1; licious_L2].
Proof.
  apply (get_unmatched_products_monotone float_of_confidence sample_report
           [licious_L1; licious_L2] 70 95).
  - vm_compute. reflexivity.
  - vm_compute. reflexivity.
  - vm_compute. reflexivity.
Defined.

(** ** From the matcher to the dashboards *)

Lemma rev_app_snoc s c acc :
  String.rev_app (s +:+ String c "") acc = String c (String.rev_app s acc).
Proof.
  revert acc. induction s as [|a s IH]; intros acc; [done|].
  rewrite append_cons. simpl. by rewrite IH.
Qed.

Lemma rev_app_rev_app s a b :
  String.rev_app (String.rev_app s a) b = String.rev_app a (s +:+ b).
Proof.
  revert a b. induction s as [|c s IH]; intros a b; [done|].
  simpl. by rewrite IH.
Qed.

Lemma string_forall_rev_app P s acc :
  string_forall P (String.rev_app s acc) = string_forall P s && string_forall P acc.
Proof.
  revert acc. induction s as [|c s IH]; intros acc; [done|].
  simpl. rewrite IH. simpl. destruct (P c), (string_forall P s); simpl; auto.
Qed.

Lemma lstrip_percent_fixed s :
  string_forall not_percent s = true → lstrip_percent s = s.
Proof.
  destruct s as [|c s]; [done|]. simpl. intros [Hc _]%andb_true_iff.
  unfold not_percent in Hc. apply bool_decide_eq_true in Hc. by rewrite decide_False.
Qed.

(** [strip('%')] takes off exactly the sign that was put behind a text
    that holds none. *)
Lemma strip_percent_app f :
  string_forall not_percent f = true → strip_percent (f +:+ "%") = f.
Proof.
  intros Hf. destruct f as [|c f]; [done|].
  assert (not_percent c = true) as Hc by (simpl in Hf; by apply andb_true_iff in Hf as [? _]).
  unfold strip_percent. rewrite append_cons.
  assert (lstrip_percent (String c (f +:+ "%")) = String c (f +:+ "%")) as ->.
  { simpl. unfold not_percent in Hc. apply bool_decide_eq_true in Hc.
    by rewrite decide_False. }
  rewrite <- append_cons. unfold String.rev. rewrite rev_app_snoc.
  assert (lstrip_percent (String "%" (String.rev_app (String c f) ""))
          = String.rev_app (String c f) "") as ->.
  { simpl. apply lstrip_percent_fixed.
    rewrite string_forall_rev_app. simpl in *.
    apply andb_true_iff in Hf as [_ ->]. by rewrite Hc. }
  rewrite rev_app_rev_app. simpl. by rewrite append_empty_r.
Qed.

Lemma is_digit_not_percent c : is_digit c = true → not_percent c = true.
Proof.
  unfold is_digit, in_range, not_percent. intros [H1 _]%andb_true_iff.
  apply bool_decide_eq_true. intros ->. done.
Qed.

Lemma format_2f_no_percent x : string_forall not_percent (format_2f x) = true.
Proof.
  unfold format_2f. destruct (Prim2SF x) as [[]|[]| |s m e]; try reflexivity.
  destruct (decimal_digits (round_hundredths m e / 100)) as [Hd _].
  rewrite !string_forall_app. simpl.
  rewrite (string_forall_impl _ _ _ is_digit_not_percent Hd).
  rewrite !is_digit_not_percent; [by destruct s| |];
    apply is_digit_digit_char.
  - apply N.mod_lt. done.
  - apply N.Div0.div_lt_upper_bound. apply N.mod_lt. done.
Qed.

(** X21: the dashboards read back the number the matcher wrote.  For every
    score, stripping the percent signs off the confidence string that
    [match_products] makes gives the two-decimal text of [score * 100]
    again, and nothing else: what [float] is given is that text. *)
Theorem strip_percent_format_confidence (py_float : string → option float) score :
  strip_percent (format_confidence score) = format_2f (score * 100)%float ∧
  confidence_value py_float (format_confidence score)
  = match py_float (format_2f (score * 100)%float) with
    | Some x => Ok x
    | None => Raise ValueError
    end.
Proof.
  assert (strip_percent (format_confidence score) = format_2f (score * 100)%float) as Hs.
  { unfold format_confidence. apply strip_percent_app, format_2f_no_percent. }
  split; [done|]. unfold confidence_value. by rewrite Hs.
Qed.

(** X22: the total of the match page counts ids, not source items.  When
    [match_products] returns a report for catalogs that have their fields
    and [get_match_distribution] returns for that report, in whatever order
    the file lists it, the total is the number of distinct ["japfa_id"]s of
    the source items; source items that share an id count once. *)
Theorem distribution_counts_distinct_ids (STOP_WORDS : gset string)
    (provider : list event → string → provider_error + list float) d
    source_items target_items match_type w (rep : report) w'
    (py_float : string → option float) (weighted_matches : matches_data)
    threshold distribution total_products :
  provider_total provider d →
  Forall (has_fields source_fields) source_items →
  Forall (has_fields target_fields) target_items →
  match_products STOP_WORDS provider source_items target_items match_type w
  = (Ok rep, w') →
  weighted_matches ≡ₚ map_to_list rep →
  get_match_distribution py_float weighted_matches threshold
  = Ok (distribution, total_products) →
  total_products
  = size (list_to_set ((λ it : item, field it "japfa_id") <$> source_items) : gset string) ∧
  total_products ≤ length source_items ∧
  distribution_sum distribution = total_products.
Proof.
  intros Hp Hsf Htf Hrun Hperm Hdist.
  destruct (match_products_general STOP_WORDS provider d source_items target_items
              match_type w Hp Hsf Htf) as (rep' & Hrun' & Hdom & Hsize & _).
  rewrite Hrun in Hrun'. injection Hrun' as <- _.
  assert (total_products = size rep) as Htotal.
  { unfold get_match_distribution in Hdist.
    apply outcome_bind_Ok in Hdist as (d0 & _ & [= _ <-]).
    by rewrite Hperm, length_map_to_list. }
  assert (has_counts {[ 0 := 0; 1 := 0; 2 := 0; 3 := 0 ]}) as Hinit.
  { by repeat split; eexists. }
  unfold get_match_distribution in Hdist.
  apply outcome_bind_Ok in Hdist as (d0 & Hloop & [= <- Hlen]).
  destruct (distribution_loop_Ok _ _ _ _ _ Hinit Hloop) as (_ & _ & Hsum & _).
  split; [by rewrite Htotal, <- Hdom, size_dom|]. split; [lia|].
  rewrite Hsum, <- Hlen. done.
Qed.

Lemma distribution_counts_distinct_ids_witness :
  let report_of (r : outcome report * list event) : report :=
    match r.1 with Ok rep => rep | Raise _ => ∅ end in
  let rep := report_of (match_products ∅ constant_provider [japfa_J1; japfa_J1_again]
                          [licious_L1] "weighted" []) in
  1 = size (list_to_set ((λ it : item, field it "japfa_id")
                           <$> [japfa_J1; japfa_J1_again]) : gset string) ∧
  1 ≤ length [japfa_J1; japfa_J1_again] ∧
  distribution_sum ({[ 0 := 0; 1 := 1; 2 := 0; 3 := 0 ]} : gmap nat nat) = 1.
Proof.
  intros report_of rep.
  apply (distribution_counts_distinct_ids ∅ constant_provider 2
           [japfa_J1; japfa_J1_again] [licious_L1] "weighted" [] rep
           (match_products ∅ constant_provider [japfa_J1; japfa_J1_again]
              [licious_L1] "weighted" []).2
           float_of_confidence (map_to_list rep) 50).
  - apply constant_provider_total.
  - apply Forall_cons_2; [|apply Forall_cons_2; [|apply Forall_nil_2]];
      by apply has_fields_check.
  - apply Forall_cons_2; [|apply Forall_nil_2]. by apply has_fields_check.
  - vm_compute. reflexivity.
  - reflexivity.
  - vm_compute. reflexivity.
Defined.

(** * A zero embedding in the report and on the dashboards *)

Lemma add_zero_or_nan a b : zero_or_nan a → zero_or_nan b → zero_or_nan (a + b)%float.
Proof.
  unfold zero_or_nan. rewrite add_spec. unfold SF64add.
  intros [[s ->] | ->] [[s' ->] | ->]; simpl; eauto.
  destruct s, s'; eauto.
Qed.

Lemma add_zero a b s s' :
  Prim2SF a = S754_zero s → Prim2SF b = S754_zero s' →
  ∃ s'', Prim2SF (a + b)%float = S754_zero s''.
Proof.
  intros Ha Hb. rewrite add_spec, Ha, Hb. unfold SF64add. simpl.
  destruct s, s'; eauto.
Qed.

Lemma mul_zero a b s s' :
  Prim2SF a = S754_zero s → Prim2SF b = S754_zero s' →
  ∃ s'', Prim2SF (a * b)%float = S754_zero s''.
Proof. intros Ha Hb. rewrite mul_spec, Ha, Hb. unfold SF64mul. simpl. eauto. Qed.

Lemma dot_sum_zero_l (a b : list float) :
  Forall (λ x, is_zero x = true) a → zero_or_nan (dot_sum a b).
Proof.
  unfold dot_sum. assert (zero_or_nan (f_zero : float)) as Hacc.
  { left. by exists false. }
  revert Hacc. generalize (f_zero : float).
  intros acc Hacc Ha. revert b acc Hacc.
  induction Ha as [|x a Hx Ha IH]; intros [|y b] acc Hacc; simpl; try done.
  apply IH. apply add_zero_or_nan; [done|].
  apply is_zero_spec in Hx as [s Hx]. by eapply mul_zero_l.
Qed.

Lemma np_norm_zero (a : list float) :
  Forall (λ x, is_zero x = true) a → ∃ s, Prim2SF (np_norm a) = S754_zero s.
Proof.
  intros Ha. unfold np_norm. simpl. rewrite sqrt_spec.
  assert (∃ s, Prim2SF (dot_sum a a) = S754_zero s) as [s ->]; [|simpl; eauto].
  unfold dot_sum. assert (∃ s, Prim2SF (f_zero : float) = S754_zero s) as Hacc.
  { by exists false. }
  revert Hacc. generalize (f_zero : float). intros acc Hacc. revert acc Hacc.
  induction Ha as [|x a Hx Ha IH]; intros acc [sa Hacc]; simpl; [eauto|].
  apply IH. apply is_zero_spec in Hx as [s Hx].
  destruct (mul_zero x x s s Hx Hx) as [s' Hxx]. by eapply add_zero.
Qed.

Lemma div_nan d z : zero_or_nan d → zero_or_nan z → Prim2SF (d / z)%float = S754_nan.
Proof.
  rewrite div_spec. unfold SF64div.
  by intros [[s ->] | ->] [[s' ->] | ->].
Qed.

Lemma cosine_similarity_zero_vector (v t : list float) :
  Forall (λ x, is_zero x = true) v → length v = length t →
  ∃ r, cosine_similarity v t = Ok r ∧ Prim2SF r = S754_nan.
Proof.
  intros Hv Hlen. rewrite (cosine_similarity_Ok v t Hlen).
  eexists. split; [done|]. simpl. apply div_nan.
  - by apply dot_sum_zero_l.
  - destruct (np_norm_zero v Hv) as [s Hs]. by eapply mul_zero_l.
Qed.

Lemma format_confidence_nan r : Prim2SF r = S754_nan → format_confidence r = "nan%".
Proof.
  intros Hr. unfold format_confidence, format_2f.
  rewrite mul_spec, Hr. done.
Qed.

Lemma leb_nan_r t x : is_nan x = true → (t <=? x)%float = false.
Proof.
  intros Hx%is_nan_spec. rewrite leb_spec, Hx. unfold SFleb.
  by destruct (Prim2SF t) as [[]|[]| |[] m e].
Qed.

(** X23: a product whose embedding is all zeros is never matched, and the
    report does not say why.  Against every target of its dimension the
    similarity is [nan] (not an error), the confidence written is
    ["nan%"], and if [float("nan")] is a [nan], such a match meets no
    threshold on the dashboards, not even the lowest. *)
Theorem zero_embedding_never_matches (v t : list float) :
  Forall (λ x, is_zero x = true) v → length v = length t →
  ∃ r, cosine_similarity v t = Ok r ∧
       is_nan r = true ∧
       format_confidence r = "nan%" ∧
       ∀ (py_float : string → option float) x threshold m,
         py_float "nan" = Some x → is_nan x = true →
         me_confidence m = format_confidence r →
         meets_threshold py_float threshold m = Ok false.
Proof.
  intros Hv Hlen.
  destruct (cosine_similarity_zero_vector v t Hv Hlen) as (r & Hr & Hnan).
  exists r. split; [done|]. split; [by apply is_nan_spec|].
  split; [by apply format_confidence_nan|].
  intros py_float x threshold m Hpy Hx Hm.
  unfold meets_threshold, confidence_value.
  rewrite Hm, (format_confidence_nan r Hnan).
  change (strip_percent "nan%") with "nan". rewrite Hpy. simpl.
  by rewrite leb_nan_r.
Qed.

Lemma zero_embedding_never_matches_witness :
  ∃ r, cosine_similarity [0; 0]%float [1; 0]%float = Ok r ∧
       is_nan r = true ∧
       format_confidence r = "nan%" ∧
       ∀ (py_float : string → option float) x threshold m,
         py_float "nan" = Some x → is_nan x = true →
         me_confidence m = format_confidence r →
         meets_threshold py_float threshold m = Ok false.
Proof.
  apply (zero_embedding_never_matches [0; 0]%float [1; 0]%float).
  - apply Forall_cons_2; [|apply Forall_cons_2; [|apply Forall_nil_2]]; reflexivity.
  - reflexivity.
Defined.

(** * What the report says *)

Lemma mapM_M_fmap {A B} (f : A → M B) (g : A → B) (h : A → list event) l w :
  Forall (λ x, ∀ w, f x w = (Ok (g x), w ++ h x)) l →
  mapM_M f l w = (Ok (g <$> l), w ++ concat (h <$> l)).
Proof.
  intros Hl. revert w. induction Hl as [|x l Hx _ IH]; intros w; simpl.
  - by rewrite ret_run, app_nil_r.
  - rewrite bind_run, Hx, bind_run, IH, ret_run. by rewrite app_assoc.
Qed.

Lemma embed_item_pure (STOP_WORDS : gset string)
    (provider : list event → string → provider_error + list float)
    (embed : string → list float) d match_type (it : item) w :
  (∀ w input, provider w input = inr (embed input)) →
  (∀ input, length (embed input) = d) →
  has_fields ["title"; "description"; "type"] it →
  embed_item STOP_WORDS provider match_type it w
  = (Ok (item_embedding STOP_WORDS embed match_type it),
     w ++ item_calls STOP_WORDS match_type it) ∧
  length (item_embedding STOP_WORDS embed match_type it) = d.
Proof.
  intros Hp Hd Hf.
  destruct (has_fields_lookup _ it "title" Hf) as [t Ht];
    [rewrite !elem_of_cons; auto|].
  destruct (has_fields_lookup _ it "description" Hf) as [ds Hds];
    [rewrite !elem_of_cons; auto|].
  destruct (has_fields_lookup _ it "type" Hf) as [ty Hty];
    [rewrite !elem_of_cons; auto|].
  unfold embed_item, item_calls, item_embedding.
  rewrite (field_lookup _ _ _ Ht), (field_lookup _ _ _ Hds), (field_lookup _ _ _ Hty).
  repeat case_decide.
  - rewrite bind_run, (getitem_Some _ _ _ Ht). unfold lift.
    by rewrite get_embedding_run, Hp.
  - rewrite bind_run, (getitem_Some _ _ _ Hds). unfold lift.
    by rewrite get_embedding_run, Hp.
  - rewrite bind_run, (getitem_Some _ _ _ Ht). unfold lift.
    rewrite bind_run, (getitem_Some _ _ _ Hds).
    rewrite bind_run, (getitem_Some _ _ _ Hty).
    split.
    + apply get_weighted_embedding_run; rewrite ?Hp, ?Hd; done.
    + unfold np_div_scalar. rewrite length_map, length_weighted_sum; rewrite ?Hd; done.
  - rewrite bind_run, (getitem_Some _ _ _ Ht). unfold lift.
    rewrite bind_run, (getitem_Some _ _ _ Hds).
    by rewrite get_embedding_run, Hp.
Qed.

Lemma match_entry_of_match (r : item * float) m :
  match_entry_of r = Ok m → match_of m r.1 r.2.
Proof.
  unfold match_entry_of, mbind, outcome_bind, getitem, match_of, field.
  destruct (r.1 !! "licious_id") as [i|]; [|done].
  destruct (r.1 !! "title") as [t|]; [|done].
  destruct (r.1 !! "type") as [ty|]; [|done].
  destruct (r.1 !! "category_name") as [c|]; [|done].
  by intros [= <-].
Qed.

(** The matches of an entry are targets, each with the confidence of its
    similarity to the source. *)
Lemma report_entry_of_matches (it : item) emb target_items target_embeddings id entry :
  length target_embeddings ≤ length target_items →
  Forall (λ t, length t = length emb) target_embeddings →
  report_entry_of it emb target_items target_embeddings = Ok (id, entry) →
  Forall (λ m, ∃ j tj t s,
            target_items !! j = Some tj ∧ target_embeddings !! j = Some t ∧
            cosine_similarity emb t = Ok s ∧ match_of m tj s)
    (re_matches entry).
Proof.
  intros Hlen Hdim. unfold report_entry_of.
  destruct (get_top_matches_run it target_items emb target_embeddings default_top_k
              Hlen Hdim) as (sims & res & Hsims & Hres & Hpairs).
  unfold mbind, outcome_bind.
  destruct (getitem it "japfa_id"); [|done]. rewrite Hres.
  destruct (getitem it "title"); [|done].
  destruct (getitem it "category_name"); [|done].
  destruct (getitem it "type"); [|done].
  destruct (mapM_outcome match_entry_of res) as [ms|] eqn:Hms; [|done].
  intros [= _ <-]. simpl.
  apply mapM_outcome_Forall2 in Hms.
  apply Forall_forall. intros m Hm.
  apply list_elem_of_lookup_1 in Hm as [k Hk].
  destruct (Forall2_lookup_r _ _ _ _ _ Hms Hk) as (r & Hr & Hentry).
  destruct (Forall2_lookup_r _ _ _ _ _ Hpairs Hr) as ([j x] & Hp & Htj & Hsj & Hx).
  simpl in *. subst x.
  destruct (Forall2_lookup_r _ _ _ _ _ Hsims Hsj) as (t & Ht & Hcos).
  exists j, r.1, t, r.2. split; [done|]. split; [done|]. split; [done|].
  by apply match_entry_of_match.
Qed.

(** X24: what the report says of a source item.  With a provider that
    answers every text with the same vector each time, every match in the
    entry of a source item is a target item of the catalog, with that
    target's id, title, type and category, and its confidence is the
    formatted cosine similarity of the embeddings of the two items. *)
Theorem match_products_confidences (STOP_WORDS : gset string)
    (provider : list event → string → provider_error + list float)
    (embed : string → list float) d source_items target_items match_type w :
  (∀ w input, provider w input = inr (embed input)) →
  (∀ input, length (embed input) = d) →
  Forall (has_fields source_fields) source_items →
  Forall (has_fields target_fields) target_items →
  ∃ (rep : report) w',
    match_products STOP_WORDS provider source_items target_items match_type w
    = (Ok rep, w') ∧
    ∀ i it, source_items !! i = Some it →
      (∀ j it', i < j → source_items !! j = Some it' →
                field it' "japfa_id" ≠ field it "japfa_id") →
      ∃ entry, rep !! field it "japfa_id" = Some entry ∧
        Forall (λ m, ∃ tj s,
                  tj ∈ target_items ∧
                  cosine_similarity (item_embedding STOP_WORDS embed match_type it)
                    (item_embedding STOP_WORDS embed match_type tj) = Ok s ∧
                  match_of m tj s)
          (re_matches entry).
Proof.
  intros Hp Hd Hsf Htf. unfold match_products.
  set (emb := item_embedding STOP_WORDS embed match_type).
  assert (∀ fields (items : list item) w0,
            ["title"; "description"; "type"] ⊆ fields →
            Forall (has_fields fields) items →
            mapM_M (embed_item STOP_WORDS provider match_type) items w0
            = (Ok (emb <$> items),
               w0 ++ concat (item_calls STOP_WORDS match_type <$> items))) as Hembed.
  { intros fields items w0 Hsub Hf. apply mapM_M_fmap.
    eapply Forall_impl; [exact Hf|]. intros it Hit w1. simpl.
    apply (embed_item_pure STOP_WORDS provider embed d); [done|done|].
    by eapply has_fields_sub. }
  assert (∀ items : list item, Forall (λ v, length v = d) (emb <$> items)) as Hdims.
  { intros items. apply Forall_fmap, Forall_forall. intros it _. simpl. unfold emb.
    unfold item_embedding. repeat case_decide; rewrite ?Hd; try done.
    unfold np_div_scalar. rewrite length_map, length_weighted_sum; rewrite ?Hd; done. }
  rewrite bind_run, (Hembed source_fields) by (apply embedded_fields_source || done).
  rewrite bind_run, (Hembed target_fields) by (apply embedded_fields_target || done).
  unfold lift.
  pose proof (zip_embeddings_wf d source_fields source_items (emb <$> source_items)
                (emb <$> target_items) Hsf (Hdims _) (Hdims _)) as Hz.
  destruct (build_results_general (zip source_items (emb <$> source_items)) target_items
              (emb <$> target_items) ∅ Hz Htf) as (rep & -> & _ & _ & _ & Hlast).
  { by rewrite length_fmap. }
  exists rep. eexists. split; [done|].
  intros i it Hi Hlater.
  destruct (Hlast i (it, emb it)) as (entry & Hentry & Hre).
  { rewrite lookup_zip_with, Hi. simpl. by rewrite list_lookup_fmap, Hi. }
  { intros j [it' e'] Hij Hj. simpl.
    apply lookup_zip_with_Some in Hj as (? & ? & [= <- <-] & Hj & _).
    by apply (Hlater j). }
  simpl in *. exists entry. split; [done|].
  eapply Forall_impl.
  - eapply report_entry_of_matches; [| |exact Hre].
    + by rewrite length_fmap.
    + rewrite Forall_forall in Hz. apply (Hz (it, emb it)).
      apply (list_elem_of_lookup_2 _ i). rewrite lookup_zip_with, Hi. simpl.
      by rewrite list_lookup_fmap, Hi.
  - intros m (j & tj & t & s & Htj & Ht & Hcos & Hm). simpl in *.
    rewrite list_lookup_fmap, Htj in Ht. injection Ht as <-.
    exists tj, s. split; [by eapply list_elem_of_lookup_2|done].
Qed.

Lemma match_products_confidences_witness :
  ∃ (rep : report) w',
    match_products ∅ constant_provider [japfa_J1] [licious_L1; licious_L2] "title" []
    = (Ok rep, w') ∧
    ∀ i it, [japfa_J1] !! i = Some it →
      (∀ j it', i < j → [japfa_J1] !! j = Some it' →
                field it' "japfa_id" ≠ field it "japfa_id") →
      ∃ entry, rep !! field it "japfa_id" = Some entry ∧
        Forall (λ m, ∃ tj s,
                  tj ∈ [licious_L1; licious_L2] ∧
                  cosine_similarity
                    (item_embedding ∅ (λ _, [1; 0]%float) "title" it)
                    (item_embedding ∅ (λ _, [1; 0]%float) "title" tj) = Ok s ∧
                  match_of m tj s)
          (re_matches entry).
Proof.
  apply (match_products_confidences ∅ constant_provider (λ _, [1; 0]%float) 2
           [japfa_J1] [licious_L1; licious_L2] "title" []).
  - reflexivity.
  - reflexivity.
  - apply Forall_cons_2; [|apply Forall_nil_2]. by apply has_fields_check.
  - apply Forall_cons_2; [|apply Forall_cons_2; [|apply Forall_nil_2]];
      by apply has_fields_check.
Defined.

(** * The text of the combined match type *)

Lemma string_map_app f (a b : string) :
  string_map f (a +:+ b) = string_map f a +:+ string_map f b.
Proof.
  induction a as [|c a IH]; [done|]. rewrite append_cons. simpl.
  by rewrite IH, append_cons.
Qed.

Lemma push_word_app w (l1 l2 : list string) :
  push_word w (l1 ++ l2) = push_word w l1 ++ l2.
Proof. unfold push_word. by case_decide. Qed.

Lemma split_acc_app_space (a b : string) :
  split_acc (a +:+ " " +:+ b) = ((split_acc a).1, (split_acc a).2 ++ split b).
Proof.
  induction a as [|c a IH].
  - rewrite append_empty_l. by rewrite split_acc_space.
  - rewrite append_cons. simpl. rewrite IH.
    destruct (split_acc a) as [w ws]. simpl.
    destruct (is_space c); [|done]. by rewrite push_word_app.
Qed.

(** The words of two texts put together with a space are the words of the
    first followed by the words of the second. *)
Lemma split_app_space (a b : string) : split (a +:+ " " +:+ b) = split a ++ split b.
Proof.
  unfold split at 1 2. rewrite split_acc_app_space.
  destruct (split_acc a) as [w ws]. simpl. apply push_word_app.
Qed.

Lemma preprocess_text_words (STOP_WORDS : gset string) text :
  split (preprocess_text STOP_WORDS text)
  = filter (λ word, word ∉ ALL_STOP_WORDS STOP_WORDS) (split (sub_non_alpha (lower text))).
Proof.
  unfold preprocess_text. apply split_join.
  apply Forall_filter_sub, tokens_clean.
Qed.

(** X25: the text of the match type "combined" (and of every match type
    that is not one of the three named ones) is cleaned as its two halves
    are: [preprocess_text] of a title and a description joined by a space
    is the words of the cleaned title followed by the words of the cleaned
    description, joined by single spaces. *)
Theorem preprocess_text_combined (STOP_WORDS : gset string) title description :
  preprocess_text STOP_WORDS (title +:+ " " +:+ description)
  = join " " (split (preprocess_text STOP_WORDS title)
              ++ split (preprocess_text STOP_WORDS description)).
Proof.
  rewrite !preprocess_text_words. unfold preprocess_text, lower, sub_non_alpha.
  rewrite !string_map_app.
  change (string_map lower_char " ") with " ".
  change (string_map sub_char " ") with " ".
  by rewrite split_app_space, filter_app.
Qed.

(** * What [call_gemini] returns, and how long it waits *)

Section RewriterOutcomes.
Variable post : list action → string → exception + response.
Variable py_int : string → option Z.
Variable sleep_limit : Z.

Lemma retry_delay_loop_plain details x :
  Forall plain_detail details → retry_delay_loop py_int details x = Returns x.
Proof.
  intros Hd. revert x. induction Hd as [|v details (d & -> & Hty) _ IH]; intros x; [done|].
  simpl. unfold mbind, result_bind. simpl. by rewrite Hty.
Qed.

Lemma retry_delay_loop_retry v n details x :
  retry_detail py_int v n →
  retry_delay_loop py_int (v :: details) x = retry_delay_loop py_int details n.
Proof.
  intros (d & delay & -> & Hty & Hdelay & Hint). simpl.
  unfold mbind, result_bind. simpl. rewrite Hty. simpl.
  rewrite Hdelay. simpl. unfold int_of. by rewrite Hint.
Qed.

Lemma retry_delay_loop_readable details x :
  Forall (readable_detail py_int) details →
  ∃ y, retry_delay_loop py_int details x = Returns y.
Proof.
  intros Hd. revert x. induction Hd as [|v details Hv _ IH]; intros x; [by exists x|].
  destruct Hv as [(d & -> & Hty) | [n Hn]].
  - simpl. unfold mbind, result_bind. simpl. rewrite Hty. apply IH.
  - rewrite (retry_delay_loop_retry _ _ _ _ Hn). apply IH.
Qed.

Lemma retry_delay_loop_app details1 details2 x y :
  retry_delay_loop py_int details1 x = Returns y →
  retry_delay_loop py_int (details1 ++ details2) x = retry_delay_loop py_int details2 y.
Proof.
  revert x. induction details1 as [|v details1 IH]; intros x; simpl.
  - by intros [= <-].
  - unfold mbind, result_bind.
    destruct (dict_get v "@type" JNull) as [ty|]; [|done].
    destruct (eq_str ty RETRY_INFO); [|apply IH].
    destruct (dict_get v "retryDelay" (JStr "30s")) as [retry|]; [|done].
    destruct (replace_strip retry) as [s|]; [|done].
    destruct (int_of py_int s) as [n|]; [|done]. apply IH.
Qed.

(** X26: [call_gemini] waits as long as it is told to.  When the details of
    a 429 response are read without an exception, the last detail that is
    the retry information gives a delay of [n] seconds, and [time.sleep]
    accepts [n], the call sleeps [n] seconds after the request and then
    asks again; the details before it and the details of other types
    change nothing. *)
Theorem call_gemini_waits_as_told fuel prompt w r body err before detail after n :
  post w prompt = inr r → status_code r = 429%Z →
  json_body r = Some body →
  subscript body "error" = Returns err →
  subscript err "details" = Returns (JList (before ++ detail :: after)) →
  Forall (readable_detail py_int) before →
  retry_detail py_int detail n →
  Forall plain_detail after →
  (0 ≤ n ≤ sleep_limit)%Z →
  call_gemini post py_int sleep_limit (S fuel) prompt w
  = call_gemini post py_int sleep_limit fuel prompt (w ++ [Post prompt; SleepSeconds n]).
Proof.
  intros Hp Hs Hbody Herr Hdetails Hbefore Hdetail Hafter Hn.
  simpl. rewrite Hp.
  destruct (decide (status_code r = 200%Z)) as [H200|H200]; [lia|].
  destruct (decide (status_code r = 429%Z)) as [H429|H429]; [|done].
  assert (retry_delay_of py_int r = Returns n) as Hdelay.
  { unfold retry_delay_of, response_json. rewrite Hbody. simpl.
    unfold mbind, result_bind. rewrite Herr, Hdetails. simpl.
    destruct (retry_delay_loop_readable before 30%Z Hbefore) as [y Hy].
    rewrite (retry_delay_loop_app _ _ _ _ Hy).
    rewrite (retry_delay_loop_retry _ _ _ _ Hdetail).
    by apply retry_delay_loop_plain. }
  rewrite IO_bind_run. unfold lift_result. rewrite Hdelay.
  rewrite (time_sleep_run sleep_limit n _ Hn). by rewrite <- app_assoc.
Qed.

(** X27: what [call_gemini] gives back.  A value it returns is ["ERROR"] or
    the stripped text of the response to its last request, which had
    status 200.  An exception it raises is one that [requests.post] raised
    for its last request, or one that reading the body of a response with
    status 200 raised and that is neither [KeyError] nor [IndexError]; no
    other status ever makes it raise. *)
Theorem call_gemini_outcomes fuel prompt w out w' :
  (30 ≤ sleep_limit)%Z →
  call_gemini post py_int sleep_limit fuel prompt w = (Some out, w') →
  ∃ w0, w' = w0 ++ [Post prompt] ∧
    match out with
    | Returns text =>
        text = "ERROR" ∨
        ∃ r, post w0 prompt = inr r ∧ status_code r = 200%Z ∧
             candidate_text r = Returns text
    | Raises e =>
        post w0 prompt = inl e ∨
        ∃ r, post w0 prompt = inr r ∧ status_code r = 200%Z ∧
             candidate_text r = Raises e ∧
             (∀ k, e ≠ Builtin (KeyError k)) ∧ e ≠ Builtin IndexError
    end.
Proof.
  intros H30. revert w. induction fuel as [|fuel IH]; intros w; [done|].
  destruct (post w prompt) as [e|r] eqn:Hp.
  - simpl. rewrite Hp. intros [= <- <-]. exists w. split; [done|]. by left.
  - destruct (decide (status_code r = 429%Z)) as [H429|H429].
    { destruct (rate_limited_turn post py_int sleep_limit fuel prompt w r H30 Hp H429)
        as (n & _ & ->). apply IH. }
    simpl. rewrite Hp.
    destruct (decide (status_code r = 200%Z)) as [H200|H200].
    + destruct (candidate_text r) as [text|e] eqn:Htext.
      * intros [= <- <-]. exists w. split; [done|]. right. eauto.
      * destruct e as [[k| | |pe]| | | | |];
          intros [= <- <-]; exists w; (split; [done|]);
          try (by left);
          right; exists r; (repeat split; [done|done|done|done|done]).
    + destruct (decide (status_code r = 429%Z)); [done|].
      intros [= <- <-]. exists w. split; [done|]. by left.
Qed.

End RewriterOutcomes.

Lemma call_gemini_waits_as_told_witness :
  call_gemini endpoint_busy int_of_digits sleep_limit_64 (S 1) "describe" []
  = call_gemini endpoint_busy int_of_digits sleep_limit_64 1 "describe"
      ([] ++ [Post "describe"; SleepSeconds 0]).
Proof.
  apply (call_gemini_waits_as_told endpoint_busy int_of_digits sleep_limit_64
           1 "describe" [] (retry_response "0s")
           (JDict [("error", JDict [("details", JList [
              JDict [("@type", JStr RETRY_INFO); ("retryDelay", JStr "0s")]])])])
           (JDict [("details", JList [
              JDict [("@type", JStr RETRY_INFO); ("retryDelay", JStr "0s")]])])
           [] (JDict [("@type", JStr RETRY_INFO); ("retryDelay", JStr "0s")]) [] 0).
  - reflexivity.
  - reflexivity.
  - reflexivity.
  - reflexivity.
  - reflexivity.
  - apply Forall_nil_2.
  - exists [("@type", JStr RETRY_INFO); ("retryDelay", JStr "0s")], "0s".
    repeat split; reflexivity.
  - apply Forall_nil_2.
  - unfold sleep_limit_64. lia.
Defined.

Lemma call_gemini_outcomes_witness :
  ∃ w0, [Post "describe"; SleepSeconds 30; Post "describe"; SleepSeconds 30;
         Post "describe"] = w0 ++ [Post "describe"] ∧
    ("Mutton" = "ERROR" ∨
     ∃ r, endpoint_recovering w0 "describe" = inr r ∧ status_code r = 200%Z ∧
          candidate_text r = Returns "Mutton").
Proof.
  apply (call_gemini_outcomes endpoint_recovering int_of_digits sleep_limit_64
           3 "describe" [] (Returns "Mutton")).
  - apply sleep_limit_64_30.
  - vm_compute. reflexivity.
Defined.
